(** * The fotmob scraping pipeline: a shallow embedding and its properties

    Source under study:
    - [football_graph/management/commands/scrape_data.py] (the pipeline);
    - [football_graph/models.py] (the four tables).

    The development is organised as follows.
    - [Py]: the Python built-ins the pipeline calls on text and numbers
      ([str.strip], [str.replace], [int], [float], ...), with the
      exceptions they raise.
    - The two value parsers, [parse_stat_value] and [parse_market_value].
    - The rendered pages the browser hands back, the relational store, the
      ORM calls ([get], [get_or_create], [update_or_create]) and the lock.
    - The three stages: [get_squad_links], [get_player_links_multithreaded]
      and [get_player_data_multithreaded] with the per-task functions.
    - The properties.

    Modelling conventions.
    - Text is a [string] of bytes, the UTF-8 encoding of the Python [str]:
      the euro sign is three bytes.  White space is Unicode's, for the
      [str] methods and for [int] and [float].  Case mapping ([upper]) and
      decimal digits ([isdigit], [int], [float]) are those of ASCII: a text
      with a cased letter or a digit outside ASCII is outside the model.
    - [int] reads at most 4300 digits from a text, CPython's default limit.
    - [float] is IEEE-754 binary64, as [spec_float] with precision 53 and
      maximal exponent 1024; every operation rounds to nearest, ties to
      even.
    - Python's [None] is [option]'s [None]; a raised exception is the
      [Raise] case of [result]. *)

From Stdlib Require Import ZArith Ascii String List Lia Permutation.
From Stdlib Require Import SpecFloat.
From stdpp Require Import base option list strings gmap relations.

Local Open Scope Z_scope.

(** ** Exceptions *)

Inductive exn : Set :=
  | ValueError
  | OverflowError
  | AttributeError
  | TypeError
  | IndexError
  | UnboundLocalError
  | NoSuchElementException
  | TimeoutException
  | WebDriverException
  | DoesNotExist
  | MultipleObjectsReturned
  | IntegrityError.

#[global] Instance exn_eq_dec : EqDecision exn.
Proof. solve_decision. Defined.

(** The outcome of evaluating a Python expression or block. *)
Inductive result (A : Type) : Type :=
  | Ret (a : A)
  | Raise (e : exn).
Arguments Ret {A} a.
Arguments Raise {A} e.

#[global] Instance result_eq_dec {A} `{EqDecision A} : EqDecision (result A).
Proof. solve_decision. Defined.

#[global] Instance result_ret : MRet result := @Ret.
#[global] Instance result_bind : MBind result := fun A B f m =>
  match m with
  | Ret a => f a
  | Raise e => Raise e
  end.
#[global] Instance result_fmap : FMap result := fun A B f m =>
  match m with
  | Ret a => Ret (f a)
  | Raise e => Raise e
  end.

(** [try: body except: handler] with a bare [except] or [except Exception]:
    every exception of the model is caught. *)
Definition try_except {A} (body : result A) (handler : exn -> result A) : result A :=
  match body with
  | Ret a => Ret a
  | Raise e => handler e
  end.

(** Calling a [str] method on a value that may be [None]. *)
Definition as_str (v : option string) : result string :=
  match v with
  | Some s => Ret s
  | None => Raise AttributeError
  end.

(** ** Python built-ins *)

Module Py.

(** *** White space

    A white-space character is one, two or three bytes of UTF-8.
    [space_width numeric s] is the number of bytes of the white-space
    character at the head of [s], and 0 when there is none.  With
    [numeric = false] the characters are those of [str.isspace], which
    [str.strip] and [str.split] use: U+0009..U+000D, U+001C..U+001F,
    U+0020, U+0085, U+00A0, U+1680, U+2000..U+200A, U+2028, U+2029,
    U+202F, U+205F and U+3000.  With [numeric = true] they are the ones
    [int] and [float] skip around a literal: the same but for
    U+001C..U+001F. *)
Definition space_width (numeric : bool) (s : string) : nat :=
  match s with
  | String a r1 =>
      let x := N_of_ascii a in
      if ((9 <=? x) && (x <=? 13) || (x =? 32) || negb numeric && (28 <=? x) && (x <=? 31))%N
      then 1%nat
      else
        match r1 with
        | String b r2 =>
            let y := N_of_ascii b in
            if ((x =? 194) && ((y =? 133) || (y =? 160)))%N then 2%nat
            else
              match r2 with
              | String c _ =>
                  let z := N_of_ascii c in
                  if ((x =? 225) && (y =? 154) && (z =? 128)
                      || (x =? 226) && (y =? 128)
                         && ((128 <=? z) && (z <=? 138) || (z =? 168) || (z =? 169) || (z =? 175))
                      || (x =? 226) && (y =? 129) && (z =? 159)
                      || (x =? 227) && (y =? 128) && (z =? 128))%N
                  then 3%nat else 0%nat
              | EmptyString => 0%nat
              end
        | EmptyString => 0%nat
        end
  | EmptyString => 0%nat
  end.

Definition is_digit (c : ascii) : bool :=
  let n := N_of_ascii c in ((48 <=? n) && (n <=? 57))%N.

Definition digit_val (c : ascii) : Z := Z.of_N (N_of_ascii c) - 48.

Definition upper_char (c : ascii) : ascii :=
  let n := N_of_ascii c in
  if ((97 <=? n) && (n <=? 122))%N then ascii_of_N (n - 32) else c.

(** [s.upper()] *)
Fixpoint upper (s : string) : string :=
  match s with
  | EmptyString => EmptyString
  | String c r => String (upper_char c) (upper r)
  end.

(** Dropping the white space at the head of a text, and at its end: a
    text made of white space only has nothing left. *)
Fixpoint lstrip_by (numeric : bool) (s : string) : string :=
  match s with
  | EmptyString => EmptyString
  | String _ r1 =>
      match space_width numeric s with
      | 0%nat => s
      | 1%nat => lstrip_by numeric r1
      | 2%nat =>
          match r1 with
          | String _ r2 => lstrip_by numeric r2
          | EmptyString => s
          end
      | _ =>
          match r1 with
          | String _ (String _ r3) => lstrip_by numeric r3
          | _ => s
          end
      end
  end.

Fixpoint rstrip_by (numeric : bool) (s : string) : string :=
  match s with
  | EmptyString => EmptyString
  | String c r =>
      match lstrip_by numeric s with
      | EmptyString => EmptyString
      | _ => String c (rstrip_by numeric r)
      end
  end.

Definition strip_by (numeric : bool) (s : string) : string :=
  rstrip_by numeric (lstrip_by numeric s).

(** [s.lstrip()], [s.rstrip()], [s.strip()] *)
Definition lstrip (s : string) : string := lstrip_by false s.
Definition rstrip (s : string) : string := rstrip_by false s.
Definition strip (s : string) : string := strip_by false s.

(** [s.startswith(p)] and [s.endswith(p)] *)
Definition startswith (s p : string) : bool := String.prefix p s.

Fixpoint endswith (s p : string) : bool :=
  String.eqb s p ||
  match s with
  | EmptyString => false
  | String _ r => endswith r p
  end.

(** [sub in s] *)
Fixpoint contains (sub s : string) : bool :=
  String.prefix sub s ||
  match s with
  | EmptyString => false
  | String _ r => contains sub r
  end.

(** [s[:-n]] for a positive [n] *)
Definition drop_last (n : nat) (s : string) : string :=
  String.substring 0 (String.length s - n) s.

(** [s.replace(old, new)] for a non-empty [old]: occurrences are found
    left to right and do not overlap.  [skip] counts the characters of
    the occurrence being replaced that are still to be dropped. *)
Fixpoint replace_go (old new : string) (skip : nat) (s : string) : string :=
  match s with
  | EmptyString => EmptyString
  | String c r =>
      match skip with
      | S k => replace_go old new k r
      | O =>
          if String.prefix old s
          then new +:+ replace_go old new (String.length old - 1) r
          else String c (replace_go old new 0 r)
      end
  end.

Definition replace (s old new : string) : string := replace_go old new 0 s.

(** [s.split()]: the maximal runs of characters that are not white space. *)
Definition flush (cur : option string) : list string :=
  match cur with
  | Some w => [String.rev w]
  | None => []
  end.

Fixpoint split_go (cur : option string) (s : string) : list string :=
  match s with
  | EmptyString => flush cur
  | String c r1 =>
      match space_width false s with
      | 0%nat => split_go (Some (String c (default EmptyString cur))) r1
      | 1%nat => flush cur ++ split_go None r1
      | 2%nat =>
          match r1 with
          | String _ r2 => flush cur ++ split_go None r2
          | EmptyString => flush cur
          end
      | _ =>
          match r1 with
          | String _ (String _ r3) => flush cur ++ split_go None r3
          | _ => flush cur
          end
      end
  end.

Definition split (s : string) : list string := split_go None s.

(** [s.split(sep)] for a one-character separator: never empty. *)
Fixpoint split_on (sep : ascii) (s : string) : list string :=
  match s with
  | EmptyString => [EmptyString]
  | String c r =>
      let ps := split_on sep r in
      if Ascii.eqb c sep then EmptyString :: ps
      else match ps with
           | p :: q => String c p :: q
           | [] => [String c EmptyString]
           end
  end.

(** [l[i]] for a non-negative [i], and [l[-k]] for a positive [k]. *)
Definition index {A} (l : list A) (i : nat) : result A :=
  match l !! i with
  | Some x => Ret x
  | None => Raise IndexError
  end.

Definition index_from_end {A} (l : list A) (k : nat) : result A :=
  index (rev l) (k - 1).

(** [sep.join(parts)]; an item that is [None] raises [TypeError]. *)
Fixpoint join (sep : string) (parts : list (option string)) : result string :=
  match parts with
  | [] => Ret EmptyString
  | [Some p] => Ret p
  | Some p :: rest => s ← join sep rest; Ret (p +:+ sep +:+ s)
  | None :: _ => Raise TypeError
  end.

(** [s.isdigit()] *)
Fixpoint all_digits (s : string) : bool :=
  match s with
  | EmptyString => true
  | String c r => is_digit c && all_digits r
  end.

Definition isdigit (s : string) : bool :=
  match s with
  | EmptyString => false
  | _ => all_digits s
  end.

(** [s.isascii()] *)
Fixpoint isascii (s : string) : bool :=
  match s with
  | EmptyString => true
  | String c r => (N_of_ascii c <? 128)%N && isascii r
  end.

(** *** Numeric literals

    A [digitpart] is [digit (["_"] digit)*].  [digits_go acc n s] reads
    the longest one at the head of [s], after [n] digits of it were
    already read into [acc]; it returns the value, the number of digits
    and the unread rest. *)
Fixpoint digits_go (acc : Z) (n : nat) (s : string) : Z * nat * string :=
  match s with
  | EmptyString => (acc, n, s)
  | String c r =>
      if is_digit c then digits_go (10 * acc + digit_val c) (S n) r
      else if Ascii.eqb c "_" && bool_decide (n ≠ 0%nat) then
        match r with
        | String d r' =>
            if is_digit d then digits_go (10 * acc + digit_val d) (S n) r'
            else (acc, n, s)
        | EmptyString => (acc, n, s)
        end
      else (acc, n, s)
  end.

(** An optional sign at the head of a literal. *)
Definition sign (s : string) : bool * string :=
  match s with
  | String "-" r => (true, r)
  | String "+" r => (false, r)
  | _ => (false, s)
  end.

(** The largest number of digits [int] reads from a text: more raise
    [ValueError] (the default of [sys.set_int_max_str_digits]). *)
Definition int_max_str_digits : Z := 4300.

(** [int(s)] for a [str]: white space around, a sign, a digitpart of at
    most [int_max_str_digits] digits. *)
Definition int (s : string) : result Z :=
  let '(neg, body) := sign (strip_by true s) in
  match digits_go 0 0 body with
  | (v, S n, EmptyString) =>
      if int_max_str_digits <? Z.of_nat (S n) then Raise ValueError
      else Ret (if neg then - v else v)
  | _ => Raise ValueError
  end.

(** *** binary64 *)

Definition prec : Z := 53.
Definition emax : Z := 1024.

(** The float nearest to the integer [m]. *)
Definition float_of_Z (m : Z) : spec_float := binary_normalize prec emax m 0 false.

(** The float nearest to [(-1)^neg * m * 10^e], for [0 <= m]. *)
Definition float_of_decimal (neg : bool) (m e : Z) : spec_float :=
  match m with
  | Zpos p =>
      if 0 <=? e
      then binary_normalize prec emax ((if neg then Zneg p else Zpos p) * 10 ^ e) 0 false
      else SFdiv prec emax (S754_finite neg p 0)
                           (S754_finite false (Z.to_pos (10 ^ (- e))) 0)
  | _ => S754_zero neg
  end.

(** The exponent part of a float literal: empty, or [e], a sign and a
    digitpart up to the end of the text. *)
Definition exponent (s : string) : option Z :=
  match s with
  | EmptyString => Some 0
  | String c r =>
      if Ascii.eqb c "e" || Ascii.eqb c "E" then
        let '(neg, body) := sign r in
        match digits_go 0 0 body with
        | (v, S _, EmptyString) => Some (if neg then - v else v)
        | _ => None
        end
      else None
  end.

(** [float(s)] for a [str]: white space around, a sign, then [inf],
    [infinity] or [nan] in any case, or
    [([digitpart] "." digitpart | digitpart ["."]) [exponent]]. *)
Definition float (s : string) : result spec_float :=
  let '(neg, body) := sign (strip_by true s) in
  let name := upper body in
  if String.eqb name "INF" || String.eqb name "INFINITY" then Ret (S754_infinity neg)
  else if String.eqb name "NAN" then Ret S754_nan
  else
    let '(m1, n1, r1) := digits_go 0 0 body in
    let '(m, n2, r2) :=
      match r1 with
      | String "." r => digits_go m1 0 r
      | _ => (m1, 0%nat, r1)
      end in
    match (n1 + n2)%nat, exponent r2 with
    | S _, Some e => Ret (float_of_decimal neg m (e - Z.of_nat n2))
    | _, _ => Raise ValueError
    end.

(** [x * k] for a float [x] and an int [k]: [k] is converted first. *)
Definition float_mul_int (x : spec_float) (k : Z) : spec_float :=
  SFmul prec emax x (float_of_Z k).

(** [int(x)] for a float: truncation toward zero. *)
Definition int_of_float (x : spec_float) : result Z :=
  match x with
  | S754_zero _ => Ret 0
  | S754_finite s m e =>
      let a := if 0 <=? e then Z.shiftl (Zpos m) e else Z.shiftr (Zpos m) (- e) in
      Ret (if s then - a else a)
  | S754_infinity _ => Raise OverflowError
  | S754_nan => Raise ValueError
  end.

End Py.

(** A Python number: the values [parse_stat_value] can return besides [None]. *)
Inductive pynum : Set :=
  | PyInt (z : Z)
  | PyFloat (x : spec_float).

(** ** The two value parsers *)

(** [parse_stat_value], lines 347-355. *)
Definition parse_stat_value (value : option string) : result (option pynum) :=
  value ← as_str value;
  let value := if Py.endswith value "%" then Py.drop_last 1 value else value in
  let value := Py.replace value "," "." in
  try_except
    (value ← (if Py.contains "." value
              then PyFloat <$> Py.float value
              else PyInt <$> Py.int value);
     Ret (Some value))
    (fun _ => Ret None).

(** [parse_market_value], lines 357-367. *)
Definition parse_market_value (value : option string) : result (option Z) :=
  value ← as_str value;
  let value := Py.upper (Py.strip (Py.replace value "€" "")) in
  if Py.endswith value "M" then
    x ← Py.float (Py.drop_last 1 value);
    Some <$> Py.int_of_float (Py.float_mul_int x 1000000)
  else if Py.endswith value "K" then
    x ← Py.float (Py.drop_last 1 value);
    Some <$> Py.int_of_float (Py.float_mul_int x 1000)
  else
    try_except (Some <$> Py.int value) (fun _ => Ret None).

(** ** Rendered pages

    What the browser session exposes after [driver.get(url)].  Each record
    lists the elements the pipeline looks up by locator, so that a missing
    element, an element whose text cannot be read and an empty collection
    are all representable. *)

(** An element handle; [text] is [None] when reading [element.text] raises. *)
Record WebElement : Type := { text : option string }.

(** [get_text_or_none], lines 341-345. *)
Definition get_text_or_none (element : WebElement) : option string :=
  Py.strip <$> text element.

(** [parent.find_element(...)]: the first match, or an exception. *)
Definition find_element (found : option WebElement) : result WebElement :=
  match found with
  | Some el => Ret el
  | None => Raise NoSuchElementException
  end.

(** [WebDriverWait(driver, t).until(EC.presence_of_element_located(...))] *)
Definition wait_presence (present : bool) : result unit :=
  if present then Ret tt else Raise TimeoutException.

(** An anchor of the league table: its [href] and the nested [TeamName]. *)
Record TeamAnchor : Type := {
  href : option string;
  team_name_element : option WebElement
}.

(** A league overview page: the anchors inside [TableContainer] ([None]
    when the container never appears) and the league title element. *)
Record LeaguePage : Type := {
  table_container : option (list TeamAnchor);
  league_title_element : option WebElement
}.

(** A squad page: the [href] of every [SquadPlayerLink] element. *)
Record SquadPage : Type := { squad_player_links : list (option string) }.

(** A [PlayerBioStatCSS] element and a [StatItemCSS] element, each with its
    title and value children. *)
Record BioStat : Type := {
  bio_title : option WebElement;
  bio_value : option WebElement
}.

Record StatItem : Type := {
  stat_title : option WebElement;
  stat_value : option WebElement
}.

Record PlayerPage : Type := {
  player_name_element : option WebElement;
  team_element : option WebElement;
  positions_elements : list WebElement;
  bio_stats : list BioStat;
  stat_items : list StatItem
}.

(** The site as seen through a browser session.  A page is [None] when
    [driver.get] raises; [browser_starts] tells whether [create_driver]
    succeeds for the task working on a URL. *)
Record Driver : Type := {
  browser_starts : string -> bool;
  league_page : string -> option LeaguePage;
  squad_page : string -> option SquadPage;
  player_page : string -> option PlayerPage
}.

(** [create_driver], lines 60-68. *)
Definition create_driver (web : Driver) (url : string) : result Driver :=
  if browser_starts web url then Ret web else Raise WebDriverException.

Definition driver_get {P} (page : string -> option P) (url : string) : result P :=
  match page url with
  | Some p => Ret p
  | None => Raise WebDriverException
  end.

(** ** The relational store ([models.py])

    A column declared with [null=True] is an [option]; the others reject
    [None] with [IntegrityError].  Column widths and numeric conversions are
    left to the database engine and are not modelled: a row holds the values
    it was given. *)

Record League : Type := {
  league_id : Z;
  league_name : string;
  league_country : string
}.

Record Club : Type := {
  club_id : Z;
  club_name : string;
  club_league : Z;
  club_founded_year : option Z
}.

Record Player : Type := {
  player_id : Z;
  fotmob_id : option Z;
  name : string;
  club : option Z;
  position : string;
  country : string;
  shirt_number : option Z;
  age : option Z;
  height : option Z;
  market_value : option Z
}.

(** The statistics columns of [Data], in declaration order.  All are
    nullable; a row keeps them in a finite map where a missing key is NULL. *)
Definition data_columns : list string :=
  [ "goals"; "expected_goals"; "xg_on_target"; "penalty_goals"; "non_penalty_xg";
    "shots"; "shots_on_target";
    "assists"; "expected_assists"; "successful_passes"; "pass_accuracy";
    "accurate_long_balls"; "long_ball_accuracy"; "chances_created";
    "successful_crosses"; "cross_accuracy";
    "successful_dribbles"; "dribble_success"; "touches";
    "touches_in_opposition_box"; "dispossessed"; "fouls_won"; "penalties_awarded";
    "tackles_won"; "tackles_won_percentage"; "duels_won"; "duels_won_percentage";
    "aerial_duels_won"; "aerial_duels_won_percentage"; "interceptions"; "blocked";
    "fouls_committed"; "recoveries"; "possession_won_final_3rd"; "dribbled_past";
    "yellow_cards"; "red_cards";
    "saves"; "save_percentage"; "goals_conceded"; "goals_prevented"; "clean_sheets";
    "error_led_to_goal"; "high_claim";
    "gk_pass_accuracy"; "gk_accurate_long_balls"; "gk_long_ball_accuracy" ].

Record Data : Type := {
  data_id : Z;
  data_player : Z;
  data_values : gmap string pynum
}.

Record Store : Type := {
  leagues : list League;
  clubs : list Club;
  players : list Player;
  datas : list Data
}.

Definition empty_store : Store :=
  {| leagues := []; clubs := []; players := []; datas := [] |}.

(** The next value of an auto-increment primary key. *)
Definition fresh_id (ids : list Z) : Z := 1 + foldr Z.max 0 ids.

(** The keyword arguments of the two player writes: [defaults] of
    [update_or_create], lines 275-284.  [pd_club] is a [Club] object. *)
Record PlayerDefaults : Type := {
  pd_name : option string;
  pd_club : Club;
  pd_position : string;
  pd_country : option string;
  pd_shirt_number : option Z;
  pd_age : option Z;
  pd_height : option Z;
  pd_market_value : option Z
}.

(** A [Player] row from a primary key, a [fotmob_id] and [defaults];
    [name] and [country] are NOT NULL. *)
Definition player_row (pk : Z) (fid : option Z) (d : PlayerDefaults) : result Player :=
  match pd_name d, pd_country d with
  | Some n, Some c =>
      Ret {| player_id := pk; fotmob_id := fid; name := n;
             club := Some (club_id (pd_club d)); position := pd_position d;
             country := c; shirt_number := pd_shirt_number d; age := pd_age d;
             height := pd_height d; market_value := pd_market_value d |}
  | _, _ => Raise IntegrityError
  end.

(** Setting the attributes named in a [defaults] dictionary on a [Data]
    row: a key of the dictionary overwrites the column (with NULL when its
    value is [None]); a column that is not a key is left as it is. *)
Definition set_defaults (defaults : gmap string (option pynum))
    (values : gmap string pynum) : gmap string pynum :=
  merge (fun d v => match d with Some x => x | None => v end) defaults values.

(** *** Statements sent to the database

    One constructor per SQL statement the ORM issues for the pipeline; the
    index is the type of the answer. *)
Inductive DbOp : Type -> Type :=
  | LeagueSelect (name : option string) : DbOp (list League)
  | LeagueInsert (name : option string) : DbOp (result League)
  | ClubSelect (name : option string) (league : Z) : DbOp (list Club)
  | ClubInsert (name : option string) (league : Z) : DbOp (result Club)
  | ClubSelectByName (name : string) : DbOp (list Club)
  | PlayerSelect (fid : Z) : DbOp (list Player)
  | PlayerInsert (fid : Z) (d : PlayerDefaults) : DbOp (result Player)
  | PlayerUpdate (row : Player) (d : PlayerDefaults) : DbOp (result Player)
  | DataSelect (player : Z) : DbOp (list Data)
  | DataInsert (player : Z) (d : gmap string (option pynum)) : DbOp (result Data)
  | DataUpdate (row : Data) (d : gmap string (option pynum)) : DbOp (result Data).

Definition is_write {A} (op : DbOp A) : bool :=
  match op with
  | LeagueInsert _ | ClubInsert _ _ | PlayerInsert _ _ | PlayerUpdate _ _
  | DataInsert _ _ | DataUpdate _ _ => true
  | _ => false
  end.

Definition set_leagues (s : Store) (l : list League) : Store :=
  {| leagues := l; clubs := clubs s; players := players s; datas := datas s |}.
Definition set_clubs (s : Store) (l : list Club) : Store :=
  {| leagues := leagues s; clubs := l; players := players s; datas := datas s |}.
Definition set_players (s : Store) (l : list Player) : Store :=
  {| leagues := leagues s; clubs := clubs s; players := l; datas := datas s |}.
Definition set_datas (s : Store) (l : list Data) : Store :=
  {| leagues := leagues s; clubs := clubs s; players := players s; datas := l |}.

(** [WHERE column = value]: a [None] value compares with NULL and selects
    nothing from a NOT NULL column. *)
Definition name_is (n : option string) (x : string) : bool := bool_decide (n = Some x).

(** The effect of one statement on the store, and its answer. *)
Definition db_exec {A} (op : DbOp A) (s : Store) : Store * A :=
  match op in DbOp T return Store * T with
  | LeagueSelect n =>
      (s, filter (fun l => name_is n (league_name l)) (leagues s))
  | LeagueInsert n =>
      match n with
      | Some x =>
          let row := {| league_id := fresh_id (league_id <$> leagues s);
                        league_name := x; league_country := "" |} in
          (set_leagues s (leagues s ++ [row]), Ret row)
      | None => (s, Raise IntegrityError)
      end
  | ClubSelect n lg =>
      (s, filter (fun c => name_is n (club_name c) && bool_decide (club_league c = lg))
                 (clubs s))
  | ClubInsert n lg =>
      match n with
      | Some x =>
          let row := {| club_id := fresh_id (club_id <$> clubs s); club_name := x;
                        club_league := lg; club_founded_year := None |} in
          (set_clubs s (clubs s ++ [row]), Ret row)
      | None => (s, Raise IntegrityError)
      end
  | ClubSelectByName n =>
      (s, filter (fun c => bool_decide (club_name c = n)) (clubs s))
  | PlayerSelect fid =>
      (s, filter (fun p => bool_decide (fotmob_id p = Some fid)) (players s))
  | PlayerInsert fid d =>
      match player_row (fresh_id (player_id <$> players s)) (Some fid) d with
      | Ret row => (set_players s (players s ++ [row]), Ret row)
      | Raise e => (s, Raise e)
      end
  | PlayerUpdate old d =>
      match player_row (player_id old) (fotmob_id old) d with
      | Ret row =>
          (set_players s
             ((fun p => if bool_decide (player_id p = player_id old) then row else p)
                <$> players s),
           Ret row)
      | Raise e => (s, Raise e)
      end
  | DataSelect pk =>
      (s, filter (fun d => bool_decide (data_player d = pk)) (datas s))
  | DataInsert pk d =>
      let row := {| data_id := fresh_id (data_id <$> datas s); data_player := pk;
                    data_values := set_defaults d ∅ |} in
      (set_datas s (datas s ++ [row]), Ret row)
  | DataUpdate old d =>
      let row := {| data_id := data_id old; data_player := data_player old;
                    data_values := set_defaults d (data_values old) |} in
      (set_datas s
         ((fun r => if bool_decide (data_id r = data_id old) then row else r)
            <$> datas s),
       Ret row)
  end.

(** ** Programs over the store and the lock

    A task is a tree of the actions other threads can observe: taking and
    releasing [db_lock], and the statements sent to the database.  Pure
    computation happens between two actions, inside the continuations. *)

Inductive Cmd (R : Type) : Type :=
  | Done (r : R)
  | Acquire (k : Cmd R)
  | Release (k : Cmd R)
  | Db {A : Type} (op : DbOp A) (k : A -> Cmd R).
Arguments Done {R} r.
Arguments Acquire {R} k.
Arguments Release {R} k.
Arguments Db {R A} op k.

Fixpoint cmd_bind {R S} (c : Cmd R) (f : R -> Cmd S) : Cmd S :=
  match c with
  | Done r => f r
  | Acquire k => Acquire (cmd_bind k f)
  | Release k => Release (cmd_bind k f)
  | Db op k => Db op (fun a => cmd_bind (k a) f)
  end.

(** Python code that may raise, talk to the database and take the lock. *)
Definition M (A : Type) : Type := Cmd (result A).

(** What follows a statement that may raise: the rest of the block when it
    returns, nothing when it raises. *)
Definition and_then {A B} (f : A -> M B) (r : result A) : M B :=
  match r with
  | Ret a => f a
  | Raise e => Done (Raise e)
  end.

#[global] Instance M_ret : MRet M := fun A a => Done (Ret a).
#[global] Instance M_bind : MBind M := fun A B f m => cmd_bind m (and_then f).

(** A computation that touches neither the store nor the lock. *)
Definition lift {A} (r : result A) : M A := Done r.

(** [try: body except E: handler], for the exceptions [E] selected by
    [catches]; the others propagate. *)
Definition handle {A} (catches : exn -> bool) (handler : exn -> M A) (r : result A) : M A :=
  match r with
  | Ret a => Done (Ret a)
  | Raise e => if catches e then handler e else Done (Raise e)
  end.

Definition try_catch {A} (catches : exn -> bool) (body : M A) (handler : exn -> M A) : M A :=
  cmd_bind body (handle catches handler).

Definition any_exception (e : exn) : bool := true.

(** [with db_lock: body]: the lock is released on every exit of the block. *)
Definition unlock {A} (r : result A) : M A := Release (Done r).

Definition with_lock {A} (body : M A) : M A := Acquire (cmd_bind body unlock).

(** A statement, as a program. *)
Definition db {A} (op : DbOp A) : M A := Db op (fun a => Done (Ret a)).
Definition db_try {A} (op : DbOp (result A)) : M A := Db op Done.

(** *** The manager methods of the ORM

    Each is a read followed by a write decided on what was read; nothing in
    the method itself keeps another thread from running in between. *)

(** [Model.objects.get(...)] *)
Definition objects_get {Row} (select : DbOp (list Row)) : M Row :=
  rows ← db select;
  match rows with
  | [] => lift (Raise DoesNotExist)
  | [row] => mret row
  | _ => lift (Raise MultipleObjectsReturned)
  end.

(** [Model.objects.get_or_create(...)] *)
Definition get_or_create {Row} (select : DbOp (list Row)) (insert : DbOp (result Row))
    : M (Row * bool) :=
  rows ← db select;
  match rows with
  | [] => row ← db_try insert; mret (row, true)
  | [row] => mret (row, false)
  | _ => lift (Raise MultipleObjectsReturned)
  end.

(** [Model.objects.update_or_create(..., defaults=...)] *)
Definition update_or_create {Row} (select : DbOp (list Row))
    (update : Row -> DbOp (result Row)) (insert : DbOp (result Row)) : M (Row * bool) :=
  rows ← db select;
  match rows with
  | [] => row ← db_try insert; mret (row, true)
  | [row] => row ← db_try (update row); mret (row, false)
  | _ => lift (Raise MultipleObjectsReturned)
  end.

(** *** Running a program alone

    With a single thread the lock is always free when it is asked for. *)
Fixpoint run {R} (c : Cmd R) (s : Store) : Store * R :=
  match c with
  | Done r => (s, r)
  | Acquire k => run k s
  | Release k => run k s
  | Db op k => let '(s', a) := db_exec op s in run (k a) s'
  end.

(** ** Stage 1: [get_squad_links], lines 70-108 *)

(** The body of [for link in links], lines 87-102. *)
Definition squad_link_step (league_title : option string) (link : TeamAnchor)
    (all_team_links : list string) : M (list string) :=
  match href link with
  | Some h =>
      if bool_decide (h ≠ EmptyString) && Py.startswith h "https://www.fotmob.com/teams/" then
        let team_link := Py.replace h "overview" "squad" in
        let team_name :=
          try_except (get_text_or_none <$> find_element (team_name_element link))
                     (fun _ => Ret (Some "Unknown Team")) in
        team_name ← lift team_name;
        '(league, _) ← get_or_create (LeagueSelect league_title) (LeagueInsert league_title);
        _ ← get_or_create (ClubSelect team_name (league_id league))
                          (ClubInsert team_name (league_id league));
        mret (all_team_links ++ [team_link])
      else mret all_team_links
  | None => mret all_team_links
  end.

Fixpoint squad_links_loop (league_title : option string) (links : list TeamAnchor)
    (all_team_links : list string) : M (list string) :=
  match links with
  | [] => mret all_team_links
  | link :: rest =>
      all_team_links ← squad_link_step league_title link all_team_links;
      squad_links_loop league_title rest all_team_links
  end.

(** The body of [for url in urls], lines 76-102. *)
Definition squad_url_step (driver : Driver) (url : string)
    (all_team_links : list string) : M (list string) :=
  page ← lift (driver_get (league_page driver) url);
  _ ← lift (wait_presence (bool_decide (is_Some (table_container page))));
  let links := default [] (table_container page) in
  league_title_element ← lift (find_element (league_title_element page));
  let league_title := get_text_or_none league_title_element in
  squad_links_loop league_title links all_team_links.

Fixpoint squad_urls_loop (driver : Driver) (urls : list string)
    (all_team_links : list string) : M (list string) :=
  match urls with
  | [] => mret all_team_links
  | url :: rest =>
      all_team_links ← squad_url_step driver url all_team_links;
      squad_urls_loop driver rest all_team_links
  end.

Definition get_squad_links (driver : Driver) (urls : list string) : Cmd (list string) :=
  cmd_bind (squad_urls_loop driver urls [])
    (fun r => match r with
              | Ret all_team_links => Done all_team_links
              | Raise _ => Done []
              end).

(** ** Stage 2: [scrape_team_players] and [get_player_links_multithreaded] *)

(** The filter of lines 124-127 on one [href]. *)
Definition is_player_href (h : option string) : option string :=
  match h with
  | Some x =>
      if bool_decide (x ≠ EmptyString) && Py.startswith x "https://www.fotmob.com/players/"
      then Some x else None
  | None => None
  end.

(** [scrape_team_players], lines 110-136.  [create_driver()] is called
    before the [try], so its failure is the only exception that leaves the
    function. *)
Definition scrape_team_players (web : Driver) (team_link : string) : result (list string) :=
  driver ← create_driver web team_link;
  try_except
    (page ← driver_get (squad_page driver) team_link;
     _ ← wait_presence (bool_decide (squad_player_links page ≠ []));
     Ret (omap is_player_href (squad_player_links page)))
    (fun _ => Ret []).

(** The loop over [as_completed(...)], lines 147-153: [done] lists the
    futures' outcomes in completion order. *)
Fixpoint collect_player_links (done : list (result (list string)))
    (all_player_links : list string) : list string :=
  match done with
  | [] => all_player_links
  | Ret player_links :: rest => collect_player_links rest (all_player_links ++ player_links)
  | Raise _ :: rest => collect_player_links rest all_player_links
  end.

(** [get_player_links_multithreaded], lines 138-155.  One future per entry
    of [team_links]; [completion] is the order in which [as_completed]
    yields them, as positions in [team_links].  A pool cannot be built with
    fewer than one worker. *)
Definition get_player_links_multithreaded (web : Driver) (team_links : list string)
    (max_workers : Z) (completion : list nat) : result (list string) :=
  if max_workers <=? 0 then Raise ValueError
  else
    let futures := scrape_team_players web <$> team_links in
    Ret (collect_player_links (omap (fun i => futures !! i) completion) []).

(** ** Stage 3: the player task *)

(** [data_match_dict], lines 167-215, in insertion order: field key, label. *)
Definition data_match_dict : list (string * string) :=
  [ ("goals", "Goals");
    ("expected_goals", "Expected goals (xG)");
    ("xg_on_target", "xG on target (xGOT)");
    ("penalty_goals", "Penalty goals");
    ("non_penalty_xg", "Non-penalty xG");
    ("shots", "Shots");
    ("shots_on_target", "Shots on target");
    ("assists", "Assists");
    ("expected_assists", "Expected assists (xA)");
    ("successful_passes", "Successful passes");
    ("pass_accuracy", "Pass accuracy");
    ("accurate_long_balls", "Accurate long balls");
    ("long_ball_accuracy", "Long ball accuracy");
    ("chances_created", "Chances created");
    ("successful_crosses", "Successful crosses");
    ("cross_accuracy", "Cross accuracy");
    ("successful_dribbles", "Successful dribbles");
    ("dribble_success", "Dribble success");
    ("touches", "Touches");
    ("touches_in_opposition_box", "Touches in opposition box");
    ("dispossessed", "Dispossessed");
    ("fouls_won", "Fouls won");
    ("penalties_awarded", "Penalties awarded");
    ("tackles_won", "Tackles won");
    ("tackles_won_percentage", "Tackles won %");
    ("duels_won", "Duels won");
    ("duels_won_percentage", "Duels won %");
    ("aerial_duels_won", "Aerial duels won");
    ("aerial_duels_won_percentage", "Aerial duels won %");
    ("interceptions", "Interceptions");
    ("blocked", "Blocked");
    ("fouls_committed", "Fouls committed");
    ("recoveries", "Recoveries");
    ("possession_won_final_3rd", "Possession won final 3rd");
    ("dribbled_past", "Dribbled past");
    ("yellow_cards", "Yellow cards");
    ("red_cards", "Red cards");
    ("saves", "Saves");
    ("save_percentage", "Save percentage");
    ("goals_conceded", "Goals conceded");
    ("goals_prevented", "Goals prevented");
    ("clean_sheets", "Clean sheets");
    ("error_led_to_goal", "Error led to goal");
    ("high_claim", "High claim");
    ("gk_pass_accuracy", "Pass accuracy");
    ("gk_accurate_long_balls", "Accurate long balls");
    ("gk_long_ball_accuracy", "Long ball accuracy") ].

(** The [player_data] dictionary, lines 235-242. *)
Record PlayerData : Type := {
  pdata_height : option Z;
  pdata_shirt_number : option string;
  pdata_age : option Z;
  pdata_foot : option string;
  pdata_country : option string;
  pdata_market_value : option Z
}.

Definition player_data_init : PlayerData :=
  {| pdata_height := None; pdata_shirt_number := None; pdata_age := None;
     pdata_foot := None; pdata_country := None; pdata_market_value := None |}.

(** [int(value.split()[0]) if value.split()[0].isdigit() else None] *)
Definition leading_int (value : option string) : result (option Z) :=
  value ← as_str value;
  token ← Py.index (Py.split value) 0;
  if Py.isdigit token then Some <$> Py.int token else Ret None.

(** ["years" in value]; a [None] on the right raises [TypeError]. *)
Definition years_in (value : option string) : result bool :=
  match value with
  | Some v => Ret (Py.contains "years" v)
  | None => Raise TypeError
  end.

(** The body of [for field in stat_fields], lines 245-262, with its own
    [try]/[except]. *)
Definition bio_stat_step (player_data : PlayerData) (field : BioStat) : PlayerData :=
  let body : result PlayerData :=
    title_element ← find_element (bio_title field);
    let title := get_text_or_none title_element in
    value_element ← find_element (bio_value field);
    let value := get_text_or_none value_element in
    if bool_decide (title = Some "Height") then
      h ← leading_int value;
      Ret {| pdata_height := h; pdata_shirt_number := pdata_shirt_number player_data;
             pdata_age := pdata_age player_data; pdata_foot := pdata_foot player_data;
             pdata_country := pdata_country player_data;
             pdata_market_value := pdata_market_value player_data |}
    else if bool_decide (title = Some "Shirt") then
      Ret {| pdata_height := pdata_height player_data; pdata_shirt_number := value;
             pdata_age := pdata_age player_data; pdata_foot := pdata_foot player_data;
             pdata_country := pdata_country player_data;
             pdata_market_value := pdata_market_value player_data |}
    else if bool_decide (title = Some "Preferred foot") then
      Ret {| pdata_height := pdata_height player_data;
             pdata_shirt_number := pdata_shirt_number player_data;
             pdata_age := pdata_age player_data; pdata_foot := value;
             pdata_country := pdata_country player_data;
             pdata_market_value := pdata_market_value player_data |}
    else if bool_decide (title = Some "Country") then
      Ret {| pdata_height := pdata_height player_data;
             pdata_shirt_number := pdata_shirt_number player_data;
             pdata_age := pdata_age player_data; pdata_foot := pdata_foot player_data;
             pdata_country := value;
             pdata_market_value := pdata_market_value player_data |}
    else if bool_decide (title = Some "Market value") then
      m ← parse_market_value value;
      Ret {| pdata_height := pdata_height player_data;
             pdata_shirt_number := pdata_shirt_number player_data;
             pdata_age := pdata_age player_data; pdata_foot := pdata_foot player_data;
             pdata_country := pdata_country player_data; pdata_market_value := m |}
    else
      y ← years_in value;
      if (y : bool) then
        a ← leading_int value;
        Ret {| pdata_height := pdata_height player_data;
               pdata_shirt_number := pdata_shirt_number player_data;
               pdata_age := a; pdata_foot := pdata_foot player_data;
               pdata_country := pdata_country player_data;
               pdata_market_value := pdata_market_value player_data |}
      else Ret player_data in
  match body with
  | Ret updated => updated
  | Raise _ => player_data
  end.

(** The [shirt_number] entry of [defaults], line 280. *)
Definition shirt_number_value (player_data : PlayerData) : result (option Z) :=
  match pdata_shirt_number player_data with
  | Some s =>
      if bool_decide (s ≠ EmptyString) && Py.isdigit s then Some <$> Py.int s else Ret None
  | None => Ret None
  end.

(** The inner [for key, label in data_match_dict.items()], lines 296-298. *)
Fixpoint match_labels (dict : list (string * string)) (title value : option string)
    (stats_data : gmap string (option pynum)) : result (gmap string (option pynum)) :=
  match dict with
  | [] => Ret stats_data
  | (key, label) :: rest =>
      if bool_decide (title = Some label) then
        v ← parse_stat_value value;
        match_labels rest title value (<[key := v]> stats_data)
      else match_labels rest title value stats_data
  end.

(** The body of [for item in stat_items], lines 294-298. *)
Definition stat_item_step (item : StatItem) (stats_data : gmap string (option pynum))
    : result (gmap string (option pynum)) :=
  title_element ← find_element (stat_title item);
  let title := get_text_or_none title_element in
  value_element ← find_element (stat_value item);
  let value := get_text_or_none value_element in
  match_labels data_match_dict title value stats_data.

Fixpoint stat_items_loop (items : list StatItem) (stats_data : gmap string (option pynum))
    : result (gmap string (option pynum)) :=
  match items with
  | [] => Ret stats_data
  | item :: rest =>
      stats_data ← stat_item_step item stats_data;
      stat_items_loop rest stats_data
  end.

(** Lines 288-298: wait for the statistics block, then fill [stats_data]. *)
Definition collect_stats (page : PlayerPage) : result (gmap string (option pynum)) :=
  _ ← wait_presence (bool_decide (stat_items page ≠ []));
  stat_items_loop (stat_items page) ∅.

(** A local variable that an earlier branch may have left unassigned. *)
Inductive local (A : Type) : Type :=
  | Unbound
  | Bound (a : A).
Arguments Unbound {A}.
Arguments Bound {A} a.

Definition read_local {A} (x : local A) : result A :=
  match x with
  | Bound a => Ret a
  | Unbound => Raise UnboundLocalError
  end.

(** What lines 221-264 read off the page before the store is touched. *)
Record Bio : Type := {
  bio_name : option string;
  bio_club_name : string;
  bio_positions_text : string;
  bio_player_data : PlayerData;
  bio_fotmob_id : string
}.

Definition extract_bio (page : PlayerPage) (player_link : string) : result Bio :=
  _ ← wait_presence (bool_decide (is_Some (player_name_element page)));
  name_element ← find_element (player_name_element page);
  let name := get_text_or_none name_element in
  team_element ← find_element (team_element page);
  club_name ← as_str (get_text_or_none team_element);
  let club_name :=
    if Py.endswith club_name "(on loan)"
    then Py.strip (Py.drop_last (String.length " (on loan)") club_name)
    else club_name in
  positions_text ← Py.join ", " (get_text_or_none <$> positions_elements page);
  let player_data := foldl bio_stat_step player_data_init (bio_stats page) in
  fotmob_id ← Py.index_from_end (Py.split_on "/" player_link) 2;
  Ret {| bio_name := name; bio_club_name := club_name;
         bio_positions_text := positions_text; bio_player_data := player_data;
         bio_fotmob_id := fotmob_id |}.

(** The [defaults] dictionary of lines 275-284; [club] is read here. *)
Definition player_defaults (bio : Bio) (club : local Club) : result PlayerDefaults :=
  club ← read_local club;
  shirt ← shirt_number_value (bio_player_data bio);
  Ret {| pd_name := bio_name bio; pd_club := club;
         pd_position := bio_positions_text bio;
         pd_country := pdata_country (bio_player_data bio);
         pd_shirt_number := shirt;
         pd_age := pdata_age (bio_player_data bio);
         pd_height := pdata_height (bio_player_data bio);
         pd_market_value := pdata_market_value (bio_player_data bio) |}.

(** The first [with db_lock] block, lines 267-285.  The [except] branch of
    the club lookup only logs: it leaves [club] unassigned.  The ORM turns
    the [fotmob_id] text into an integer for the lookup. *)
Definition upsert_player_body (bio : Bio) : M Player :=
  club ← try_catch (fun e => bool_decide (e = DoesNotExist))
           (c ← objects_get (ClubSelectByName (bio_club_name bio)); mret (Bound c))
           (fun _ => mret Unbound);
  defaults ← lift (player_defaults bio club);
  fid ← lift (Py.int (bio_fotmob_id bio));
  '(player, _) ← update_or_create (PlayerSelect fid)
                    (fun row => PlayerUpdate row defaults) (PlayerInsert fid defaults);
  mret player.

Definition upsert_player (bio : Bio) : M Player := with_lock (upsert_player_body bio).

(** The second [with db_lock] block, lines 300-301. *)
Definition upsert_data_body (player : Player) (stats_data : gmap string (option pynum))
    : M Data :=
  '(row, _) ← update_or_create (DataSelect (player_id player))
                 (fun row => DataUpdate row stats_data)
                 (DataInsert (player_id player) stats_data);
  mret row.

Definition upsert_data (player : Player) (stats_data : gmap string (option pynum)) : M Data :=
  with_lock (upsert_data_body player stats_data).

(** The inner [try] of lines 287-307: the statistics, if the page has any. *)
Definition stats_phase (page : PlayerPage) (player : Player) : M bool :=
  try_catch any_exception
    (stats_data ← lift (collect_stats page);
     _ ← upsert_data player stats_data;
     mret true)
    (fun _ => mret true).

(** [scrape_player_with_driver], lines 165-311.  The [index] and [total]
    arguments only feed the log and are left out. *)
Definition scrape_player_with_driver (driver : Driver) (player_link : string) : M bool :=
  try_catch any_exception
    (page ← lift (driver_get (player_page driver) player_link);
     bio ← lift (extract_bio page player_link);
     player ← upsert_player bio;
     stats_phase page player)
    (fun _ => mret false).

(** [scrape_single_player], lines 157-163. *)
Definition scrape_single_player (web : Driver) (player_link : string) : M bool :=
  driver ← lift (create_driver web player_link);
  scrape_player_with_driver driver player_link.

(** ** The worker pool

    The threads of a [ThreadPoolExecutor] advance one action at a time, in
    any order.  A thread asking for the lock waits while another holds it.
    Every schedule of a pool of [max_workers] workers is such an
    interleaving, whatever [max_workers] is. *)

Definition thread_step {R} (i : nat) (c : Cmd R) (s : Store) (holder : option nat)
    : option (Cmd R * Store * option nat) :=
  match c with
  | Done _ => None
  | Acquire k =>
      match holder with
      | None => Some (k, s, Some i)
      | Some _ => None
      end
  | Release k =>
      match holder with
      | Some _ => Some (k, s, None)
      | None => None
      end
  | Db op k => let '(s', a) := db_exec op s in Some (k a, s', holder)
  end.

Record Pool (R : Type) : Type := {
  pool_store : Store;
  pool_lock : option nat;
  pool_threads : list (Cmd R)
}.
Arguments pool_store {R} p.
Arguments pool_lock {R} p.
Arguments pool_threads {R} p.

Inductive pool_step {R} : relation (Pool R) :=
  | pool_step_thread s holder ts i c c' s' holder' :
      ts !! i = Some c ->
      thread_step i c s holder = Some (c', s', holder') ->
      pool_step {| pool_store := s; pool_lock := holder; pool_threads := ts |}
                {| pool_store := s'; pool_lock := holder'; pool_threads := <[i := c']> ts |}.

Definition outcome {R} (c : Cmd R) : option R :=
  match c with
  | Done r => Some r
  | _ => None
  end.

Definition finished {R} (p : Pool R) : Prop :=
  Forall (fun c => is_Some (outcome c)) (pool_threads p).

(** The loop over [as_completed(...)], lines 327-337. *)
Fixpoint count_results (done : list (result bool)) (successful_count failed_count : nat)
    : nat * nat :=
  match done with
  | [] => (successful_count, failed_count)
  | Ret true :: rest => count_results rest (S successful_count) failed_count
  | _ :: rest => count_results rest successful_count (S failed_count)
  end.

(** [get_player_data_multithreaded], lines 315-339: the store it leaves
    behind and the two counts it logs, for one schedule of the pool. *)
Definition get_player_data_multithreaded (web : Driver) (player_links : list string)
    (max_workers : Z) (s : Store) (s' : Store) (successful_count failed_count : nat) : Prop :=
  0 < max_workers ∧
  ∃ p done,
    rtc pool_step {| pool_store := s; pool_lock := None;
                     pool_threads := scrape_single_player web <$> player_links |} p ∧
    finished p ∧
    pool_store p = s' ∧
    done ≡ₚ omap outcome (pool_threads p) ∧
    count_results done 0 0 = (successful_count, failed_count).

(** ** The parsing rules in the words of the specification

    These definitions follow the prose of the specification, not the code;
    the properties below compare the two. *)

Module Rule.

Definition option_of {A} (r : result A) : option A :=
  match r with
  | Ret a => Some a
  | Raise _ => None
  end.

(** "strip a trailing '%' if present" *)
Fixpoint strip_trailing_percent (s : string) : string :=
  match s with
  | EmptyString => EmptyString
  | String c r =>
      match r with
      | EmptyString => if Ascii.eqb c "%" then EmptyString else s
      | _ => String c (strip_trailing_percent r)
      end
  end.

(** "normalize decimal comma to decimal point" *)
Fixpoint comma_to_point (s : string) : string :=
  match s with
  | EmptyString => EmptyString
  | String c r => String (if Ascii.eqb c "," then "."%char else c) (comma_to_point r)
  end.

(** "a decimal point is present" *)
Fixpoint has_point (s : string) : bool :=
  match s with
  | EmptyString => false
  | String c r => Ascii.eqb c "." || has_point r
  end.

(** "parse as float if a decimal point is present else as integer;
    unparsable -> null" *)
Definition stat_value (s : string) : option pynum :=
  let t := comma_to_point (strip_trailing_percent s) in
  if has_point t then PyFloat <$> option_of (Py.float t)
  else PyInt <$> option_of (Py.int t).

(** The number written by a string of decimal digits. *)
Fixpoint decimal_value_from (acc : Z) (d : string) : Z :=
  match d with
  | EmptyString => acc
  | String c r => decimal_value_from (10 * acc + Py.digit_val c) r
  end.

Definition decimal_value (d : string) : Z := decimal_value_from 0 d.

(** "strip thousands separators" *)
Fixpoint strip_separators (s : string) : string :=
  match s with
  | EmptyString => EmptyString
  | String c r =>
      if Ascii.eqb c "," then strip_separators r else String c (strip_separators r)
  end.

(** The text before the last character, and the last character. *)
Fixpoint split_last (s : string) : option (string * ascii) :=
  match s with
  | EmptyString => None
  | String c r =>
      match split_last r with
      | None => Some (EmptyString, c)
      | Some (w, l) => Some (String c w, l)
      end
  end.

(** A decimal numeral [digits] or [digits.digits], as a numerator and the
    number of decimals. *)
Definition decimal_numeral (s : string) : option (Z * nat) :=
  match Py.digits_go 0 0 s with
  | (m, S _, EmptyString) => Some (m, 0%nat)
  | (m, S _, String "." r) =>
      if Py.isdigit r then Some (decimal_value_from m r, String.length r) else None
  | _ => None
  end.

(** "the leading number times [k]", in exact arithmetic. *)
Definition scaled (w : string) (k : Z) : option Z :=
  match decimal_numeral w with
  | Some (m, n) => Some (m * k / 10 ^ Z.of_nat n)
  | None => None
  end.

(** "strip currency symbol, uppercase, strip thousands separators; suffix
    'M' multiplies by 1,000,000, 'K' by 1,000, no suffix parses as a plain
    integer; unparsable -> null" *)
Definition market_value (s : string) : option Z :=
  let v := strip_separators (Py.upper (Py.strip (Py.replace s "€" ""))) in
  match split_last v with
  | Some (w, "M"%char) => scaled w 1000000
  | Some (w, "K"%char) => scaled w 1000
  | _ => if Py.isdigit v then Some (decimal_value v) else None
  end.

(** The float [x] is exactly the fraction [n / d]. *)
Definition float_is (x : spec_float) (n d : Z) : Prop :=
  match x with
  | S754_zero _ => n = 0
  | S754_finite s m e =>
      let v := if s then Zneg m else Zpos m in
      if 0 <=? e then v * 2 ^ e * d = n else v * d = n * 2 ^ (- e)
  | _ => False
  end.

End Rule.

(** ** Tables

    A table is a list of rows with a primary key [pk] and a lookup column
    [key]. *)

(** [WHERE key = k] *)
Definition rows_with {Row K} `{EqDecision K} (key : Row -> K) (k : K) (l : list Row)
    : list Row :=
  filter (fun r => bool_decide (key r = k)) l.

(** [UPDATE ... WHERE pk = pk old], on one row. *)
Definition replace_row {Row} (pk : Row -> Z) (old row : Row) (r : Row) : Row :=
  if bool_decide (pk r = pk old) then row else r.

(** ** Store invariants *)

Definition players_with (fid : Z) (s : Store) : list Player :=
  filter (fun p => bool_decide (fotmob_id p = Some fid)) (players s).

Definition data_of (pk : Z) (s : Store) : list Data :=
  filter (fun d => bool_decide (data_player d = pk)) (datas s).

Definition clubs_named (n : string) (cs : list Club) : list Club :=
  filter (fun c => bool_decide (club_name c = n)) cs.

(** Primary keys are unique; at most one [Player] row per [fotmob_id]; at
    most one [Data] row per player. *)
Record wf_store (s : Store) : Prop := {
  wf_player_ids : NoDup (player_id <$> players s);
  wf_data_ids : NoDup (data_id <$> datas s);
  wf_fotmob_unique : ∀ fid, (length (players_with fid s) <= 1)%nat;
  wf_data_unique : ∀ pk, (length (data_of pk s) <= 1)%nat
}.

(** A decision procedure for [wf_store], for concrete stores. *)
Definition wf_storeb (s : Store) : bool :=
  bool_decide (NoDup (player_id <$> players s)) &&
  bool_decide (NoDup (data_id <$> datas s)) &&
  forallb (fun p => match fotmob_id p with
                    | Some fid => (length (players_with fid s) <=? 1)%nat
                    | None => true
                    end) (players s) &&
  forallb (fun d => (length (data_of (data_player d) s) <=? 1)%nat) (datas s).

(** ** The lock discipline

    [lock_disc pre post c]: started with the lock in state [pre] (held by
    the thread or not), [c] takes the lock only when it does not hold it,
    releases it only when it holds it, sends statements to the database
    only while it holds it, and ends with the lock in state [post]. *)
Fixpoint lock_disc {R} (pre post : bool) (c : Cmd R) : Prop :=
  match c with
  | Done _ => pre = post
  | Acquire k => pre = false ∧ lock_disc true post k
  | Release k => pre = true ∧ lock_disc false post k
  | Db op k => pre = true ∧ ∀ a, lock_disc true post (k a)
  end.

(** The number of writes a program sends while it does not hold the lock,
    when run alone from [s]. *)
Fixpoint unlocked_writes {R} (held : bool) (c : Cmd R) (s : Store) : nat :=
  match c with
  | Done _ => 0
  | Acquire k => unlocked_writes true k s
  | Release k => unlocked_writes false k s
  | Db op k =>
      let '(s', a) := db_exec op s in
      ((if is_write op && negb held then 1 else 0) + unlocked_writes held (k a) s')%nat
  end.

(** ** Weakest preconditions

    [wp_db Inv c s Q]: [c] only sends statements; run from [s], every store
    it passes through after a statement satisfies [Inv], and it ends with a
    result and a store that satisfy [Q]. *)
Fixpoint wp_db {A} (Inv : Store -> Prop) (c : Cmd A) (s : Store)
    (Q : A -> Store -> Prop) : Prop :=
  match c with
  | Done r => Q r s
  | Db op k => let '(s', a) := db_exec op s in Inv s' ∧ wp_db Inv (k a) s' Q
  | _ => False
  end.

(** [in_section Inv c s Q]: [c] runs under the lock; from [s], every store
    it passes through satisfies [Inv], and it releases the lock with a
    continuation and a store that satisfy [Q]. *)
Fixpoint in_section {R} (Inv : Store -> Prop) (c : Cmd R) (s : Store)
    (Q : Cmd R -> Store -> Prop) : Prop :=
  match c with
  | Db op k => let '(s', a) := db_exec op s in Inv s' ∧ in_section Inv (k a) s' Q
  | Release k => Q k s
  | _ => False
  end.

(** The number of actions a program has left is at most [n]. *)
Fixpoint bounded {R} (n : nat) (c : Cmd R) {struct c} : Prop :=
  match c with
  | Done _ => True
  | Acquire k | Release k =>
      match n with
      | O => False
      | S m => bounded m k
      end
  | Db op k =>
      match n with
      | O => False
      | S m => ∀ a, bounded m (k a)
      end
  end.

(** What a critical section of a player task may do to the store, from the
    store [s] it started in. *)
Definition section_guarantee (s s' : Store) : Prop :=
  wf_store s' ∧ clubs s' = clubs s ∧ leagues s' = leagues s ∧
  ∀ fid, players_with fid s ≠ [] -> players_with fid s' ≠ [].

(** The club lookup of lines 268-271 as a function of the [Club] table. *)
Definition club_lookup (n : string) (cs : list Club) : result (local Club) :=
  match clubs_named n cs with
  | [] => Ret Unbound
  | [c] => Ret (Bound c)
  | _ => Raise MultipleObjectsReturned
  end.

(** The write the first critical section is about to make, as a function
    of the [Club] table: the key and the [defaults], provided the row they
    describe is accepted. *)
Definition planned_write (bio : Bio) (cs : list Club) : result (Z * PlayerDefaults) :=
  club ← club_lookup (bio_club_name bio) cs;
  defaults ← player_defaults bio club;
  fid ← Py.int (bio_fotmob_id bio);
  _ ← player_row 0 (Some fid) defaults;
  Ret (fid, defaults).

(** ** The invariant of a pool of lock-disciplined threads

    [Inv] is what every store satisfies; [T i c s] says that thread [i] may
    be at [c], outside the lock, when the store is [s]; [G] bounds what one
    critical section does to the store.  When the lock is free every thread
    is at such a point.  When thread [h] holds it, [h] is inside a section
    that will end at such a point, and the others are where they were when
    the section started, in store [s0]. *)
Definition pool_inv {R} (Inv : Store -> Prop) (G : Store -> Store -> Prop)
    (T : nat -> Cmd R -> Store -> Prop) (p : Pool R) : Prop :=
  Inv (pool_store p) ∧
  match pool_lock p with
  | None => ∀ i c, pool_threads p !! i = Some c -> T i c (pool_store p)
  | Some h =>
      ∃ c s0,
        pool_threads p !! h = Some c ∧
        in_section Inv c (pool_store p) (fun k' s' => G s0 s' ∧ T h k' s') ∧
        ∀ i c', i ≠ h -> pool_threads p !! i = Some c' -> T i c' s0
  end.

(** ** The player batch

    What a player task reads before it touches the store (lines 159-264),
    and, with the [Club] table, the write it then plans. *)
Definition task_read (web : Driver) (player_link : string) : result (PlayerPage * Bio) :=
  driver ← create_driver web player_link;
  page ← driver_get (player_page driver) player_link;
  bio ← extract_bio page player_link;
  Ret (page, bio).

Definition task_plan (web : Driver) (cs : list Club) (player_link : string)
    : result (PlayerPage * Z) :=
  '(page, bio) ← task_read web player_link;
  '(fid, _) ← planned_write bio cs;
  Ret (page, fid).

(** The [fotmob_id] a player link carries. *)
Definition link_fotmob_id (player_link : string) : option Z :=
  match Py.index_from_end (Py.split_on "/" player_link) 2 ≫= Py.int with
  | Ret fid => Some fid
  | Raise _ => None
  end.

(** No exception is raised before the [Player] row of the task is written:
    the browser starts, the page loads, the profile is read and the write
    is accepted. *)
Definition task_plan_ok (web : Driver) (cs : list Club) (player_link : string) : bool :=
  match task_plan web cs player_link with
  | Ret _ => true
  | Raise _ => false
  end.

(** The [Player] row is written and an exception is raised afterwards, in
    the statistics phase of lines 287-307. *)
Definition stats_raise (web : Driver) (cs : list Club) (player_link : string) : bool :=
  match task_plan web cs player_link with
  | Ret (page, _) =>
      match collect_stats page with
      | Ret _ => false
      | Raise _ => true
      end
  | Raise _ => false
  end.

(** The task run alone from [s] returns [True]. *)
Definition succeeds_alone (web : Driver) (s : Store) (player_link : string) : bool :=
  bool_decide (snd (run (scrape_single_player web player_link) s) = Ret true).

(** The points at which a player task is outside the lock: not started;
    between its two critical sections, the [Player] row written; done. *)
Definition task_at (web : Driver) (cs : list Club) (player_link : string)
    (c : Cmd (result bool)) (s : Store) : Prop :=
  c = scrape_single_player web player_link ∨
  (∃ page fid player,
     task_plan web cs player_link = Ret (page, fid) ∧
     c = cmd_bind (stats_phase page player) (handle any_exception (fun _ => mret false)) ∧
     players_with fid s ≠ []) ∨
  (∃ r, c = Done r ∧
        match task_plan web cs player_link with
        | Ret (_, fid) => r = Ret true ∧ players_with fid s ≠ []
        | Raise _ => r ≠ Ret true
        end).

Definition batch_inv (s0 s : Store) : Prop := wf_store s ∧ clubs s = clubs s0.

Definition batch_guarantee (s s' : Store) : Prop :=
  ∀ fid, players_with fid s ≠ [] -> players_with fid s' ≠ [].

Definition batch_thread (web : Driver) (s0 : Store) (player_links : list string)
    (i : nat) (c : Cmd (result bool)) (s : Store) : Prop :=
  ∃ player_link, player_links !! i = Some player_link ∧
                 task_at web (clubs s0) player_link c s.

(** The pool just after every task has been submitted. *)
Definition batch_start (web : Driver) (player_links : list string) (s : Store)
    : Pool (result bool) :=
  {| pool_store := s; pool_lock := None;
     pool_threads := scrape_single_player web <$> player_links |}.

(** A program that never touches the lock. *)
Fixpoint lock_free {R} (c : Cmd R) : Prop :=
  match c with
  | Done _ => True
  | Acquire _ | Release _ => False
  | Db op k => ∀ a, lock_free (k a)
  end.

(** Running a pool along a schedule: at each entry the named thread takes
    one step if it can, and the pool is left as it is otherwise. *)
Definition pool_exec_step {R} (p : Pool R) (i : nat) : Pool R :=
  match pool_threads p !! i with
  | Some c =>
      match thread_step i c (pool_store p) (pool_lock p) with
      | Some (c', s', holder') =>
          {| pool_store := s'; pool_lock := holder';
             pool_threads := <[i := c']> (pool_threads p) |}
      | None => p
      end
  | None => p
  end.

Definition pool_exec {R} (schedule : list nat) (p : Pool R) : Pool R :=
  foldl pool_exec_step p schedule.

Definition finishedb {R} (p : Pool R) : bool :=
  forallb (fun c => bool_decide (is_Some (outcome c))) (pool_threads p).

(** A task outcome that the loop of lines 327-337 counts as a success. *)
Definition is_success (r : result bool) : bool := bool_decide (r = Ret true).

(** The binary64 float whose value is the integer [r], for [r] below
    [2 ^ 53]: the mantissa is [r] shifted to 53 bits. *)
Definition float_of_pos (r : positive) : spec_float :=
  let k := Z.to_nat (Py.prec - Zpos (digits2_pos r)) in
  S754_finite false (Nat.iter k xO r) (- Z.of_nat k).

(** ** Derived views used in the statements *)

(** A byte of a visible ASCII character, codes 33 to 126.  No white-space
    character has one in its encoding. *)
Definition visible (c : ascii) : bool :=
  let n := N_of_ascii c in ((33 <=? n) && (n <=? 126))%N.

Fixpoint has_visible (s : string) : bool :=
  match s with
  | EmptyString => false
  | String c r => visible c || has_visible r
  end.

Fixpoint all_visible (s : string) : bool :=
  match s with
  | EmptyString => true
  | String c r => visible c && all_visible r
  end.


(** The squad links an anchor list yields when nothing raises: the filter
    and the substitution of lines 88-90. *)
Definition team_link_of (link : TeamAnchor) : option string :=
  match href link with
  | Some h =>
      if bool_decide (h ≠ EmptyString) && Py.startswith h "https://www.fotmob.com/teams/"
      then Some (Py.replace h "overview" "squad") else None
  | None => None
  end.

Definition page_team_links (driver : Driver) (url : string) : list string :=
  match league_page driver url with
  | Some page => omap team_link_of (default [] (table_container page))
  | None => []
  end.

(** A league URL whose processing raises before any team is looked at: the
    navigation fails, the table container never appears, or the title
    element is missing. *)
Definition url_fails (driver : Driver) (url : string) : bool :=
  match league_page driver url with
  | Some page =>
      negb (bool_decide (is_Some (table_container page)) &&
            bool_decide (is_Some (league_title_element page)))
  | None => true
  end.

(** The name stage 1 gives the club of a team anchor, lines 91-94: the
    text of its [TeamName] child, "Unknown Team" when it has none. *)
Definition team_name_of (link : TeamAnchor) : option string :=
  match team_name_element link with
  | Some el => get_text_or_none el
  | None => Some "Unknown Team"
  end.

(** A team anchor that can be recorded under the league title
    [league_title]: both texts are readable.  An anchor that is not a team
    link asks for nothing. *)
Definition anchor_clean (league_title : option string) (link : TeamAnchor) : bool :=
  match team_link_of link with
  | Some _ => bool_decide (is_Some league_title) && bool_decide (is_Some (team_name_of link))
  | None => true
  end.

(** A league URL whose processing raises nothing, on a store without
    duplicates: the page loads with its table container and its title
    element, and every team anchor can be recorded. *)
Definition url_clean (driver : Driver) (url : string) : bool :=
  match league_page driver url with
  | Some page =>
      match table_container page, league_title_element page with
      | Some links, Some title => forallb (anchor_clean (get_text_or_none title)) links
      | _, _ => false
      end
  | None => false
  end.

(** The rows the two [get_or_create] of stage 1 look up. *)
Definition leagues_named (n : string) (s : Store) : list League :=
  filter (fun l => name_is (Some n) (league_name l)) (leagues s).

Definition clubs_in (n : string) (lg : Z) (s : Store) : list Club :=
  filter (fun c => name_is (Some n) (club_name c) && bool_decide (club_league c = lg))
         (clubs s).

(** No two leagues share a name, no two clubs share a name and a league. *)
Definition no_duplicates (s : Store) : Prop :=
  (∀ n, (length (leagues_named n s) <= 1)%nat) ∧
  (∀ n lg, (length (clubs_in n lg s) <= 1)%nat).

(** What one team task contributes to the aggregate: its result list, or
    nothing when the future raises. *)
Definition links_of (r : result (list string)) : list string :=
  match r with
  | Ret player_links => player_links
  | Raise _ => []
  end.

Definition team_task_links (web : Driver) (team_link : string) : list string :=
  links_of (scrape_team_players web team_link).

(** The keys [data_match_dict] associates with the label [title]. *)
Definition title_is (title : option string) (label : string) : bool :=
  match title with
  | Some t => String.eqb t label
  | None => false
  end.

Definition labelled (dict : list (string * string)) (title : option string)
    (key : string) : bool :=
  existsb (fun '(k, label) => String.eqb k key && title_is title label) dict.

(** The three labels that [data_match_dict] lists twice: outfield key,
    goalkeeper key, label. *)
Definition shared_labels : list (string * string * string) :=
  [ ("pass_accuracy", "gk_pass_accuracy", "Pass accuracy");
    ("accurate_long_balls", "gk_accurate_long_balls", "Accurate long balls");
    ("long_ball_accuracy", "gk_long_ball_accuracy", "Long ball accuracy") ].

(** Whether the statistics block of a page has an item whose label feeds
    the column [key]. *)
Definition label_present (page : PlayerPage) (key : string) : bool :=
  existsb (fun item =>
             match stat_title item with
             | Some t => labelled data_match_dict (get_text_or_none t) key
             | None => false
             end) (stat_items page).

(** ** A sample site

    Concrete pages and stores on which the properties are exercised. *)

Module Sample.

Definition element (s : string) : option WebElement := Some {| text := Some s |}.

Definition anchor (h team : string) : TeamAnchor :=
  {| href := Some h; team_name_element := element team |}.

Definition laliga_url : string := "https://www.fotmob.com/leagues/87/overview/laliga".
Definition ligue1_url : string := "https://www.fotmob.com/leagues/53/overview/ligue-1".

Definition laliga : LeaguePage :=
  {| table_container :=
       Some [ anchor "https://www.fotmob.com/teams/8633/overview/real-madrid" "Real Madrid";
              anchor "https://www.fotmob.com/leagues/87/table" "Table";
              anchor "https://www.fotmob.com/teams/8634/overview/barcelona" "Barcelona" ];
     league_title_element := element "LaLiga" |}.

Definition bio (t v : string) : BioStat :=
  {| bio_title := element t; bio_value := element v |}.

Definition stat (t v : string) : StatItem :=
  {| stat_title := element t; stat_value := element v |}.

(** A profile page of a Real Madrid player with the given statistics. *)
Definition profile (stats : list StatItem) : PlayerPage :=
  {| player_name_element := element "Jude Bellingham";
     team_element := element "Real Madrid";
     positions_elements := [ {| text := Some "AM" |}; {| text := Some "CM" |} ];
     bio_stats := [ bio "Height" "186 cm"; bio "Shirt" "5"; bio "Age" "21 years";
                    bio "Preferred foot" "Right"; bio "Country" "England";
                    bio "Market value" "€180M" ];
     stat_items := stats |}.

Definition season_stats : list StatItem :=
  [ stat "Goals" "9"; stat "Assists" "8"; stat "Pass accuracy" "90,1%" ].

Definition player_url (n : string) : string :=
  "https://www.fotmob.com/players/" +:+ n +:+ "/profile".

Definition squad_urls : list string :=
  [ "https://www.fotmob.com/teams/8633/squad/real-madrid";
    "https://www.fotmob.com/teams/8634/squad/barcelona";
    "https://www.fotmob.com/teams/9999/squad/nowhere" ].

(** Ten player links; the page of the fourth does not load. *)
Definition player_urls : list string :=
  player_url <$> [ "101"; "102"; "103"; "104"; "105"; "106"; "107"; "108"; "109"; "110" ].

Definition site (stats : list StatItem) : Driver :=
  {| browser_starts := fun _ => true;
     league_page := fun url => if String.eqb url laliga_url then Some laliga else None;
     squad_page := fun url =>
       if String.eqb url "https://www.fotmob.com/teams/8633/squad/real-madrid" then
         Some {| squad_player_links :=
                   [ Some (player_url "101"); Some (player_url "102");
                     Some "https://www.fotmob.com/teams/8633/overview/real-madrid";
                     Some (player_url "103") ] |}
       else if String.eqb url "https://www.fotmob.com/teams/8634/squad/barcelona" then
         Some {| squad_player_links := [ Some (player_url "105"); None ] |}
       else None;
     player_page := fun url =>
       if bool_decide (url ∈ player_urls) && negb (String.eqb url (player_url "104"))
       then Some (profile stats) else None |}.

Definition web : Driver := site season_stats.

(** The same site later in the season: the "Goals" line is gone. *)
Definition web_later : Driver := site [ stat "Assists" "11" ].

(** The store once stage 1 has run on the LaLiga page. *)
Definition after_leagues : Store := fst (run (get_squad_links web [laliga_url]) empty_store).

(** The same site when every profile loads, the statistics block of player
    104 holding one item that has lost its value element. *)
Definition web_broken_stat : Driver :=
  {| browser_starts := browser_starts web;
     league_page := league_page web;
     squad_page := squad_page web;
     player_page := fun url =>
       if bool_decide (url ∈ player_urls) then
         Some (profile (if String.eqb url (player_url "104")
                        then [ {| stat_title := element "Goals"; stat_value := None |} ]
                        else season_stats))
       else None |}.

(** The same site with a second league page, whose title element is there
    but whose text cannot be read. *)
Definition untitled_url : string := "https://www.fotmob.com/leagues/47/overview/premier-league".

Definition web_untitled : Driver :=
  {| browser_starts := browser_starts web;
     league_page := fun url =>
       if String.eqb url untitled_url
       then Some {| table_container := table_container laliga;
                    league_title_element := Some {| text := None |} |}
       else league_page web url;
     squad_page := squad_page web;
     player_page := player_page web |}.

(** A schedule for a pool of ten threads: each in turn, a hundred times. *)
Definition round_robin : list nat := concat (replicate 100 (seq 0 10)).

End Sample.

(** * Properties *)

(** ** Text lemmas *)

Section TextLemmas.

Lemma endswith_percent (s : string) :
  (if Py.endswith s "%" then Py.drop_last 1 s else s) = Rule.strip_trailing_percent s.
Proof.
  induction s as [|c r IH]; [reflexivity|].
  destruct r as [|c' r'].
  - cbn. destruct (Ascii.eqb c "%"); reflexivity.
  - assert (String.eqb (String c (String c' r')) "%" = false) as He.
    { cbn. destruct (Ascii.eqb c "%"); reflexivity. }
    change (Rule.strip_trailing_percent (String c (String c' r')))
      with (String c (Rule.strip_trailing_percent (String c' r'))).
    rewrite <- IH.
    remember (String c' r') as t eqn:Et.
    change (Py.endswith (String c t) "%")
      with (String.eqb (String c t) "%" || Py.endswith t "%").
    rewrite He. cbn [orb].
    destruct (Py.endswith t "%"); [|reflexivity].
    unfold Py.drop_last. subst t. cbn [String.length].
    replace (S (S (String.length r')) - 1)%nat with (S (S (String.length r') - 1))%nat by lia.
    reflexivity.
Qed.

Lemma replace_comma (s : string) : Py.replace s "," "." = Rule.comma_to_point s.
Proof.
  unfold Py.replace.
  induction s as [|c r IH]; [reflexivity|].
  cbn [Py.replace_go Rule.comma_to_point String.prefix String.length].
  destruct (Ascii.eqb_spec c ",") as [->|Hc].
  - destruct (ascii_dec "," ","); [|congruence].
    cbn. rewrite IH. destruct r; reflexivity.
  - destruct (ascii_dec "," c); [congruence|]. rewrite IH. reflexivity.
Qed.

Lemma contains_point (s : string) : Py.contains "." s = Rule.has_point s.
Proof.
  induction s as [|c r IH]; [reflexivity|].
  cbn [Py.contains Rule.has_point String.prefix]. rewrite IH.
  destruct (Ascii.eqb_spec c ".") as [->|Hc].
  - destruct (ascii_dec "." "."); [|congruence]. destruct r; reflexivity.
  - destruct (ascii_dec "." c); [congruence|]. reflexivity.
Qed.

End TextLemmas.

(** ** White space *)

Section WhiteSpace.

Ltac bool_facts :=
  repeat match goal with
         | H : _ && _ = true |- _ => apply andb_true_iff in H as [? ?]
         | H : _ || _ = true |- _ => apply orb_true_iff in H as [?|?]
         | H : (_ <=? _)%N = true |- _ => apply N.leb_le in H
         | H : (_ =? _)%N = true |- _ => apply N.eqb_eq in H
         end.

Ltac not_visible :=
  unfold visible;
  match goal with
  | |- (33 <=? ?x)%N && (?x <=? 126)%N = false =>
      destruct (N.leb_spec 33 x); destruct (N.leb_spec x 126); try reflexivity;
      exfalso; bool_facts; lia
  end.

(** The bytes of the white-space character at the head of a text. *)
Lemma space_width_spec numeric s :
  match Py.space_width numeric s with
  | 0%nat => True
  | 1%nat => ∃ a r, s = String a r ∧ visible a = false
  | 2%nat => ∃ a b r, s = String a (String b r) ∧ visible a = false ∧ visible b = false
  | 3%nat => ∃ a b c r, s = String a (String b (String c r)) ∧
                        visible a = false ∧ visible b = false ∧ visible c = false
  | _ => False
  end.
Proof.
  destruct s as [|a r1]; [done|]. unfold Py.space_width.
  match goal with |- context [if ?c then 1%nat else _] => destruct c eqn:H1 end.
  { exists a, r1. split; [done|]. not_visible. }
  destruct r1 as [|b r2]; [done|].
  match goal with |- context [if ?c then 2%nat else _] => destruct c eqn:H2 end.
  { exists a, b, r2. split; [done|]. split; not_visible. }
  destruct r2 as [|c r3]; [done|].
  match goal with |- context [if ?c then 3%nat else _] => destruct c eqn:H3 end; [|done].
  exists a, b, c, r3. split; [done|]. repeat split; not_visible.
Qed.

Lemma space_width_visible numeric c r :
  visible c = true -> Py.space_width numeric (String c r) = 0%nat.
Proof.
  intros Hc. pose proof (space_width_spec numeric (String c r)) as H.
  destruct (Py.space_width numeric (String c r)) as [|[|[|[|n]]]]; [done| | | |done].
  - destruct H as (a & r' & [= <- _] & Ha). congruence.
  - destruct H as (a & b & r' & [= <- _] & Ha & _). congruence.
  - destruct H as (a & b & c' & r' & [= <- _] & Ha & _). congruence.
Qed.

Lemma has_visible_app s t : has_visible (s +:+ t) = has_visible s || has_visible t.
Proof.
  induction s as [|c r IH]; [done|].
  change (String c r +:+ t) with (String c (r +:+ t)). cbn. by rewrite IH, orb_assoc.
Qed.

(** Stripping on the left drops a prefix without a visible byte. *)
Lemma lstrip_by_split numeric s :
  ∃ pre, s = pre +:+ Py.lstrip_by numeric s ∧ has_visible pre = false.
Proof.
  assert (∀ n s, (String.length s <= n)%nat ->
            ∃ pre, s = pre +:+ Py.lstrip_by numeric s ∧ has_visible pre = false) as H.
  2: { by apply (H (String.length s)). }
  clear s. intros n. induction n as [|n IH]; intros s Hn.
  { destruct s; [by exists EmptyString|cbn in Hn; lia]. }
  destruct s as [|a r1]; [by exists EmptyString|].
  pose proof (space_width_spec numeric (String a r1)) as Hw.
  cbn [Py.lstrip_by].
  destruct (Py.space_width numeric (String a r1)) as [|[|[|[|k]]]]; [| | | |done].
  - by exists EmptyString.
  - destruct Hw as (a' & r' & [= <- <-] & Ha).
    destruct (IH r1) as (pre & Hpre & Hv); [cbn in Hn; lia|].
    exists (String a pre). split; [|by cbn; rewrite Ha, Hv].
    change (String a pre +:+ ?t) with (String a (pre +:+ t)). by rewrite <- Hpre.
  - destruct Hw as (a' & b & r2 & [= <- ->] & Ha & Hb).
    destruct (IH r2) as (pre & Hpre & Hv); [cbn in Hn; lia|].
    exists (String a (String b pre)). split; [|by cbn; rewrite Ha, Hb, Hv].
    change (String a (String b pre) +:+ ?t) with (String a (String b (pre +:+ t))).
    by rewrite <- Hpre.
  - destruct Hw as (a' & b & c & r3 & [= <- ->] & Ha & Hb & Hc).
    destruct (IH r3) as (pre & Hpre & Hv); [cbn in Hn; lia|].
    exists (String a (String b (String c pre))). split; [|by cbn; rewrite Ha, Hb, Hc, Hv].
    change (String a (String b (String c pre)) +:+ ?t)
      with (String a (String b (String c (pre +:+ t)))).
    by rewrite <- Hpre.
Qed.

(** Stripping on the right drops a suffix without a visible byte. *)
Lemma rstrip_by_split numeric s :
  ∃ post, s = Py.rstrip_by numeric s +:+ post ∧ has_visible post = false.
Proof.
  induction s as [|c r IH]; [by exists EmptyString|].
  cbn [Py.rstrip_by].
  destruct (lstrip_by_split numeric (String c r)) as (pre & Hpre & Hv).
  destruct (Py.lstrip_by numeric (String c r)) as [|c' r'] eqn:Hl.
  - exists (String c r). split; [done|]. rewrite Hpre.
    by rewrite has_visible_app, Hv.
  - destruct IH as (post & Hpost & Hvp). exists post. split; [|done].
    change (String c ?x +:+ post) with (String c (x +:+ post)). by rewrite <- Hpost.
Qed.

Lemma visible_lstrip_by numeric c r :
  visible c = true -> Py.lstrip_by numeric (String c r) = String c r.
Proof. intros Hc. cbn [Py.lstrip_by]. by rewrite space_width_visible. Qed.

Lemma all_visible_rstrip_by numeric s : all_visible s = true -> Py.rstrip_by numeric s = s.
Proof.
  induction s as [|c r IH]; [done|]. cbn [all_visible]. intros [Hc Hr]%andb_true_iff.
  cbn [Py.rstrip_by]. rewrite (visible_lstrip_by numeric c r Hc). by rewrite (IH Hr).
Qed.

(** A text of visible characters is left as it is. *)
Lemma all_visible_strip_by numeric s : all_visible s = true -> Py.strip_by numeric s = s.
Proof.
  intros Hs. unfold Py.strip_by.
  destruct s as [|c r]; [done|]. pose proof Hs as [Hc _]%andb_true_iff.
  rewrite (visible_lstrip_by numeric c r Hc). by apply all_visible_rstrip_by.
Qed.

End WhiteSpace.

(** ** Decimal digit strings *)

Section DigitLemmas.

Ltac by_ascii c := destruct c as [[] [] [] [] [] [] [] []]; try discriminate; try reflexivity.

Lemma digit_visible c : Py.is_digit c = true -> visible c = true.
Proof. by_ascii c. Qed.

Lemma all_digits_visible d : Py.all_digits d = true -> all_visible d = true.
Proof.
  induction d as [|c r IH]; [done|]. cbn. intros [Hc Hr]%andb_true_iff.
  by rewrite (digit_visible c Hc), (IH Hr).
Qed.

Lemma digit_upper c : Py.is_digit c = true -> Py.upper_char c = c.
Proof. by_ascii c. Qed.

Lemma digit_not_in c (other : ascii) :
  Py.is_digit c = true -> Py.is_digit other = false -> Ascii.eqb c other = false.
Proof.
  intros Hc Ho. destruct (Ascii.eqb_spec c other) as [->|]; [congruence|reflexivity].
Qed.

Lemma all_digits_strip_by numeric d :
  Py.all_digits d = true -> Py.strip_by numeric d = d.
Proof. intros H. by apply all_visible_strip_by, all_digits_visible. Qed.

Lemma all_digits_strip d : Py.all_digits d = true -> Py.strip d = d.
Proof. apply all_digits_strip_by. Qed.

Lemma all_digits_upper d : Py.all_digits d = true -> Py.upper d = d.
Proof.
  induction d as [|c r IH]; [reflexivity|]. cbn. intros [Hc Hr]%andb_true_iff.
  by rewrite (IH Hr), (digit_upper c Hc).
Qed.

(** A text that starts with a digit does not equal, and a digit string
    does not end with, a text made of one character that is not a digit. *)
Lemma all_digits_endswith d (x : ascii) :
  Py.all_digits d = true -> Py.is_digit x = false ->
  Py.endswith d (String x EmptyString) = false.
Proof.
  intros Hd Hx. induction d as [|c r IH]; [reflexivity|].
  cbn in Hd. apply andb_true_iff in Hd as [Hc Hr].
  cbn [Py.endswith String.eqb]. rewrite (digit_not_in c x Hc Hx), (IH Hr). reflexivity.
Qed.

Lemma all_digits_no_euro d :
  Py.all_digits d = true -> Py.replace_go "€" "" 0 d = d.
Proof.
  induction d as [|c r IH]; [reflexivity|]. cbn [Py.all_digits]. intros [Hc Hr]%andb_true_iff.
  cbn [Py.replace_go]. rewrite (IH Hr).
  assert (String.prefix "€" (String c r) = false) as ->; [|reflexivity].
  revert Hc. clear. by_ascii c.
Qed.

Lemma digits_go_all_digits d acc n :
  Py.all_digits d = true ->
  Py.digits_go acc n d = (Rule.decimal_value_from acc d, (n + String.length d)%nat, EmptyString).
Proof.
  revert acc n. induction d as [|c r IH]; intros acc n.
  - intros _. cbn. by rewrite Nat.add_0_r.
  - cbn [Py.all_digits]. intros [Hc Hr]%andb_true_iff.
    cbn [Py.digits_go Rule.decimal_value_from String.length]. rewrite Hc, (IH _ _ Hr).
    by rewrite Nat.add_succ_r.
Qed.

Lemma sign_digit c r : Py.is_digit c = true -> Py.sign (String c r) = (false, String c r).
Proof. revert r. by_ascii c. Qed.

Lemma int_isdigit d :
  Py.isdigit d = true -> Z.of_nat (String.length d) <= Py.int_max_str_digits ->
  Py.int d = Ret (Rule.decimal_value d).
Proof.
  destruct d as [|c r]; [discriminate|]. intros Hd Hlen. unfold Py.isdigit in Hd.
  unfold Py.int. rewrite (all_digits_strip_by true _ Hd).
  pose proof Hd as [Hc _]%andb_true_iff. rewrite (sign_digit c r Hc).
  rewrite (digits_go_all_digits _ 0 0 Hd). cbn [Nat.add String.length] in *.
  destruct (Z.ltb_spec Py.int_max_str_digits (Z.of_nat (S (String.length r)))); [lia|].
  reflexivity.
Qed.

(** A digit string with more than [int_max_str_digits] digits is refused. *)
Lemma int_too_long d :
  Py.isdigit d = true -> Py.int_max_str_digits < Z.of_nat (String.length d) ->
  Py.int d = Raise ValueError.
Proof.
  destruct d as [|c r]; [discriminate|]. intros Hd Hlen. unfold Py.isdigit in Hd.
  unfold Py.int. rewrite (all_digits_strip_by true _ Hd).
  pose proof Hd as [Hc _]%andb_true_iff. rewrite (sign_digit c r Hc).
  rewrite (digits_go_all_digits _ 0 0 Hd). cbn [Nat.add String.length] in *.
  destruct (Z.ltb_spec Py.int_max_str_digits (Z.of_nat (S (String.length r)))); [done|lia].
Qed.

End DigitLemmas.

(** ** C7: [parse_stat_value] *)

(** C7.  [parse_stat_value] strips one trailing percent sign if there is
    one, turns the decimal comma into a decimal point, then reads a float
    when a point is present and an integer otherwise; what cannot be read,
    the empty text included, gives [None].  In particular "87%" gives the
    integer 87, "1,5" the float 3/2, "23" the integer 23 and "" gives
    [None]. *)
Theorem parse_stat_value_rule :
  (∀ s : string, parse_stat_value (Some s) = Ret (Rule.stat_value s)) ∧
  parse_stat_value (Some "87%") = Ret (Some (PyInt 87)) ∧
  (∃ x, parse_stat_value (Some "1,5") = Ret (Some (PyFloat x)) ∧ Rule.float_is x 3 2) ∧
  parse_stat_value (Some "23") = Ret (Some (PyInt 23)) ∧
  parse_stat_value (Some "") = Ret None.
Proof.
  split; [|split; [|split; [|split]]].
  - intros s. unfold parse_stat_value, Rule.stat_value.
    cbn [as_str mbind result_bind].
    rewrite endswith_percent, replace_comma, contains_point.
    destruct (Rule.has_point _).
    + by destruct (Py.float _).
    + by destruct (Py.int _).
  - vm_compute. reflexivity.
  - eexists. split; [vm_compute; reflexivity|]. vm_compute. reflexivity.
  - vm_compute. reflexivity.
  - vm_compute. reflexivity.
Qed.

(** ** Running programs alone *)

Section RunLemmas.

Lemma run_cmd_bind {R S} (c : Cmd R) (f : R -> Cmd S) (s : Store) :
  run (cmd_bind c f) s = let '(s1, r) := run c s in run (f r) s1.
Proof.
  revert s. induction c as [r|k IH|k IH|A op k IH]; intros s; cbn.
  - reflexivity.
  - apply IH.
  - apply IH.
  - destruct (db_exec op s) as [s1 a]. apply IH.
Qed.

Lemma run_mbind {A B} (m : M A) (f : A -> M B) (s : Store) :
  run (m ≫= f) s =
  match run m s with
  | (s1, Ret a) => run (f a) s1
  | (s1, Raise e) => (s1, Raise e)
  end.
Proof.
  unfold mbind, M_bind. rewrite run_cmd_bind.
  destruct (run m s) as [s1 [a|e]]; reflexivity.
Qed.

Lemma run_try_catch {A} catches (body : M A) handler (s : Store) :
  run (try_catch catches body handler) s =
  match run body s with
  | (s1, Ret a) => (s1, Ret a)
  | (s1, Raise e) => if catches e then run (handler e) s1 else (s1, Raise e)
  end.
Proof.
  unfold try_catch. rewrite run_cmd_bind.
  destruct (run body s) as [s1 [a|e]]; [reflexivity|]. cbn [handle]. by destruct (catches e).
Qed.

Lemma run_with_lock {A} (body : M A) (s : Store) :
  run (with_lock body) s = run body s.
Proof.
  unfold with_lock. cbn [run]. rewrite run_cmd_bind. by destruct (run body s).
Qed.

Lemma run_lift {A} (r : result A) (s : Store) : run (lift r) s = (s, r).
Proof. reflexivity. Qed.

End RunLemmas.

(** Pushes [run] through the monadic structure of a program. *)
Ltac run_simpl :=
  repeat first
    [ rewrite run_mbind | rewrite run_try_catch | rewrite run_with_lock
    | rewrite run_lift | progress cbn beta iota ].

(** ** C3: a club that is not in the store *)

(** When the club lookup finds no row, the player task reports failure and
    leaves the store as it was. *)
Lemma club_miss_fails (driver : Driver) (player_link : string) (s : Store) page bio :
  player_page driver player_link = Some page ->
  extract_bio page player_link = Ret bio ->
  filter (fun c => bool_decide (club_name c = bio_club_name bio)) (clubs s) = [] ->
  run (scrape_player_with_driver driver player_link) s = (s, Ret false).
Proof.
  intros Hpage Hbio Hclub. unfold scrape_player_with_driver, driver_get.
  rewrite Hpage. run_simpl. rewrite Hbio. run_simpl.
  unfold upsert_player, upsert_player_body, objects_get. run_simpl.
  cbn [db run db_exec]. rewrite Hclub. reflexivity.
Qed.

(** C3.  On the sample site, the profile of player 101 names the club
    "Real Madrid".  Run on a store that holds no club: the page is read
    without error and the club lookup finds nothing, yet the task returns
    [False] and no [Player] row is written, where the claim has the player
    upserted with a null club. *)
Theorem club_lookup_miss_fails_the_task :
  (∃ bio, extract_bio (Sample.profile Sample.season_stats) (Sample.player_url "101") = Ret bio ∧
          bio_club_name bio = "Real Madrid" ∧
          fst (run (objects_get (ClubSelectByName (bio_club_name bio))) empty_store) = empty_store ∧
          snd (run (objects_get (ClubSelectByName (bio_club_name bio))) empty_store)
            = Raise DoesNotExist) ∧
  run (scrape_player_with_driver Sample.web (Sample.player_url "101")) empty_store
    = (empty_store, Ret false) ∧
  players (fst (run (scrape_single_player Sample.web (Sample.player_url "101")) empty_store)) = [].
Proof.
  split; [|split].
  - eexists. split; [vm_compute; reflexivity|]. repeat split.
  - vm_compute. reflexivity.
  - vm_compute. reflexivity.
Qed.

(** ** C4: the league stage *)

Section SquadLinks.

Variable driver : Driver.

Lemma squad_link_step_ret league_title link acc s s' l :
  run (squad_link_step league_title link acc) s = (s', Ret l) ->
  l = acc ++ option_list (team_link_of link).
Proof.
  unfold squad_link_step, team_link_of.
  destruct (href link) as [h|]; cbn [run mret M_ret].
  2: { intros [= _ <-]. cbn. by rewrite app_nil_r. }
  destruct (bool_decide (h ≠ EmptyString) && Py.startswith h _); cbn [run mret M_ret].
  2: { intros [= _ <-]. cbn. by rewrite app_nil_r. }
  run_simpl. destruct (try_except _ _) as [team_name|e]; run_simpl; [|discriminate].
  destruct (run (get_or_create _ _) s) as [s1 [[league created]|e]]; run_simpl; [|discriminate].
  destruct (run (get_or_create _ _) s1) as [s2 [?|e]]; run_simpl; [|discriminate].
  cbn. by intros [= _ <-].
Qed.

Lemma squad_links_loop_ret league_title links acc s s' l :
  run (squad_links_loop league_title links acc) s = (s', Ret l) ->
  l = acc ++ omap team_link_of links.
Proof.
  revert acc s. induction links as [|link rest IH]; intros acc s; cbn [squad_links_loop].
  - cbn. intros [= _ <-]. by rewrite app_nil_r.
  - run_simpl.
    destruct (run (squad_link_step _ _ _) s) as [s1 [acc1|e]] eqn:Hstep; [|discriminate].
    apply squad_link_step_ret in Hstep as ->. intros ->%IH.
    rewrite <- app_assoc. f_equal. cbn. by destruct (team_link_of link).
Qed.

Lemma squad_url_step_fails url acc s :
  url_fails driver url = true ->
  ∃ e, run (squad_url_step driver url acc) s = (s, Raise e).
Proof.
  unfold url_fails, squad_url_step, driver_get.
  destruct (league_page driver url) as [page|]; [|by eexists].
  run_simpl. destruct (table_container page) as [links|]; cbn; [|by eexists].
  destruct (league_title_element page); cbn; [discriminate|by eexists].
Qed.

Lemma squad_url_step_ret url acc s s' l :
  run (squad_url_step driver url acc) s = (s', Ret l) ->
  l = acc ++ page_team_links driver url ∧ url_fails driver url = false.
Proof.
  destruct (url_fails driver url) eqn:Hf.
  { destruct (squad_url_step_fails url acc s Hf) as [e ->]. discriminate. }
  intros H. split; [|done]. revert H.
  unfold url_fails, squad_url_step, page_team_links, driver_get in *.
  destruct (league_page driver url) as [page|]; [|discriminate].
  run_simpl. destruct (wait_presence _); run_simpl; [|discriminate].
  destruct (find_element _); run_simpl; [|discriminate].
  apply squad_links_loop_ret.
Qed.

Lemma squad_urls_loop_app before rest acc s :
  run (squad_urls_loop driver (before ++ rest) acc) s =
  match run (squad_urls_loop driver before acc) s with
  | (s1, Ret acc1) => run (squad_urls_loop driver rest acc1) s1
  | (s1, Raise e) => (s1, Raise e)
  end.
Proof.
  revert acc s. induction before as [|url before IH]; intros acc s; [reflexivity|].
  cbn [app squad_urls_loop]. run_simpl.
  destruct (run (squad_url_step driver url acc) s) as [s1 [acc1|e]]; [apply IH|reflexivity].
Qed.

Lemma squad_urls_loop_ret urls acc s s' l :
  run (squad_urls_loop driver urls acc) s = (s', Ret l) ->
  l = acc ++ concat (page_team_links driver <$> urls) ∧
  Forall (fun url => url_fails driver url = false) urls.
Proof.
  revert acc s. induction urls as [|url rest IH]; intros acc s; cbn [squad_urls_loop].
  - cbn. intros [= _ <-]. by rewrite app_nil_r.
  - run_simpl.
    destruct (run (squad_url_step driver url acc) s) as [s1 [acc1|e]] eqn:Hstep; [|discriminate].
    apply squad_url_step_ret in Hstep as [-> Hok]. intros [-> Hrest]%IH.
    split; [|by constructor]. cbn. by rewrite <- app_assoc.
Qed.

Lemma get_squad_links_run urls s :
  run (get_squad_links driver urls) s =
  match run (squad_urls_loop driver urls []) s with
  | (s1, Ret all_team_links) => (s1, all_team_links)
  | (s1, Raise _) => (s1, [])
  end.
Proof.
  unfold get_squad_links. rewrite run_cmd_bind.
  by destruct (run (squad_urls_loop driver urls []) s) as [s1 [?|?]].
Qed.

End SquadLinks.

(** *** When stage 1 succeeds *)

Section SquadLinksClean.

Variable driver : Driver.

Lemma filter_none {A} (P : A -> Prop) `{∀ x, Decision (P x)} (l : list A) :
  (∀ x, ¬ P x) -> filter P l = [].
Proof.
  intros HP. induction l as [|x l IH]; [done|]. by rewrite filter_cons_False.
Qed.

Lemma no_duplicates_frame s s' :
  leagues s' = leagues s -> clubs s' = clubs s -> no_duplicates s -> no_duplicates s'.
Proof. unfold no_duplicates, leagues_named, clubs_in. by intros -> ->. Qed.

Lemma run_league_get_or_create t s :
  no_duplicates s ->
  ∃ s1 league created,
    run (get_or_create (LeagueSelect (Some t)) (LeagueInsert (Some t))) s
      = (s1, Ret (league, created)) ∧
    no_duplicates s1 ∧ players s1 = players s ∧ datas s1 = datas s.
Proof.
  intros [Hl Hc]. unfold get_or_create. run_simpl. cbn [db run db_exec].
  specialize (Hl t) as Hlt. unfold leagues_named in Hlt.
  destruct (filter _ (leagues s)) as [|row [|row' rest]] eqn:Hsel; cbn [and_then run].
  - cbn [db_try run db_exec and_then mret M_ret].
    eexists _, _, true. split; [reflexivity|]. split; [|done]. split; [|exact Hc].
    intros n. unfold leagues_named. cbn [leagues set_leagues]. rewrite filter_app, length_app.
    destruct (decide (n = t)) as [->|Hn].
    + rewrite Hsel. cbn. destruct (decide _); cbn; lia.
    + rewrite filter_cons_False, filter_nil.
      * specialize (Hl n). unfold leagues_named in Hl. cbn. lia.
      * cbn. unfold name_is. intros ?%bool_decide_unpack. congruence.
  - eexists s, row, false. done.
  - cbn in Hlt. lia.
Qed.

Lemma run_club_get_or_create n lg s :
  no_duplicates s ->
  ∃ s1 club created,
    run (get_or_create (ClubSelect (Some n) lg) (ClubInsert (Some n) lg)) s
      = (s1, Ret (club, created)) ∧
    no_duplicates s1 ∧ players s1 = players s ∧ datas s1 = datas s.
Proof.
  intros [Hl Hc]. unfold get_or_create. run_simpl. cbn [db run db_exec].
  specialize (Hc n lg) as Hcn. unfold clubs_in in Hcn.
  destruct (filter _ (clubs s)) as [|row [|row' rest]] eqn:Hsel; cbn [and_then run].
  - cbn [db_try run db_exec and_then mret M_ret].
    eexists _, _, true. split; [reflexivity|]. split; [|done]. split; [exact Hl|].
    intros n' lg'. unfold clubs_in. cbn [clubs set_clubs]. rewrite filter_app, length_app.
    destruct (decide (n' = n ∧ lg' = lg)) as [[-> ->]|Hn].
    + rewrite Hsel. cbn. destruct (decide _); cbn; lia.
    + rewrite filter_cons_False, filter_nil.
      * specialize (Hc n' lg'). unfold clubs_in in Hc. cbn. lia.
      * cbn. unfold name_is. intros [?%bool_decide_unpack ?%bool_decide_unpack]%andb_prop_elim.
        apply Hn. split; congruence.
  - eexists s, row, false. done.
  - cbn in Hcn. lia.
Qed.

Lemma squad_link_step_clean league_title link acc s :
  no_duplicates s -> anchor_clean league_title link = true ->
  ∃ s1, run (squad_link_step league_title link acc) s
          = (s1, Ret (acc ++ option_list (team_link_of link))) ∧
        no_duplicates s1 ∧ players s1 = players s ∧ datas s1 = datas s.
Proof.
  intros Hnd. unfold anchor_clean, squad_link_step, team_link_of, team_name_of.
  destruct (href link) as [h|]; cbn [run mret M_ret option_list].
  2: { intros _. exists s. by rewrite app_nil_r. }
  destruct (bool_decide (h ≠ EmptyString) && Py.startswith h _); cbn [run mret M_ret option_list].
  2: { intros _. exists s. by rewrite app_nil_r. }
  intros [Ht Hname]%andb_true_iff.
  apply bool_decide_eq_true in Ht as [t ->]. apply bool_decide_eq_true in Hname.
  assert (∃ n, try_except (get_text_or_none <$> find_element (team_name_element link))
                          (fun _ => Ret (Some "Unknown Team")) = Ret (Some n)) as [n Hn].
  { destruct (team_name_element link) as [el|]; cbn in *; [|by eexists].
    destruct Hname as [n ->]. by eexists. }
  run_simpl. rewrite Hn. run_simpl.
  destruct (run_league_get_or_create t s Hnd) as (s1 & league & created & -> & Hnd1 & Hp1 & Hd1).
  run_simpl.
  destruct (run_club_get_or_create n (league_id league) s1 Hnd1)
    as (s2 & club & created' & -> & Hnd2 & Hp2 & Hd2).
  run_simpl. exists s2. split; [reflexivity|]. split; [done|]. split; congruence.
Qed.

Lemma squad_links_loop_clean league_title links acc s :
  no_duplicates s -> forallb (anchor_clean league_title) links = true ->
  ∃ s1, run (squad_links_loop league_title links acc) s
          = (s1, Ret (acc ++ omap team_link_of links)) ∧
        no_duplicates s1 ∧ players s1 = players s ∧ datas s1 = datas s.
Proof.
  revert acc s. induction links as [|link rest IH]; intros acc s Hnd; cbn [squad_links_loop forallb].
  - intros _. exists s. cbn. by rewrite app_nil_r.
  - intros [Hlink Hrest]%andb_true_iff. run_simpl.
    destruct (squad_link_step_clean league_title link acc s Hnd Hlink)
      as (s1 & -> & Hnd1 & Hp1 & Hd1).
    destruct (IH (acc ++ option_list (team_link_of link)) s1 Hnd1 Hrest)
      as (s2 & -> & Hnd2 & Hp2 & Hd2).
    exists s2. split; [|split; [done|split; congruence]].
    f_equal. f_equal. rewrite <- app_assoc. f_equal. cbn. by destruct (team_link_of link).
Qed.

Lemma squad_url_step_clean url acc s :
  no_duplicates s -> url_clean driver url = true ->
  ∃ s1, run (squad_url_step driver url acc) s = (s1, Ret (acc ++ page_team_links driver url)) ∧
        no_duplicates s1 ∧ players s1 = players s ∧ datas s1 = datas s.
Proof.
  intros Hnd. unfold url_clean, squad_url_step, page_team_links, driver_get.
  destruct (league_page driver url) as [page|]; [|discriminate].
  destruct (table_container page) as [links|] eqn:Hlinks; [|discriminate].
  destruct (league_title_element page) as [title|] eqn:Htitle; [|discriminate].
  intros Hclean. run_simpl. rewrite Hlinks, Htitle. cbn [wait_presence find_element default].
  rewrite bool_decide_eq_true_2 by eauto. run_simpl.
  by apply squad_links_loop_clean.
Qed.

Lemma squad_urls_loop_clean urls acc s :
  no_duplicates s -> Forall (fun url => url_clean driver url = true) urls ->
  ∃ s1, run (squad_urls_loop driver urls acc) s
          = (s1, Ret (acc ++ concat (page_team_links driver <$> urls))) ∧
        no_duplicates s1 ∧ players s1 = players s ∧ datas s1 = datas s.
Proof.
  intros Hnd Hall. revert acc s Hnd.
  induction Hall as [|url rest Hurl _ IH]; intros acc s Hnd; cbn [squad_urls_loop].
  - exists s. cbn. by rewrite app_nil_r.
  - run_simpl.
    destruct (squad_url_step_clean url acc s Hnd Hurl) as (s1 & -> & Hnd1 & Hp1 & Hd1).
    destruct (IH (acc ++ page_team_links driver url) s1 Hnd1) as (s2 & -> & Hnd2 & Hp2 & Hd2).
    exists s2. split; [|split; [done|split; congruence]].
    cbn. by rewrite <- app_assoc.
Qed.

(** *** When it raises *)

Lemma squad_link_step_raises league_title link acc s :
  anchor_clean league_title link = false ->
  ∃ s1 e, run (squad_link_step league_title link acc) s = (s1, Raise e).
Proof.
  unfold anchor_clean, squad_link_step, team_link_of, team_name_of.
  destruct (href link) as [h|]; [|discriminate].
  destruct (bool_decide (h ≠ EmptyString) && Py.startswith h _); [|discriminate].
  intros Hbad. run_simpl.
  destruct (try_except _ _) as [team_name|e] eqn:Hname; run_simpl; [|by eexists _, _].
  destruct league_title as [t|].
  - (* the team name is unreadable *)
    assert (team_name = None) as ->.
    { destruct team_name as [n|]; [exfalso|done].
      assert (is_Some match team_name_element link with
                      | Some el => get_text_or_none el
                      | None => Some "Unknown Team"
                      end) as Hs.
      { destruct (team_name_element link) as [el|]; cbn in Hname; [|by eexists].
        injection Hname as ->. by eexists. }
      rewrite (bool_decide_eq_true_2 _ Hs) in Hbad.
      rewrite bool_decide_eq_true_2 in Hbad by (by eexists). discriminate. }
    destruct (run (get_or_create _ _) s) as [s1 [[league created]|e]]; run_simpl; [|by eexists _, _].
    unfold get_or_create. run_simpl. cbn [db run db_exec].
    rewrite filter_none by (by intros c ?).
    cbn. by eexists _, _.
  - (* the league title is unreadable *)
    unfold get_or_create at 1. run_simpl. cbn [db run db_exec].
    rewrite filter_none by (by intros c ?).
    cbn. by eexists _, _.
Qed.

Lemma squad_links_loop_raises league_title links acc s :
  forallb (anchor_clean league_title) links = false ->
  ∃ s1 e, run (squad_links_loop league_title links acc) s = (s1, Raise e).
Proof.
  revert acc s. induction links as [|link rest IH]; intros acc s; [discriminate|].
  cbn [squad_links_loop forallb]. intros Hbad. run_simpl.
  destruct (anchor_clean league_title link) eqn:Hlink.
  - destruct (run (squad_link_step _ _ _) s) as [s1 [acc1|e]]; [|by eexists _, _].
    by apply IH.
  - destruct (squad_link_step_raises league_title link acc s Hlink) as (s1 & e & ->).
    by eexists _, _.
Qed.

Lemma squad_url_step_raises url acc s :
  url_clean driver url = false ->
  ∃ s1 e, run (squad_url_step driver url acc) s = (s1, Raise e).
Proof.
  unfold url_clean, squad_url_step, driver_get.
  destruct (league_page driver url) as [page|]; [|by eexists _, _].
  run_simpl. destruct (table_container page) as [links|] eqn:Hlinks; cbn; [|by eexists _, _].
  destruct (league_title_element page) as [title|] eqn:Htitle; cbn; [|by eexists _, _].
  apply squad_links_loop_raises.
Qed.

Lemma squad_urls_loop_raises urls url acc s :
  url ∈ urls -> url_clean driver url = false ->
  ∃ s1 e, run (squad_urls_loop driver urls acc) s = (s1, Raise e).
Proof.
  intros Hin Hbad. revert acc s.
  induction Hin as [url rest|url other rest _ IH]; intros acc s; cbn [squad_urls_loop]; run_simpl.
  - destruct (squad_url_step_raises url acc s Hbad) as (s1 & e & ->). by eexists _, _.
  - destruct (run (squad_url_step driver other acc) s) as [s1 [acc1|e]]; [|by eexists _, _].
    by apply IH.
Qed.

End SquadLinksClean.

(** C4, as the code has it.  One [try] encloses the whole loop over the
    league URLs.  Call a URL clean when its page loads with its table
    container and its title element and the texts stage 1 stores, the
    title and the team names, are readable.
    - When a URL is not clean the function returns the empty list: the
      links collected before are dropped.
    - The URLs after it are not processed: the outcome and the store are
      those of the run that stops at that URL.
    - When every URL is clean and the store has no two leagues of one name
      and no two clubs of one name and league, the function returns the
      squad links of every page, in order; the store still has no
      duplicate, and the [Player] and [Data] tables are as they were.
    - So the outcome is never a part of the links: it is the empty list or
      the links of all pages. *)
Theorem get_squad_links_all_or_nothing (driver : Driver) (s : Store) :
  (∀ urls url,
     url ∈ urls -> url_clean driver url = false ->
     snd (run (get_squad_links driver urls) s) = []) ∧
  (∀ before url after,
     url_clean driver url = false ->
     run (get_squad_links driver (before ++ url :: after)) s
       = run (get_squad_links driver (before ++ [url])) s) ∧
  (no_duplicates s ->
   ∀ urls, Forall (fun url => url_clean driver url = true) urls ->
     snd (run (get_squad_links driver urls) s) = concat (page_team_links driver <$> urls) ∧
     no_duplicates (fst (run (get_squad_links driver urls) s)) ∧
     players (fst (run (get_squad_links driver urls) s)) = players s ∧
     datas (fst (run (get_squad_links driver urls) s)) = datas s) ∧
  (∀ urls,
     snd (run (get_squad_links driver urls) s) = [] ∨
     snd (run (get_squad_links driver urls) s) = concat (page_team_links driver <$> urls)).
Proof.
  split; [|split; [|split]].
  - intros urls url Hin Hbad. rewrite get_squad_links_run.
    by destruct (squad_urls_loop_raises driver urls url [] s Hin Hbad) as (s1 & e & ->).
  - intros before url after Hbad. rewrite !get_squad_links_run, !squad_urls_loop_app.
    destruct (run (squad_urls_loop driver before []) s) as [s1 [acc1|e]]; [|reflexivity].
    cbn [squad_urls_loop]. run_simpl.
    destruct (squad_url_step_raises driver url acc1 s1 Hbad) as (s2 & e & ->). reflexivity.
  - intros Hnd urls Hclean. rewrite get_squad_links_run.
    by destruct (squad_urls_loop_clean driver urls [] s Hnd Hclean) as (s1 & -> & ? & ? & ?).
  - intros urls. rewrite get_squad_links_run.
    destruct (run (squad_urls_loop driver urls []) s) as [s1 [l|e]] eqn:Hrun; [|by left].
    right. by apply squad_urls_loop_ret in Hrun as [-> _].
Qed.

Lemma get_squad_links_all_or_nothing_witness :
  snd (run (get_squad_links Sample.web [Sample.laliga_url; Sample.laliga_url]) empty_store)
    = [ "https://www.fotmob.com/teams/8633/squad/real-madrid";
        "https://www.fotmob.com/teams/8634/squad/barcelona";
        "https://www.fotmob.com/teams/8633/squad/real-madrid";
        "https://www.fotmob.com/teams/8634/squad/barcelona" ] ∧
  no_duplicates Sample.after_leagues ∧
  snd (run (get_squad_links Sample.web [Sample.laliga_url; Sample.ligue1_url]) empty_store) = [] ∧
  snd (run (get_squad_links Sample.web_untitled [Sample.laliga_url; Sample.untitled_url])
           empty_store) = [] ∧
  run (get_squad_links Sample.web ([Sample.laliga_url] ++ Sample.ligue1_url :: [Sample.laliga_url]))
      empty_store
    = run (get_squad_links Sample.web ([Sample.laliga_url] ++ [Sample.ligue1_url])) empty_store.
Proof.
  assert (no_duplicates empty_store) as Hempty by (split; intros; cbn; lia).
  destruct (get_squad_links_all_or_nothing Sample.web empty_store)
    as (Hfail & Hstop & Hclean & _).
  split; [|split; [|split; [|split]]].
  - apply (Hclean Hempty [Sample.laliga_url; Sample.laliga_url]).
    repeat constructor.
  - apply (Hclean Hempty [Sample.laliga_url]). repeat constructor.
  - apply (Hfail [Sample.laliga_url; Sample.ligue1_url] Sample.ligue1_url).
    + apply list_elem_of_further, list_elem_of_here.
    + reflexivity.
  - apply (proj1 (get_squad_links_all_or_nothing Sample.web_untitled empty_store)
             [Sample.laliga_url; Sample.untitled_url] Sample.untitled_url).
    + apply list_elem_of_further, list_elem_of_here.
    + reflexivity.
  - apply Hstop. reflexivity.
Defined.

(** C4 as stated fails on the sample site: LaLiga is processed and yields
    two squad links; with a second URL that does not load, the function
    returns the empty list instead of those two links; and with the
    failing URL first, the LaLiga page is never processed (no row is
    written). *)
Lemma get_squad_links_discards_collected_links :
  snd (run (get_squad_links Sample.web [Sample.laliga_url]) empty_store)
    = [ "https://www.fotmob.com/teams/8633/squad/real-madrid";
        "https://www.fotmob.com/teams/8634/squad/barcelona" ] ∧
  snd (run (get_squad_links Sample.web [Sample.laliga_url; Sample.ligue1_url]) empty_store) = [] ∧
  run (get_squad_links Sample.web [Sample.ligue1_url; Sample.laliga_url]) empty_store
    = (empty_store, []).
Proof. split; [|split]; vm_compute; reflexivity. Qed.

(** ** C8: fan-in of the team stage *)

Section TeamFanIn.

Lemma collect_player_links_concat done acc :
  collect_player_links done acc = acc ++ concat (links_of <$> done).
Proof.
  revert acc. induction done as [|[l|e] rest IH]; intros acc; cbn.
  - by rewrite app_nil_r.
  - by rewrite IH, app_assoc.
  - apply IH.
Qed.

Lemma omap_lookup_seq {A} (pre l : list A) :
  omap (fun i => (pre ++ l) !! i) (seq (length pre) (length l)) = l.
Proof.
  revert pre. induction l as [|x l IH]; intros pre; [reflexivity|].
  cbn. rewrite list_lookup_middle by done. f_equal.
  specialize (IH (pre ++ [x])). rewrite <- app_assoc, length_app in IH. cbn in IH.
  by rewrite Nat.add_1_r in IH.
Qed.

Lemma length_concat_sum {A} (ls : list (list A)) :
  length (concat ls) = sum_list (length <$> ls).
Proof. induction ls as [|l ls IH]; [reflexivity|]. cbn. by rewrite length_app, IH. Qed.

Lemma sum_list_perm (l1 l2 : list nat) : l1 ≡ₚ l2 -> sum_list l1 = sum_list l2.
Proof. induction 1; cbn; lia. Qed.

End TeamFanIn.

(** C8.  Whatever the pool size (at least one worker) and whatever the
    order in which the team tasks complete, the aggregate returned by
    [get_player_links_multithreaded] is the concatenation of the tasks'
    result lists in completion order, a failed task contributing nothing;
    its length is the sum over the teams of the number of player links each
    task found. *)
Theorem team_fan_in_complete (web : Driver) (team_links : list string)
    (max_workers : Z) (completion : list nat) :
  1 <= max_workers ->
  completion ≡ₚ seq 0 (length team_links) ->
  ∃ all_player_links,
    get_player_links_multithreaded web team_links max_workers completion
      = Ret all_player_links ∧
    all_player_links
      = concat ((fun i => default [] (team_task_links web <$> team_links !! i)) <$> completion) ∧
    length all_player_links = sum_list (length ∘ team_task_links web <$> team_links).
Proof.
  intros Hw Hperm. unfold get_player_links_multithreaded.
  destruct (Z.leb_spec max_workers 0) as [?|_]; [lia|].
  eexists. split; [reflexivity|]. rewrite collect_player_links_concat. cbn [app].
  assert (∀ i, i ∈ completion -> i < length team_links)%nat as Hbound.
  { intros i Hi. rewrite Hperm in Hi. apply elem_of_seq in Hi. lia. }
  split.
  - f_equal. clear Hperm. induction completion as [|i rest IH]; [reflexivity|].
    destruct (lookup_lt_is_Some_2 team_links i) as [t Ht].
    { apply Hbound. left. }
    cbn. rewrite list_lookup_fmap, Ht. cbn. f_equal.
    apply IH. intros j Hj. apply Hbound. by right.
  - rewrite length_concat_sum.
    transitivity (sum_list (length <$> (links_of <$> (scrape_team_players web <$> team_links)))).
    + apply sum_list_perm. do 2 apply fmap_Permutation.
      rewrite Hperm.
      pose proof (omap_lookup_seq [] (scrape_team_players web <$> team_links)) as H.
      cbn in H. rewrite length_fmap in H. by rewrite H.
    + by rewrite <- !list_fmap_compose.
Qed.

Lemma team_fan_in_complete_witness :
  ∃ all_player_links,
    get_player_links_multithreaded Sample.web Sample.squad_urls 2 [2; 0; 1]%nat
      = Ret all_player_links ∧
    all_player_links
      = concat ((fun i => default []
                   (team_task_links Sample.web <$> Sample.squad_urls !! i)) <$> [2; 0; 1]%nat) ∧
    length all_player_links
      = sum_list (length ∘ team_task_links Sample.web <$> Sample.squad_urls).
Proof.
  apply (team_fan_in_complete Sample.web Sample.squad_urls 2 [2; 0; 1]%nat).
  - lia.
  - cbn. apply Permutation_cons_append.
Defined.

(** ** C10: labels listed twice in [data_match_dict] *)

Section SharedLabels.

Lemma title_is_decide title label : title_is title label = bool_decide (title = Some label).
Proof.
  destruct title as [t|]; cbn; [|done].
  destruct (String.eqb_spec t label) as [->|Hne].
  - by rewrite bool_decide_eq_true_2.
  - rewrite bool_decide_eq_false_2; [done|congruence].
Qed.

Lemma match_labels_lookup dict title value sd sd' :
  match_labels dict title value sd = Ret sd' ->
  ∀ key,
    if labelled dict title key
    then ∃ v, parse_stat_value value = Ret v ∧ sd' !! key = Some v
    else sd' !! key = sd !! key.
Proof.
  revert sd. induction dict as [|[k label] rest IH]; intros sd; cbn [match_labels labelled existsb].
  - by intros [= <-] key.
  - rewrite title_is_decide. destruct (bool_decide (title = Some label)) eqn:Ht.
    + destruct (parse_stat_value value) as [v|e] eqn:Hv; [|discriminate].
      cbn [mbind result_bind]. intros H key. specialize (IH _ H key).
      fold (labelled rest title key). rewrite andb_true_r.
      destruct (labelled rest title key); [by rewrite orb_true_r|].
      rewrite orb_false_r, IH. destruct (String.eqb_spec k key) as [->|Hk].
      * rewrite lookup_insert_eq. eauto.
      * by rewrite lookup_insert_ne.
    + intros H key. specialize (IH _ H key).
      fold (labelled rest title key). by rewrite andb_false_r.
Qed.

Lemma shared_labels_labelled a g label title :
  (a, g, label) ∈ shared_labels ->
  labelled data_match_dict title a = bool_decide (title = Some label) ∧
  labelled data_match_dict title g = bool_decide (title = Some label).
Proof.
  unfold shared_labels. rewrite !elem_of_cons, elem_of_nil.
  intros [[= -> -> ->]|[[= -> -> ->]|[[= -> -> ->]|[]]]];
    split; rewrite <- title_is_decide; cbn; by rewrite ?orb_false_r.
Qed.

Lemma stat_item_step_inv item sd sd' :
  stat_item_step item sd = Ret sd' ->
  ∃ t v, stat_title item = Some t ∧ stat_value item = Some v ∧
         match_labels data_match_dict (get_text_or_none t) (get_text_or_none v) sd = Ret sd'.
Proof.
  unfold stat_item_step. generalize data_match_dict. intros dict.
  destruct (stat_title item) as [t|]; [|discriminate].
  destruct (stat_value item) as [v|]; [|discriminate].
  cbn. eauto.
Qed.

Lemma stat_item_step_pairs item sd sd' a g label :
  (a, g, label) ∈ shared_labels ->
  stat_item_step item sd = Ret sd' ->
  sd !! a = sd !! g -> sd' !! a = sd' !! g.
Proof.
  intros Hin (t & v & _ & _ & Hstep)%stat_item_step_inv Heq.
  pose proof (match_labels_lookup _ _ _ _ _ Hstep a) as Ha.
  pose proof (match_labels_lookup _ _ _ _ _ Hstep g) as Hg.
  destruct (shared_labels_labelled a g label (get_text_or_none t) Hin) as [Ea Eg].
  rewrite Ea in Ha. rewrite Eg in Hg.
  destruct (bool_decide _).
  - destruct Ha as (x & Hx & ->), Hg as (y & Hy & ->). congruence.
  - congruence.
Qed.

Lemma stat_items_loop_pairs items sd sd' a g label :
  (a, g, label) ∈ shared_labels ->
  stat_items_loop items sd = Ret sd' ->
  sd !! a = sd !! g -> sd' !! a = sd' !! g.
Proof.
  intros Hin. revert sd. induction items as [|item rest IH]; intros sd; cbn [stat_items_loop].
  - by intros [= <-].
  - destruct (stat_item_step item sd) as [sd1|] eqn:Hstep; [|discriminate].
    cbn [mbind result_bind]. intros Hrest Heq. apply (IH _ Hrest).
    by eapply stat_item_step_pairs.
Qed.

End SharedLabels.

(** C10.  "Pass accuracy", "Accurate long balls" and "Long ball accuracy"
    each label two keys of [data_match_dict], an outfield one and its
    [gk_] counterpart.
    - One stat item bearing such a label assigns the same parsed value to
      both keys.
    - In the [stats_data] a run collects, the two keys of a pair are both
      absent or both present with the same value; the [Data] row written
      from it then holds the same value in both columns. *)
Theorem shared_label_fields_move_together (a g label : string) :
  (a, g, label) ∈ shared_labels ->
  (∀ item title_element value_element stats_data stats_data',
     stat_title item = Some title_element ->
     stat_value item = Some value_element ->
     get_text_or_none title_element = Some label ->
     stat_item_step item stats_data = Ret stats_data' ->
     ∃ v, parse_stat_value (get_text_or_none value_element) = Ret v ∧
          stats_data' !! a = Some v ∧ stats_data' !! g = Some v) ∧
  (∀ page stats_data,
     collect_stats page = Ret stats_data ->
     stats_data !! a = stats_data !! g ∧
     ∀ v old, stats_data !! a = Some v ->
       set_defaults stats_data old !! a = v ∧ set_defaults stats_data old !! g = v).
Proof.
  intros Hin. split.
  - intros item t v sd sd' Ht Hv Hlabel (t' & v' & Ht' & Hv' & Hstep)%stat_item_step_inv.
    rewrite Ht in Ht'. rewrite Hv in Hv'. injection Ht' as <-. injection Hv' as <-.
    pose proof (match_labels_lookup _ _ _ _ _ Hstep a) as Ha.
    pose proof (match_labels_lookup _ _ _ _ _ Hstep g) as Hg.
    destruct (shared_labels_labelled a g label (get_text_or_none t) Hin) as [Ea Eg].
    rewrite Ea, Hlabel, bool_decide_eq_true_2 in Ha by done.
    rewrite Eg, Hlabel, bool_decide_eq_true_2 in Hg by done.
    destruct Ha as (x & Hx & ->), Hg as (y & Hy & ->).
    exists x. split; [done|]. split; [done|]. congruence.
  - intros page sd Hcollect. unfold collect_stats in Hcollect.
    destruct (wait_presence _); [|discriminate]. cbn [mbind result_bind] in Hcollect.
    assert (sd !! a = sd !! g) as Heq.
    { eapply stat_items_loop_pairs; [done..|]. by rewrite !lookup_empty. }
    split; [done|]. intros v old Ha. unfold set_defaults.
    rewrite !lookup_merge, <- Heq, Ha. cbn. by destruct (old !! a), (old !! g).
Qed.

Lemma shared_label_fields_move_together_witness :
  let written : gmap string (option pynum) :=
    <["gk_pass_accuracy" := Some (PyFloat (Py.float_of_decimal false 901 (-1)))]>
      (<["pass_accuracy" := Some (PyFloat (Py.float_of_decimal false 901 (-1)))]> ∅) in
  stat_item_step (Sample.stat "Pass accuracy" "90,1%") ∅ = Ret written ∧
  ∃ v, parse_stat_value (Some "90,1%") = Ret v ∧
       written !! "pass_accuracy" = Some v ∧ written !! "gk_pass_accuracy" = Some v.
Proof.
  intros written.
  assert (stat_item_step (Sample.stat "Pass accuracy" "90,1%") ∅ = Ret written) as Hstep
    by (vm_compute; reflexivity).
  split; [exact Hstep|].
  apply (proj1 (shared_label_fields_move_together
                  "pass_accuracy" "gk_pass_accuracy" "Pass accuracy"
                  (list_elem_of_here _ _))
           (Sample.stat "Pass accuracy" "90,1%") {| text := Some "Pass accuracy" |}
           {| text := Some "90,1%" |} ∅ written eq_refl eq_refl eq_refl Hstep).
Defined.

(** ** Weakest-precondition rules *)

Section WpRules.

Variable Inv : Store -> Prop.

Lemma wp_db_mono {A} (c : Cmd A) s (Q Q' : A -> Store -> Prop) :
  (∀ r s', Q r s' -> Q' r s') -> wp_db Inv c s Q -> wp_db Inv c s Q'.
Proof.
  intros HQ. revert s. induction c as [r|k IH|k IH|B op k IH]; intros s; cbn; try done; auto.
  destruct (db_exec op s) as [s1 a]. intros [? ?]. split; [done|]. by apply IH.
Qed.

Lemma wp_db_cmd_bind {A B} (c : Cmd A) (f : A -> Cmd B) s Q :
  wp_db Inv c s (fun r s' => wp_db Inv (f r) s' Q) -> wp_db Inv (cmd_bind c f) s Q.
Proof.
  revert s. induction c as [r|k IH|k IH|C op k IH]; intros s; cbn; try done; auto.
  destruct (db_exec op s) as [s1 a]. intros [? ?]. split; [done|]. by apply IH.
Qed.

Lemma wp_db_mbind {A B} (m : M A) (f : A -> M B) s Q :
  wp_db Inv m s (fun r s' => match r with
                             | Ret a => wp_db Inv (f a) s' Q
                             | Raise e => Q (Raise e) s'
                             end) ->
  wp_db Inv (m ≫= f) s Q.
Proof.
  intros H. apply wp_db_cmd_bind. revert H. apply wp_db_mono. by intros [a|e] s'.
Qed.

Lemma wp_db_try_catch {A} (catches : exn -> bool) (body : M A) (handler : exn -> M A) s Q :
  wp_db Inv body s (fun r s' => match r with
                                | Ret a => Q (Ret a) s'
                                | Raise e => if catches e then wp_db Inv (handler e) s' Q
                                             else Q (Raise e) s'
                                end) ->
  wp_db Inv (try_catch catches body handler) s Q.
Proof.
  intros H. apply wp_db_cmd_bind. revert H. apply wp_db_mono.
  intros [a|e] s'; cbn; [done|]. by destruct (catches e).
Qed.

Lemma wp_db_run {A} (c : Cmd A) s Q :
  wp_db Inv c s Q -> Q (snd (run c s)) (fst (run c s)).
Proof.
  revert s. induction c as [r|k IH|k IH|B op k IH]; intros s; cbn; try done.
  destruct (db_exec op s) as [s1 a]. intros [_ ?]. by apply IH.
Qed.

Lemma in_section_mono {R} (c : Cmd R) s (Q Q' : Cmd R -> Store -> Prop) :
  (∀ k s', Q k s' -> Q' k s') -> in_section Inv c s Q -> in_section Inv c s Q'.
Proof.
  intros HQ. revert s. induction c as [r|k IH|k IH|B op k IH]; intros s; cbn; try done; auto.
  destruct (db_exec op s) as [s1 a]. intros [? ?]. split; [done|]. by apply IH.
Qed.

Lemma in_section_cmd_bind {R S} (c : Cmd R) (f : R -> Cmd S) s Q :
  in_section Inv c s (fun k s' => Q (cmd_bind k f) s') -> in_section Inv (cmd_bind c f) s Q.
Proof.
  revert s. induction c as [r|k IH|k IH|B op k IH]; intros s; cbn; try done; auto.
  destruct (db_exec op s) as [s1 a]. intros [? ?]. split; [done|]. by apply IH.
Qed.

Lemma in_section_unlock {A} (body : M A) s (Q : M A -> Store -> Prop) :
  wp_db Inv body s (fun r s' => Q (Done r) s') -> in_section Inv (cmd_bind body unlock) s Q.
Proof.
  revert s. induction body as [r|k IH|k IH|B op k IH]; intros s; cbn; try done; auto.
  destruct (db_exec op s) as [s1 a]. intros [? ?]. split; [done|]. by apply IH.
Qed.

Lemma in_section_run {R} (c : Cmd R) s Q :
  in_section Inv c s Q -> ∃ k s', Q k s' ∧ run c s = run k s'.
Proof.
  revert s. induction c as [r|k IH|k IH|B op k IH]; intros s; cbn; try done.
  - eauto.
  - destruct (db_exec op s) as [s1 a]. intros [_ ?]. by apply IH.
Qed.

End WpRules.

Lemma wp_db_weaken {A} (Inv Inv' : Store -> Prop) (c : Cmd A) s Q :
  (∀ s', Inv s' -> Inv' s') -> wp_db Inv c s Q -> wp_db Inv' c s Q.
Proof.
  intros HI. revert s. induction c as [r|k IH|k IH|B op k IH]; intros s; cbn; try done; auto.
  destruct (db_exec op s) as [s1 a]. intros [? ?]. split; [auto|]. by apply IH.
Qed.

(** ** Tables with a primary key and a lookup key *)

Section Table.

Context {Row K : Type} `{EqDecision K} (pk : Row -> Z) (key : Row -> K).

#[local] Abbreviation rows_with := (rows_with key).

Lemma fresh_id_gt (ids : list Z) x : x ∈ ids -> x < fresh_id ids.
Proof.
  unfold fresh_id. induction 1 as [x l|x y l _ IH]; cbn; lia.
Qed.

Lemma insert_nodup (l : list Row) row :
  NoDup (pk <$> l) -> pk row = fresh_id (pk <$> l) -> NoDup (pk <$> (l ++ [row])).
Proof.
  intros Hnd Hpk. rewrite fmap_app. apply NoDup_app. split; [done|]. split.
  - intros x Hx. cbn. rewrite list_elem_of_singleton. intros ->.
    apply fresh_id_gt in Hx. lia.
  - cbn. apply NoDup_singleton.
Qed.

Lemma insert_rows_with (l : list Row) row k :
  rows_with k (l ++ [row]) = rows_with k l ++ (if decide (key row = k) then [row] else []).
Proof.
  unfold rows_with. rewrite filter_app. f_equal.
  destruct (decide (key row = k)) as [He|He].
  - rewrite filter_cons_True; [done|]. by apply bool_decide_pack.
  - rewrite filter_cons_False; [done|]. by intros ?%bool_decide_unpack.
Qed.

Lemma pk_inj (l : list Row) x y :
  NoDup (pk <$> l) -> x ∈ l -> y ∈ l -> pk x = pk y -> x = y.
Proof.
  induction l as [|z l IH]; cbn; [by intros _ ?%elem_of_nil|].
  rewrite NoDup_cons. intros [Hz Hl] Hx Hy Hpk.
  apply elem_of_cons in Hx as [->|Hx]; apply elem_of_cons in Hy as [->|Hy]; auto.
  - destruct Hz. rewrite Hpk. by apply list_elem_of_fmap_2.
  - destruct Hz. rewrite <- Hpk. by apply list_elem_of_fmap_2.
Qed.

Variables (old row : Row).
Hypothesis row_pk : pk row = pk old.
Hypothesis row_key : key row = key old.

#[local] Abbreviation replace_row := (replace_row pk old row).

Lemma replace_row_pk r : pk (replace_row r) = pk r.
Proof. unfold replace_row. case_bool_decide; congruence. Qed.

Lemma update_pks (l : list Row) : pk <$> (replace_row <$> l) = pk <$> l.
Proof. rewrite <- list_fmap_compose. apply list_fmap_ext. intros ? r _. apply replace_row_pk. Qed.

Lemma replace_row_key (l : list Row) r :
  NoDup (pk <$> l) -> old ∈ l -> r ∈ l -> key (replace_row r) = key r.
Proof.
  intros Hnd Hold Hr. unfold replace_row. case_bool_decide as Hp; [|done].
  rewrite (pk_inj l r old Hnd Hr Hold Hp). done.
Qed.

Lemma update_rows_with (l : list Row) k :
  NoDup (pk <$> l) -> old ∈ l ->
  rows_with k (replace_row <$> l) = replace_row <$> rows_with k l.
Proof.
  intros Hnd Hold. unfold rows_with.
  assert (∀ r, r ∈ l -> key (replace_row r) = key r) as Hkey
    by (intros r Hr; by eapply replace_row_key).
  clear Hnd Hold. induction l as [|r l IH]; [done|].
  cbn [fmap list_fmap].
  assert (key (replace_row r) = key r) as Hr by (apply Hkey; left).
  assert (∀ r, r ∈ l -> key (replace_row r) = key r) as Hl by (intros; apply Hkey; by right).
  destruct (decide (key r = k)) as [He|He].
  - rewrite !filter_cons_True; [|by apply bool_decide_pack..|]; last first.
    { apply bool_decide_pack. congruence. }
    cbn. f_equal. by apply IH.
  - rewrite !filter_cons_False; [by apply IH|by intros ?%bool_decide_unpack|].
    intros ?%bool_decide_unpack. congruence.
Qed.

Lemma replace_row_other (l : list Row) r :
  NoDup (pk <$> l) -> old ∈ l -> r ∈ l -> key r ≠ key old -> replace_row r = r.
Proof.
  intros Hnd Hold Hr Hk. unfold replace_row. case_bool_decide as Hp; [|done].
  destruct Hk. by rewrite (pk_inj l r old Hnd Hr Hold Hp).
Qed.

Lemma update_rows_with_other (l : list Row) k :
  NoDup (pk <$> l) -> old ∈ l -> k ≠ key old ->
  rows_with k (replace_row <$> l) = rows_with k l.
Proof.
  intros Hnd Hold Hk. rewrite update_rows_with by done.
  rewrite <- (list_fmap_id (rows_with k l)) at 2. apply list_fmap_ext.
  intros ? r Hr. apply list_elem_of_lookup_2 in Hr. apply list_elem_of_filter in Hr as [Hr1 Hr2].
  apply bool_decide_unpack in Hr1. unfold id. apply (replace_row_other l); [done..|congruence].
Qed.

Lemma replace_row_old : replace_row old = row.
Proof. unfold replace_row. by rewrite bool_decide_eq_true_2. Qed.

End Table.

(** ** The two critical sections of a player task *)

Section Upserts.

Lemma section_guarantee_refl s : wf_store s -> section_guarantee s s.
Proof. by intros Hwf. Qed.

Lemma section_guarantee_trans s1 s2 s3 :
  section_guarantee s1 s2 -> section_guarantee s2 s3 -> section_guarantee s1 s3.
Proof.
  intros (_ & Hc1 & Hl1 & Hp1) (Hwf & Hc2 & Hl2 & Hp2).
  split; [done|]. split; [congruence|]. split; [congruence|]. auto.
Qed.

Lemma player_row_inv pk fid d row :
  player_row pk fid d = Ret row ->
  player_id row = pk ∧ fotmob_id row = fid ∧
  ∀ pk' fid', ∃ row', player_row pk' fid' d = Ret row'.
Proof.
  unfold player_row. destruct (pd_name d), (pd_country d); try discriminate.
  intros [= <-]. cbn. repeat split. eauto.
Qed.

Lemma player_row_raise pk fid d e pk' fid' :
  player_row pk fid d = Raise e -> player_row pk' fid' d = Raise e.
Proof. unfold player_row. by destruct (pd_name d), (pd_country d). Qed.

Lemma insert_player_ok s fid d row :
  wf_store s -> players_with fid s = [] ->
  player_row (fresh_id (player_id <$> players s)) (Some fid) d = Ret row ->
  let s' := set_players s (players s ++ [row]) in
  section_guarantee s s' ∧ players_with fid s' = [row] ∧
  ∀ fid', fid' ≠ fid -> players_with fid' s' = players_with fid' s.
Proof.
  intros [Hpk Hdk Hfu Hdu] Hsel (Hid & Hfid & _)%player_row_inv s'.
  assert (∀ fid', players_with fid' s' =
            players_with fid' s ++ if decide (fotmob_id row = Some fid') then [row] else []) as Hw.
  { intros fid'. apply (insert_rows_with fotmob_id). }
  assert (players_with fid s' = [row]) as Hnew.
  { rewrite Hw, Hsel, Hfid. by rewrite decide_True. }
  assert (∀ fid', fid' ≠ fid -> players_with fid' s' = players_with fid' s) as Hother.
  { intros fid' Hne. rewrite Hw, Hfid, decide_False, app_nil_r; [done|congruence]. }
  split; [|done]. split; [|repeat split].
  - split; [by apply insert_nodup|done| |done].
    intros fid'. destruct (decide (fid' = fid)) as [->|Hne].
    + by rewrite Hnew.
    + rewrite Hother by done. apply Hfu.
  - intros fid'. rewrite Hw. by destruct (players_with fid' s).
Qed.

Lemma update_player_ok s fid d old row :
  wf_store s -> players_with fid s = [old] ->
  player_row (player_id old) (fotmob_id old) d = Ret row ->
  let s' := set_players s (replace_row player_id old row <$> players s) in
  section_guarantee s s' ∧ players_with fid s' = [row] ∧
  (∀ fid', fid' ≠ fid -> players_with fid' s' = players_with fid' s) ∧
  player_row (player_id row) (Some fid) d = Ret row ∧
  player_id row = player_id old.
Proof.
  intros [Hpk Hdk Hfu Hdu] Hsel Hrow s'.
  pose proof Hrow as (Hid & Hfid & _)%player_row_inv.
  assert (old ∈ players s ∧ fotmob_id old = Some fid) as [Hold Hkey].
  { assert (old ∈ players_with fid s) as Hin by (rewrite Hsel; left).
    apply list_elem_of_filter in Hin as [?%bool_decide_unpack ?]. done. }
  assert (∀ fid', players_with fid' s' = replace_row player_id old row <$> players_with fid' s)
    as Hw.
  { intros fid'. by apply (update_rows_with player_id fotmob_id). }
  assert (wf_store s') as Hwf'.
  { split; [|done| |done].
    - cbn. by rewrite (update_pks player_id).
    - intros fid'. rewrite Hw, length_fmap. apply Hfu. }
  split; [|split; [|split; [|split]]].
  - split; [done|]. split; [done|]. split; [done|].
    intros fid'. rewrite Hw. by destruct (players_with fid' s).
  - rewrite Hw, Hsel. cbn. by rewrite replace_row_old.
  - intros fid' Hne. apply (update_rows_with_other player_id fotmob_id); try done.
    rewrite Hkey. congruence.
  - by rewrite Hid, <- Hkey.
  - done.
Qed.

Lemma wp_upsert_player_body bio s :
  wf_store s ->
  wp_db (section_guarantee s) (upsert_player_body bio) s (fun r s' =>
    section_guarantee s s' ∧ datas s' = datas s ∧
    match planned_write bio (clubs s) with
    | Ret (fid, d) =>
        ∃ player, r = Ret player ∧
          player_row (player_id player) (Some fid) d = Ret player ∧
          players_with fid s' = [player] ∧
          (∀ fid', fid' ≠ fid -> players_with fid' s' = players_with fid' s) ∧
          players s' = match players_with fid s with
                       | [old] => replace_row player_id old player <$> players s
                       | _ => players s ++ [player]
                       end ∧
          ∀ old, players_with fid s = [old] -> player_id player = player_id old
    | Raise _ => (∃ e, r = Raise e) ∧ s' = s
    end).
Proof.
  intros Hwf. pose proof (section_guarantee_refl s Hwf) as Hrefl.
  unfold upsert_player_body, planned_write, club_lookup, try_catch, objects_get,
    update_or_create, db, db_try, lift.
  cbn [mbind M_bind cmd_bind and_then handle wp_db db_exec mret M_ret].
  fold (clubs_named (bio_club_name bio) (clubs s)).
  split; [done|].
  destruct (clubs_named (bio_club_name bio) (clubs s)) as [|c [|c' cs]];
    cbn [cmd_bind and_then handle mret M_ret mbind result_bind wp_db];
    [rewrite bool_decide_eq_true_2 by done| |rewrite bool_decide_eq_false_2 by done];
    cbn [cmd_bind and_then handle mret M_ret mbind result_bind wp_db].
  1: cbn [player_defaults read_local mbind result_bind and_then wp_db].
  1, 3: by eauto 10.
  destruct (player_defaults bio (Bound c)) as [d|e];
    cbn [cmd_bind and_then mbind result_bind wp_db]; [|by eauto 10].
  destruct (Py.int (bio_fotmob_id bio)) as [fid|e];
    cbn [cmd_bind and_then mbind result_bind wp_db db_exec]; [|by eauto 10].
  fold (players_with fid s). split; [done|].
  destruct (players_with fid s) as [|old [|old' rest]] eqn:Hsel;
    cbn [cmd_bind and_then mbind result_bind wp_db db_exec].
  - destruct (player_row (fresh_id _) (Some fid) d) as [row|e] eqn:Hrow.
    + destruct (insert_player_ok s fid d row Hwf Hsel Hrow) as (Hg & Hnew & Hother).
      pose proof Hrow as (Hid & _ & Hany)%player_row_inv.
      destruct (Hany 0 (Some fid)) as [row0 ->].
      cbn [cmd_bind and_then mbind result_bind wp_db mret M_ret].
      split; [done|]. split; [done|]. split; [done|].
      exists row. split; [done|]. split; [by rewrite Hid|]. split; [done|].
      split; [done|]. rewrite Hsel. by split.
    + rewrite (player_row_raise _ _ _ _ 0 (Some fid) Hrow).
      cbn [cmd_bind and_then mbind result_bind wp_db]. by eauto 10.
  - destruct (player_row (player_id old) (fotmob_id old) d) as [row|e] eqn:Hrow.
    + destruct (update_player_ok s fid d old row Hwf Hsel Hrow)
        as (Hg & Hnew & Hother & Hrow' & Hsame).
      pose proof Hrow as (_ & _ & Hany)%player_row_inv.
      destruct (Hany 0 (Some fid)) as [row0 ->].
      cbn [cmd_bind and_then mbind result_bind wp_db mret M_ret].
      split; [done|]. split; [done|]. split; [done|].
      exists row. split; [done|]. split; [done|]. split; [done|].
      split; [done|]. rewrite Hsel. split; [done|]. by intros ? [= <-].
    + rewrite (player_row_raise _ _ _ _ 0 (Some fid) Hrow).
      cbn [cmd_bind and_then mbind result_bind wp_db]. by eauto 10.
  - destruct Hwf as [_ _ Hfu _]. specialize (Hfu fid). rewrite Hsel in Hfu. cbn in Hfu. lia.
Qed.

Lemma insert_data_ok s pk sd :
  wf_store s -> data_of pk s = [] ->
  let row := {| data_id := fresh_id (data_id <$> datas s); data_player := pk;
                data_values := set_defaults sd ∅ |} in
  let s' := set_datas s (datas s ++ [row]) in
  section_guarantee s s' ∧ data_of pk s' = [row] ∧
  ∀ pk', pk' ≠ pk -> data_of pk' s' = data_of pk' s.
Proof.
  intros [Hpk Hdk Hfu Hdu] Hsel row s'.
  assert (∀ pk', data_of pk' s' =
            data_of pk' s ++ if decide (data_player row = pk') then [row] else []) as Hw.
  { intros pk'. apply (insert_rows_with data_player). }
  assert (data_of pk s' = [row]) as Hnew.
  { rewrite Hw, Hsel. cbn. by rewrite decide_True. }
  assert (∀ pk', pk' ≠ pk -> data_of pk' s' = data_of pk' s) as Hother.
  { intros pk' Hne. rewrite Hw. cbn. rewrite decide_False, app_nil_r; [done|congruence]. }
  split; [|done]. split; [|done].
  split; [done|by apply insert_nodup|done|].
  intros pk'. destruct (decide (pk' = pk)) as [->|Hne].
  - by rewrite Hnew.
  - rewrite Hother by done. apply Hdu.
Qed.

Lemma update_data_ok s pk sd old :
  wf_store s -> data_of pk s = [old] ->
  let row := {| data_id := data_id old; data_player := data_player old;
                data_values := set_defaults sd (data_values old) |} in
  let s' := set_datas s (replace_row data_id old row <$> datas s) in
  section_guarantee s s' ∧ data_of pk s' = [row] ∧ data_player old = pk ∧
  ∀ pk', pk' ≠ pk -> data_of pk' s' = data_of pk' s.
Proof.
  intros [Hpk Hdk Hfu Hdu] Hsel row s'.
  assert (old ∈ datas s ∧ data_player old = pk) as [Hold Hkey].
  { assert (old ∈ data_of pk s) as Hin by (rewrite Hsel; left).
    apply list_elem_of_filter in Hin as [?%bool_decide_unpack ?]. done. }
  assert (∀ pk', data_of pk' s' = replace_row data_id old row <$> data_of pk' s) as Hw.
  { intros pk'. by apply (update_rows_with data_id data_player). }
  assert (wf_store s') as Hwf'.
  { split; [done| |done|].
    - cbn. by rewrite (update_pks data_id).
    - intros pk'. rewrite Hw, length_fmap. apply Hdu. }
  split; [|split; [|split]].
  - done.
  - rewrite Hw, Hsel. cbn. by rewrite replace_row_old.
  - done.
  - intros pk' Hne. apply (update_rows_with_other data_id data_player); try done.
    rewrite Hkey. congruence.
Qed.

Lemma wp_upsert_data_body player sd s :
  wf_store s ->
  wp_db (section_guarantee s) (upsert_data_body player sd) s (fun r s' =>
    section_guarantee s s' ∧ players s' = players s ∧
    ∃ row, r = Ret row ∧ data_of (player_id player) s' = [row] ∧
      data_values row =
        set_defaults sd (match data_of (player_id player) s with
                         | [old] => data_values old
                         | _ => ∅
                         end) ∧
      (∀ pk', pk' ≠ player_id player -> data_of pk' s' = data_of pk' s) ∧
      datas s' = match data_of (player_id player) s with
                 | [old] => replace_row data_id old row <$> datas s
                 | _ => datas s ++ [row]
                 end ∧
      match data_of (player_id player) s with
      | [old] => data_id row = data_id old ∧ data_player row = data_player old
      | _ => True
      end).
Proof.
  intros Hwf. pose proof (section_guarantee_refl s Hwf) as Hrefl.
  unfold upsert_data_body, update_or_create, db, db_try.
  cbn [mbind M_bind cmd_bind and_then wp_db db_exec mret M_ret].
  fold (data_of (player_id player) s). split; [done|].
  destruct (data_of (player_id player) s) as [|old [|old' rest]] eqn:Hsel;
    cbn [cmd_bind and_then mbind result_bind wp_db db_exec mret M_ret].
  - destruct (insert_data_ok s (player_id player) sd Hwf Hsel) as (Hg & Hnew & Hother).
    split; [done|]. split; [done|]. split; [done|].
    eexists. split; [done|]. split; [done|]. split; [done|]. split; [done|]. by split.
  - destruct (update_data_ok s (player_id player) sd old Hwf Hsel) as (Hg & Hnew & Hp & Hother).
    split; [done|]. split; [done|]. split; [done|].
    eexists. split; [done|]. split; [done|]. split; [done|]. split; [done|]. by split.
  - destruct Hwf as [_ _ _ Hdu]. specialize (Hdu (player_id player)).
    rewrite Hsel in Hdu. cbn in Hdu. lia.
Qed.

End Upserts.

(** ** One player task, run alone *)

Section PlayerTaskAlone.

Lemma run_upsert_player bio s fid d :
  wf_store s -> planned_write bio (clubs s) = Ret (fid, d) ->
  ∃ s1 player,
    run (upsert_player bio) s = (s1, Ret player) ∧
    section_guarantee s s1 ∧ datas s1 = datas s ∧
    player_row (player_id player) (Some fid) d = Ret player ∧
    players_with fid s1 = [player] ∧
    (∀ fid', fid' ≠ fid -> players_with fid' s1 = players_with fid' s) ∧
    players s1 = match players_with fid s with
                 | [old] => replace_row player_id old player <$> players s
                 | _ => players s ++ [player]
                 end ∧
    ∀ old, players_with fid s = [old] -> player_id player = player_id old.
Proof.
  intros Hwf Hplan. unfold upsert_player. rewrite run_with_lock.
  pose proof (wp_db_run _ _ _ _ (wp_upsert_player_body bio s Hwf)) as H. cbn beta in H.
  rewrite Hplan in H.
  destruct H as (Hg & Hd & player & Hr & Hrow & Hnew & Hother & Hps & Hsame).
  destruct (run (upsert_player_body bio) s) as [s1 r]. cbn [fst snd] in *. subst r.
  by exists s1, player.
Qed.

Lemma run_upsert_player_fails bio s e :
  wf_store s -> planned_write bio (clubs s) = Raise e ->
  ∃ e', run (upsert_player bio) s = (s, Raise e').
Proof.
  intros Hwf Hplan. unfold upsert_player. rewrite run_with_lock.
  pose proof (wp_db_run _ _ _ _ (wp_upsert_player_body bio s Hwf)) as H. cbn beta in H.
  rewrite Hplan in H. destruct H as (_ & _ & [e' Hr] & Hs).
  destruct (run (upsert_player_body bio) s) as [s1 r]. cbn [fst snd] in *. subst. by exists e'.
Qed.

Lemma run_upsert_data player sd s :
  wf_store s ->
  ∃ s2 row,
    run (upsert_data player sd) s = (s2, Ret row) ∧
    section_guarantee s s2 ∧ players s2 = players s ∧
    data_of (player_id player) s2 = [row] ∧
    data_values row =
      set_defaults sd (match data_of (player_id player) s with
                       | [old] => data_values old
                       | _ => ∅
                       end) ∧
    (∀ pk', pk' ≠ player_id player -> data_of pk' s2 = data_of pk' s) ∧
    datas s2 = match data_of (player_id player) s with
               | [old] => replace_row data_id old row <$> datas s
               | _ => datas s ++ [row]
               end ∧
    match data_of (player_id player) s with
    | [old] => data_id row = data_id old ∧ data_player row = data_player old
    | _ => True
    end.
Proof.
  intros Hwf. unfold upsert_data. rewrite run_with_lock.
  pose proof (wp_db_run _ _ _ _ (wp_upsert_data_body player sd s Hwf)) as H. cbn beta in H.
  destruct H as (Hg & Hp & row & Hr & Hnew & Hval & Hother & Hds & Hids).
  destruct (run (upsert_data_body player sd) s) as [s2 r]. cbn [fst snd] in *. subst r.
  by exists s2, row.
Qed.

Lemma run_stats_phase page player s :
  wf_store s ->
  match collect_stats page with
  | Ret sd =>
      ∃ row, run (stats_phase page player) s = (fst (run (upsert_data player sd) s), Ret true) ∧
             snd (run (upsert_data player sd) s) = Ret row
  | Raise _ => run (stats_phase page player) s = (s, Ret true)
  end.
Proof.
  intros Hwf. unfold stats_phase. run_simpl.
  destruct (collect_stats page) as [sd|e]; run_simpl; [|done].
  destruct (run_upsert_data player sd s Hwf) as (s2 & row & -> & _). run_simpl.
  by exists row.
Qed.

Lemma run_stats_phase_ret page player s :
  ∃ s2 b, run (stats_phase page player) s = (s2, Ret b).
Proof.
  unfold stats_phase. rewrite run_try_catch.
  destruct (run _ s) as [s1 [a|e]]; cbn; eauto.
Qed.

Lemma run_scrape_player driver player_link s page bio :
  player_page driver player_link = Some page ->
  extract_bio page player_link = Ret bio ->
  run (scrape_player_with_driver driver player_link) s =
  match run (upsert_player bio) s with
  | (s1, Ret player) => run (stats_phase page player) s1
  | (s1, Raise _) => (s1, Ret false)
  end.
Proof.
  intros Hpage Hbio. unfold scrape_player_with_driver, driver_get.
  rewrite Hpage. run_simpl. rewrite Hbio. run_simpl.
  destruct (run (upsert_player bio) s) as [s1 [player|e]]; run_simpl; [|done].
  by destruct (run_stats_phase_ret page player s1) as (s2 & b & ->).
Qed.

End PlayerTaskAlone.

(** ** C5: what the statistics upsert writes *)

Section DataUpsert.

Lemma stat_items_loop_absent items sd sd' key :
  stat_items_loop items sd = Ret sd' ->
  sd' !! key = None ↔
  sd !! key = None ∧
  existsb (fun item => match stat_title item with
                       | Some t => labelled data_match_dict (get_text_or_none t) key
                       | None => false
                       end) items = false.
Proof.
  revert sd. induction items as [|item rest IH]; intros sd; cbn [stat_items_loop existsb].
  - intros [= <-]. split; [done|by intros [? _]].
  - destruct (stat_item_step item sd) as [sd1|] eqn:Hstep; [|discriminate].
    cbn [mbind result_bind]. intros Hrest. rewrite (IH _ Hrest).
    apply stat_item_step_inv in Hstep as (t & v & -> & _ & Hm).
    pose proof (match_labels_lookup _ _ _ _ _ Hm key) as Hk.
    destruct (labelled data_match_dict (get_text_or_none t) key); cbn [orb].
    + destruct Hk as (x & _ & ->). split; intros [? ?]; discriminate.
    + by rewrite Hk.
Qed.

Lemma collect_stats_absent page sd key :
  collect_stats page = Ret sd -> sd !! key = None ↔ label_present page key = false.
Proof.
  unfold collect_stats, label_present. destruct (wait_presence _); [|discriminate].
  cbn [mbind result_bind]. intros H. rewrite (stat_items_loop_absent _ _ _ key H).
  rewrite lookup_empty. split; [by intros [_ ?]|done].
Qed.

Lemma set_defaults_lookup (sd : gmap string (option pynum)) (old : gmap string pynum) key :
  set_defaults sd old !! key = match sd !! key with
                               | Some v => v
                               | None => old !! key
                               end.
Proof. unfold set_defaults. rewrite lookup_merge. by destruct (sd !! key), (old !! key). Qed.

Lemma wf_storeb_true s : wf_storeb s = true -> wf_store s.
Proof.
  unfold wf_storeb. rewrite !andb_true_iff, !bool_decide_eq_true, !forallb_forall.
  intros [[[H1 H2] H3] H4]. split; [done|done| |].
  - intros fid. destruct (players_with fid s) as [|p l] eqn:Hp; [cbn; lia|].
    assert (p ∈ players_with fid s) as Hin by (rewrite Hp; left).
    apply list_elem_of_filter in Hin as [Hk%bool_decide_unpack Hin].
    apply list_elem_of_In in Hin. specialize (H3 p Hin). rewrite Hk in H3.
    rewrite Hp in H3. by apply Nat.leb_le.
  - intros pk. destruct (data_of pk s) as [|p l] eqn:Hp; [cbn; lia|].
    assert (p ∈ data_of pk s) as Hin by (rewrite Hp; left).
    apply list_elem_of_filter in Hin as [Hk%bool_decide_unpack Hin].
    apply list_elem_of_In in Hin. specialize (H4 p Hin). rewrite Hk in H4.
    rewrite Hp in H4. by apply Nat.leb_le.
Qed.

End DataUpsert.

(** C5, as the code has it.  [update_or_create] is given [stats_data] as
    [defaults], and [stats_data] only has the keys whose label was seen on
    the page.  After a run that reaches the statistics upsert, the player
    has exactly one [Data] row, and in it:
    - a column whose label was present this run holds the value parsed this
      run (NULL when the text does not parse);
    - a column whose label was absent holds what the player's [Data] row
      held before the run, and NULL when the player had none. *)
Theorem data_upsert_overwrites_seen_labels_only
    (driver : Driver) (player_link : string) (s : Store) page bio fid d stats_data :
  wf_store s ->
  player_page driver player_link = Some page ->
  extract_bio page player_link = Ret bio ->
  planned_write bio (clubs s) = Ret (fid, d) ->
  collect_stats page = Ret stats_data ->
  ∃ s' player row,
    run (scrape_player_with_driver driver player_link) s = (s', Ret true) ∧
    players_with fid s' = [player] ∧
    data_of (player_id player) s' = [row] ∧
    ∀ key,
      (label_present page key = true ->
         ∃ v, stats_data !! key = Some v ∧ data_values row !! key = v) ∧
      (label_present page key = false ->
         data_values row !! key =
           match data_of (player_id player) s with
           | [old] => data_values old !! key
           | _ => None
           end).
Proof.
  intros Hwf Hpage Hbio Hplan Hstats.
  rewrite (run_scrape_player _ _ _ _ _ Hpage Hbio).
  destruct (run_upsert_player bio s fid d Hwf Hplan)
    as (s1 & player & -> & Hg & Hd & Hrow & Hnew & Hother & Hps & _).
  pose proof Hg as [Hwf1 _].
  pose proof (run_stats_phase page player s1 Hwf1) as Hphase. rewrite Hstats in Hphase.
  destruct Hphase as (row' & -> & _).
  destruct (run_upsert_data player stats_data s1 Hwf1)
    as (s2 & row & -> & Hg2 & Hp2 & Hnew2 & Hval & Hother2 & _).
  exists s2, player, row. cbn [fst]. split; [done|]. split.
  { unfold players_with in *. by rewrite Hp2. }
  split; [done|]. intros key. rewrite Hval, set_defaults_lookup.
  unfold data_of in *. rewrite Hd.
  pose proof (collect_stats_absent page stats_data key Hstats) as Habs.
  split; intros Hl.
  - destruct (stats_data !! key) as [v|]; [eauto|].
    rewrite (proj1 Habs eq_refl) in Hl. discriminate.
  - rewrite (proj2 Habs Hl).
    by destruct (filter _ (datas s)) as [|old [|]].
Qed.

Lemma data_upsert_overwrites_seen_labels_only_witness :
  ∃ s' player row,
    run (scrape_player_with_driver Sample.web_later (Sample.player_url "101"))
        (fst (run (scrape_player_with_driver Sample.web (Sample.player_url "101"))
                  Sample.after_leagues))
      = (s', Ret true) ∧
    players_with 101 s' = [player] ∧
    data_of (player_id player) s' = [row] ∧
    data_values row !! "assists" = Some (PyInt 11).
Proof.
  set (s := fst (run (scrape_player_with_driver Sample.web (Sample.player_url "101"))
                     Sample.after_leagues)).
  assert (wf_store s) as Hwf by (apply wf_storeb_true; vm_compute; reflexivity).
  destruct (data_upsert_overwrites_seen_labels_only
              Sample.web_later (Sample.player_url "101") s
              (Sample.profile [Sample.stat "Assists" "11"])
              {| bio_name := Some "Jude Bellingham"; bio_club_name := "Real Madrid";
                 bio_positions_text := "AM, CM";
                 bio_player_data :=
                   {| pdata_height := Some 186; pdata_shirt_number := Some "5";
                      pdata_age := Some 21; pdata_foot := Some "Right";
                      pdata_country := Some "England";
                      pdata_market_value := Some 180000000 |};
                 bio_fotmob_id := "101" |}
              101
              {| pd_name := Some "Jude Bellingham";
                 pd_club := {| club_id := 1; club_name := "Real Madrid"; club_league := 1;
                               club_founded_year := None |};
                 pd_position := "AM, CM"; pd_country := Some "England";
                 pd_shirt_number := Some 5; pd_age := Some 21; pd_height := Some 186;
                 pd_market_value := Some 180000000 |}
              {[ "assists" := Some (PyInt 11) ]}
              Hwf)
    as (s' & player & row & Hrun & Hp & Hd & Hkeys).
  - vm_compute. reflexivity.
  - vm_compute. reflexivity.
  - vm_compute. reflexivity.
  - vm_compute. reflexivity.
  - exists s', player, row. split; [exact Hrun|]. split; [exact Hp|]. split; [exact Hd|].
    destruct (proj1 (Hkeys "assists")) as (v & Hv & ->).
    + vm_compute. reflexivity.
    + rewrite lookup_singleton_eq in Hv. by injection Hv as <-.
Defined.

(** C5 as stated fails on the sample site.  Player 101 is scraped once
    with the lines Goals, Assists and Pass accuracy, then again when the
    page only shows Assists.  The label of [goals] is absent in the second
    run, yet the column still holds the 9 of the first run instead of
    NULL. *)
Lemma data_upsert_keeps_stale_value :
  let s1 := fst (run (scrape_player_with_driver Sample.web (Sample.player_url "101"))
                     Sample.after_leagues) in
  let s2 := fst (run (scrape_player_with_driver Sample.web_later (Sample.player_url "101")) s1) in
  label_present (Sample.profile [Sample.stat "Assists" "11"]) "goals" = false ∧
  player_page Sample.web_later (Sample.player_url "101")
    = Some (Sample.profile [Sample.stat "Assists" "11"]) ∧
  ∃ row, datas s2 = [row] ∧
         data_values row !! "goals" = Some (PyInt 9) ∧
         data_values row !! "assists" = Some (PyInt 11).
Proof.
  intros s1 s2. split; [vm_compute; reflexivity|]. split; [vm_compute; reflexivity|].
  eexists. split; [vm_compute; reflexivity|].
  split; vm_compute; reflexivity.
Qed.

(** ** C1: running a player task twice *)

Section Idempotence.

Lemma replace_row_same {Row} (pk : Row -> Z) (l : list Row) old :
  NoDup (pk <$> l) -> old ∈ l -> replace_row pk old old <$> l = l.
Proof.
  intros Hnd Hold. rewrite <- (list_fmap_id l) at 2. apply list_fmap_ext.
  intros i r Hr%list_elem_of_lookup_2. unfold replace_row, id.
  case_bool_decide as Hp; [|done]. symmetry. by eapply pk_inj.
Qed.

Lemma set_defaults_idemp (sd : gmap string (option pynum)) (old : gmap string pynum) :
  set_defaults sd (set_defaults sd old) = set_defaults sd old.
Proof.
  apply map_eq. intros key. rewrite !set_defaults_lookup. by destruct (sd !! key).
Qed.

Lemma store_eq (s s' : Store) :
  leagues s' = leagues s -> clubs s' = clubs s -> players s' = players s ->
  datas s' = datas s -> s' = s.
Proof. destruct s, s'. cbn. by intros -> -> -> ->. Qed.

Lemma elem_of_singleton_filter {A} (P : A -> Prop) `{∀ x, Decision (P x)} (l : list A) x :
  filter P l = [x] -> x ∈ l.
Proof.
  intros Hf. assert (x ∈ filter P l) as Hin by (rewrite Hf; left).
  by apply list_elem_of_filter in Hin as [_ ?].
Qed.

End Idempotence.

(** Two runs of the task, when the write it plans is accepted and the
    statistics are read. *)
Lemma run_twice_planned
    (driver : Driver) (player_link : string) (s : Store) page bio fid d stats_data :
  wf_store s ->
  player_page driver player_link = Some page ->
  extract_bio page player_link = Ret bio ->
  planned_write bio (clubs s) = Ret (fid, d) ->
  collect_stats page = Ret stats_data ->
  ∃ s1 player row,
    run (scrape_player_with_driver driver player_link) s = (s1, Ret true) ∧
    run (scrape_player_with_driver driver player_link) s1 = (s1, Ret true) ∧
    players_with fid s1 = [player] ∧
    player_row (player_id player) (Some fid) d = Ret player ∧
    data_of (player_id player) s1 = [row] ∧
    data_values row =
      set_defaults stats_data (match data_of (player_id player) s with
                               | [old] => data_values old
                               | _ => ∅
                               end) ∧
    (∀ key v, stats_data !! key = Some v -> data_values row !! key = v).
Proof.
  intros Hwf Hpage Hbio Hplan Hstats.
  (* first run *)
  rewrite (run_scrape_player _ _ s _ _ Hpage Hbio).
  destruct (run_upsert_player bio s fid d Hwf Hplan)
    as (sa & player & -> & Hga & Hda & Hrow & Hnew & _ & _ & _).
  pose proof Hga as (Hwfa & Hca & Hla & _).
  pose proof (run_stats_phase page player sa Hwfa) as Hphase. rewrite Hstats in Hphase.
  destruct Hphase as (row' & -> & _).
  destruct (run_upsert_data player stats_data sa Hwfa)
    as (s1 & row & -> & Hg1 & Hp1 & Hnew1 & Hval & _ & _ & _).
  pose proof Hg1 as (Hwf1 & Hc1 & Hl1 & _). cbn [fst].
  assert (players_with fid s1 = [player]) as Hnew'.
  { unfold players_with in *. by rewrite Hp1. }
  exists s1, player, row. split; [done|]. split; [|split; [done|split; [done|split; [done|]]]].
  - (* second run *)
    rewrite (run_scrape_player _ _ s1 _ _ Hpage Hbio).
    assert (planned_write bio (clubs s1) = Ret (fid, d)) as Hplan1 by (by rewrite Hc1, Hca).
    destruct (run_upsert_player bio s1 fid d Hwf1 Hplan1)
      as (sb & player2 & -> & Hgb & Hdb & Hrow2 & _ & _ & Hpsb & Hsame).
    rewrite Hnew' in Hpsb. specialize (Hsame player Hnew').
    rewrite Hsame, Hrow in Hrow2. injection Hrow2 as <-.
    destruct Hgb as (_ & Hcb & Hlb & _).
    assert (sb = s1) as ->.
    { apply store_eq; [done|done| |done]. rewrite Hpsb.
      apply replace_row_same; [by destruct Hwf1|]. by eapply elem_of_singleton_filter. }
    pose proof (run_stats_phase page player s1 Hwf1) as Hphase. rewrite Hstats in Hphase.
    destruct Hphase as (row2' & -> & _).
    destruct (run_upsert_data player stats_data s1 Hwf1)
      as (s2 & row2 & -> & Hg2 & Hp2 & _ & Hval2 & _ & Hds2 & Hids).
    rewrite Hnew1 in Hval2, Hds2, Hids. destruct Hids as [Hid Hpl]. cbn [fst].
    assert (row2 = row) as ->.
    { destruct row2 as [i2 p2 v2], row as [i1 p1 v1]. cbn in Hid, Hpl, Hval2, Hval.
      rewrite Hid, Hpl, Hval2, Hval. f_equal. apply set_defaults_idemp. }
    destruct Hg2 as (_ & Hc2 & Hl2 & _). f_equal.
    apply store_eq; [done|done|done|]. rewrite Hds2.
    apply replace_row_same; [by destruct Hwf1|]. by eapply elem_of_singleton_filter.
  - split.
    + rewrite Hval. unfold data_of in *. by rewrite Hda.
    + intros key v Hk. by rewrite Hval, set_defaults_lookup, Hk.
Qed.

(** The write a task plans, from what makes it acceptable. *)
Lemma planned_write_accepted bio cs club_row n ctry shirt fid :
  clubs_named (bio_club_name bio) cs = [club_row] ->
  bio_name bio = Some n ->
  pdata_country (bio_player_data bio) = Some ctry ->
  shirt_number_value (bio_player_data bio) = Ret shirt ->
  Py.int (bio_fotmob_id bio) = Ret fid ->
  planned_write bio cs =
  Ret (fid, {| pd_name := Some n; pd_club := club_row;
               pd_position := bio_positions_text bio; pd_country := Some ctry;
               pd_shirt_number := shirt;
               pd_age := pdata_age (bio_player_data bio);
               pd_height := pdata_height (bio_player_data bio);
               pd_market_value := pdata_market_value (bio_player_data bio) |}).
Proof.
  intros Hclub Hn Hc Hshirt Hfid. unfold planned_write, club_lookup, player_defaults.
  rewrite Hclub. cbn [mbind result_bind read_local]. rewrite Hshirt. cbn [mbind result_bind].
  rewrite Hfid, Hn, Hc. reflexivity.
Qed.

(** C1, as the code has it.  Take a store that satisfies the uniqueness
    invariants and a profile page on which the task reaches both writes:
    - the page is read without error;
    - exactly one [Club] row carries the club name read from the page;
    - the page gives a name and a country, the two columns that refuse
      NULL, the shirt number is read without error and the id in the link
      is an integer;
    - the statistics block is read without error.
    Running the player extraction on it returns [True] and leaves exactly
    one [Player] row for the [fotmob_id] and exactly one [Data] row for
    that player; running it a second time on the same page returns [True]
    again and leaves the store exactly as the first run left it.  Every
    field of the [Player] row is the value extracted.  The [Data] row is
    merged, not replaced: the extracted statistics are written over the
    row the player had before the first run, if any, and over an empty row
    otherwise. *)
Theorem player_extraction_idempotent
    (driver : Driver) (player_link : string) (s : Store) page bio club_row n ctry shirt fid
    stats_data :
  wf_store s ->
  player_page driver player_link = Some page ->
  extract_bio page player_link = Ret bio ->
  clubs_named (bio_club_name bio) (clubs s) = [club_row] ->
  bio_name bio = Some n ->
  pdata_country (bio_player_data bio) = Some ctry ->
  shirt_number_value (bio_player_data bio) = Ret shirt ->
  Py.int (bio_fotmob_id bio) = Ret fid ->
  collect_stats page = Ret stats_data ->
  ∃ s1 player row,
    run (scrape_player_with_driver driver player_link) s = (s1, Ret true) ∧
    run (scrape_player_with_driver driver player_link) s1 = (s1, Ret true) ∧
    players_with fid s1 = [player] ∧
    fotmob_id player = Some fid ∧
    name player = n ∧
    club player = Some (club_id club_row) ∧
    position player = bio_positions_text bio ∧
    country player = ctry ∧
    shirt_number player = shirt ∧
    age player = pdata_age (bio_player_data bio) ∧
    height player = pdata_height (bio_player_data bio) ∧
    market_value player = pdata_market_value (bio_player_data bio) ∧
    data_of (player_id player) s1 = [row] ∧
    data_values row =
      set_defaults stats_data (match data_of (player_id player) s with
                               | [old] => data_values old
                               | _ => ∅
                               end) ∧
    (∀ key v, stats_data !! key = Some v -> data_values row !! key = v).
Proof.
  intros Hwf Hpage Hbio Hclub Hn Hc Hshirt Hfid Hstats.
  pose proof (planned_write_accepted bio (clubs s) club_row n ctry shirt fid
                Hclub Hn Hc Hshirt Hfid) as Hplan.
  destruct (run_twice_planned driver player_link s page bio fid _ stats_data
              Hwf Hpage Hbio Hplan Hstats)
    as (s1 & player & row & Hrun1 & Hrun2 & Hp & Hrow & Hd & Hval & Hkeys).
  exists s1, player, row. cbn in Hrow. injection Hrow as Hrow.
  split; [done|]. split; [done|]. split; [done|].
  repeat (split; [by rewrite <- Hrow|]). done.
Qed.

Lemma player_extraction_idempotent_witness :
  ∃ s1 player row,
    run (scrape_player_with_driver Sample.web (Sample.player_url "101")) Sample.after_leagues
      = (s1, Ret true) ∧
    run (scrape_player_with_driver Sample.web (Sample.player_url "101")) s1 = (s1, Ret true) ∧
    players_with 101 s1 = [player] ∧
    name player = "Jude Bellingham" ∧ market_value player = Some 180000000 ∧
    shirt_number player = Some 5 ∧ club player = Some 1 ∧
    data_of (player_id player) s1 = [row] ∧
    data_values row !! "goals" = Some (PyInt 9).
Proof.
  destruct (player_extraction_idempotent
              Sample.web (Sample.player_url "101") Sample.after_leagues
              (Sample.profile Sample.season_stats)
              {| bio_name := Some "Jude Bellingham"; bio_club_name := "Real Madrid";
                 bio_positions_text := "AM, CM";
                 bio_player_data :=
                   {| pdata_height := Some 186; pdata_shirt_number := Some "5";
                      pdata_age := Some 21; pdata_foot := Some "Right";
                      pdata_country := Some "England";
                      pdata_market_value := Some 180000000 |};
                 bio_fotmob_id := "101" |}
              {| club_id := 1; club_name := "Real Madrid"; club_league := 1;
                 club_founded_year := None |}
              "Jude Bellingham" "England" (Some 5) 101
              (<["goals" := Some (PyInt 9)]>
                 (<["assists" := Some (PyInt 8)]>
                    (<["pass_accuracy" := Some (PyFloat (Py.float_of_decimal false 901 (-1)))]>
                       (<["gk_pass_accuracy" :=
                            Some (PyFloat (Py.float_of_decimal false 901 (-1)))]> ∅)))))
    as (s1 & player & row & Hrun1 & Hrun2 & Hp & _ & Hname & Hclub & _ & _ & Hshirt & _ & _
        & Hmv & Hd & _ & Hkeys).
  - apply wf_storeb_true. vm_compute. reflexivity.
  - vm_compute. reflexivity.
  - vm_compute. reflexivity.
  - vm_compute. reflexivity.
  - reflexivity.
  - reflexivity.
  - vm_compute. reflexivity.
  - vm_compute. reflexivity.
  - vm_compute. reflexivity.
  - exists s1, player, row. split; [exact Hrun1|]. split; [exact Hrun2|].
    split; [exact Hp|]. split; [exact Hname|]. split; [exact Hmv|].
    split; [exact Hshirt|]. split; [exact Hclub|]. split; [exact Hd|].
    apply (Hkeys "goals" (Some (PyInt 9))). reflexivity.
Defined.

(** C1 as stated fails on the sample site.  Player 101 was scraped
    earlier in the season, with 9 goals.  The extraction is then run twice
    against the later page, which has no "Goals" line.  There is one
    [Player] row and one [Data] row, but [goals] still holds 9, a value
    neither run extracted: the row is merged with what was there, not
    overwritten. *)
Lemma two_runs_keep_unextracted_value :
  let s0 := fst (run (scrape_player_with_driver Sample.web (Sample.player_url "101"))
                     Sample.after_leagues) in
  let s1 := fst (run (scrape_player_with_driver Sample.web_later (Sample.player_url "101")) s0) in
  let s2 := fst (run (scrape_player_with_driver Sample.web_later (Sample.player_url "101")) s1) in
  collect_stats (Sample.profile [Sample.stat "Assists" "11"])
    = Ret {[ "assists" := Some (PyInt 11) ]} ∧
  length (players s2) = 1%nat ∧
  ∃ row, datas s2 = [row] ∧ data_values row !! "goals" = Some (PyInt 9).
Proof.
  intros s0 s1 s2. split; [vm_compute; reflexivity|]. split; [vm_compute; reflexivity|].
  eexists. split; vm_compute; reflexivity.
Qed.

(** ** Pools of lock-disciplined threads *)

Section PoolInvariant.

Context {R : Type}.
Variable Inv : Store -> Prop.
Variable G : Store -> Store -> Prop.
Variable T : nat -> Cmd R -> Store -> Prop.

(** Outside the lock a thread has finished or is about to take the lock,
    and the section it then runs keeps [Inv], respects [G] and ends at a
    point allowed by [T]. *)
Hypothesis T_step : ∀ i c s, T i c s ->
  match c with
  | Done _ => True
  | Acquire k => Inv s -> in_section Inv k s (fun k' s' => G s s' ∧ T i k' s')
  | _ => False
  end.

(** What [T] says of a waiting thread survives the sections of the others. *)
Hypothesis T_stable : ∀ i c s s', T i c s -> G s s' -> T i c s'.

Lemma pool_inv_step (p p' : Pool R) :
  pool_inv Inv G T p -> pool_step p p' -> pool_inv Inv G T p'.
Proof.
  intros [HInv Hth] Hstep. destruct Hstep as [s holder ts i c c' s' holder' Hi Hc].
  cbn [pool_store pool_lock pool_threads] in *.
  assert (i < length ts)%nat as Hlen by (by eapply lookup_lt_Some).
  destruct holder as [h|].
  - destruct Hth as (ch & s0 & Hh & Hsec & Hothers).
    destruct (decide (i = h)) as [->|Hne].
    + rewrite Hh in Hi. injection Hi as ->.
      destruct c as [r|k|k|A op k]; cbn in Hsec, Hc; try done.
      * injection Hc as <- <- <-. destruct Hsec as [HG HT].
        split; [done|]. cbn. intros j cj Hj.
        destruct (decide (j = h)) as [->|Hjh].
        -- rewrite list_lookup_insert_eq in Hj by done. by injection Hj as <-.
        -- rewrite list_lookup_insert_ne in Hj by done. eapply T_stable; eauto.
      * destruct (db_exec op s) as [s1 a]. injection Hc as <- <- <-.
        destruct Hsec as [HInv1 Hsec]. split; [done|]. cbn.
        exists (k a), s0. split; [by rewrite list_lookup_insert_eq|]. split; [done|].
        intros j cj Hjh Hj. rewrite list_lookup_insert_ne in Hj by done. eauto.
    + specialize (Hothers i c Hne Hi). apply T_step in Hothers.
      destruct c; cbn in Hc; done.
  - pose proof (T_step _ _ _ (Hth i c Hi)) as Hshape.
    destruct c as [r|k|k|A op k]; cbn in Hc; try done.
    injection Hc as <- <- <-. split; [done|]. cbn.
    exists k, s. split; [by rewrite list_lookup_insert_eq|]. split; [by apply Hshape|].
    intros j cj Hji Hj. rewrite list_lookup_insert_ne in Hj by done. eauto.
Qed.

Lemma pool_inv_rtc (p p' : Pool R) :
  pool_inv Inv G T p -> rtc pool_step p p' -> pool_inv Inv G T p'.
Proof. intros Hp Hsteps. induction Hsteps; eauto using pool_inv_step. Qed.

(** When every thread has finished, the lock is free. *)
Lemma pool_inv_finished (p : Pool R) :
  pool_inv Inv G T p -> finished p ->
  pool_lock p = None ∧ ∀ i c, pool_threads p !! i = Some c -> T i c (pool_store p).
Proof.
  intros [_ Hth] Hfin. destruct (pool_lock p) as [h|]; [|done].
  destruct Hth as (c & s0 & Hh & Hsec & _).
  unfold finished in Hfin. rewrite Forall_lookup in Hfin. specialize (Hfin h c Hh).
  destruct c; cbn in Hsec, Hfin; try done; by destruct Hfin.
Qed.

(** No deadlock: a pool that has not finished can take a step. *)
Lemma pool_inv_progress (p : Pool R) :
  pool_inv Inv G T p -> finished p ∨ ∃ p', pool_step p p'.
Proof.
  intros [HInv Hth]. destruct p as [s holder ts]. cbn [pool_store pool_lock pool_threads] in *.
  destruct holder as [h|].
  - right. destruct Hth as (c & s0 & Hh & Hsec & _).
    destruct c as [r|k|k|A op k]; cbn in Hsec; try done.
    + eexists. by eapply (pool_step_thread s (Some h) ts h (Release k)).
    + destruct (db_exec op s) as [s1 a] eqn:Hop.
      eexists. eapply (pool_step_thread s (Some h) ts h (Db op k)); [done|].
      cbn. by rewrite Hop.
  - destruct (decide (Forall (fun c => is_Some (outcome c)) ts)) as [Hall|Hnot]; [by left|].
    right. apply not_Forall_Exists in Hnot; [|apply _].
    apply Exists_exists in Hnot as (c & Hin & Hc).
    apply list_elem_of_lookup in Hin as [i Hi].
    pose proof (T_step _ _ _ (Hth i c Hi)) as Hshape.
    destruct c as [r|k|k|A op k]; try done.
    + destruct Hc. by eexists.
    + eexists. by eapply (pool_step_thread s None ts i (Acquire k)).
Qed.

End PoolInvariant.

(** A step of the pool keeps the number of threads. *)
Lemma pool_step_length {R} (p p' : Pool R) :
  pool_step p p' -> length (pool_threads p') = length (pool_threads p).
Proof. intros [? ? ? ? ? ? ? ? _ _]. cbn. apply length_insert. Qed.

Lemma pool_rtc_length {R} (p p' : Pool R) :
  rtc pool_step p p' -> length (pool_threads p') = length (pool_threads p).
Proof.
  induction 1 as [|p p1 p2 Hstep _ IH]; [done|]. rewrite IH. by apply pool_step_length.
Qed.

(** ** Termination of a pool *)

Section PoolTermination.

Context {R : Type}.

Lemma thread_step_bounded i (c c' : Cmd R) s holder s' holder' n :
  bounded n c -> thread_step i c s holder = Some (c', s', holder') ->
  ∃ m, n = S m ∧ bounded m c'.
Proof.
  destruct c as [r|k|k|A op k]; cbn; try done.
  - destruct holder; [done|]. intros Hb [= <- <- <-]. destruct n; [done|]. eauto.
  - destruct holder; [|done]. intros Hb [= <- <- <-]. destruct n; [done|]. eauto.
  - destruct (db_exec op s) as [s1 a]. intros Hb [= <- <- <-]. destruct n; [done|]. eauto.
Qed.

Lemma sum_list_insert (ns : list nat) i n m :
  ns !! i = Some (S m) -> n = m -> S (sum_list (<[i := n]> ns)) = sum_list ns.
Proof.
  intros Hi ->. revert i Hi. induction ns as [|x ns IH]; intros [|i]; cbn; try done.
  - by intros [= ->].
  - intros Hi. specialize (IH i Hi). rewrite <- IH, Nat.add_succ_r. reflexivity.
Qed.

(** A pool whose threads have [ns] actions left takes at most
    [sum_list ns] steps. *)
Lemma pool_steps_bounded (n : nat) (p p' : Pool R) (ns : list nat) :
  nsteps pool_step n p p' -> Forall2 bounded ns (pool_threads p) -> (n <= sum_list ns)%nat.
Proof.
  intros Hsteps. revert ns. induction Hsteps as [|n p p1 p2 Hstep _ IH]; intros ns Hb; [lia|].
  destruct Hstep as [s holder ts i c c' s' holder' Hi Hc].
  cbn [pool_threads] in *.
  destruct (Forall2_lookup_r _ _ _ _ _ Hb Hi) as (ni & Hni & Hbi).
  destruct (thread_step_bounded _ _ _ _ _ _ _ _ Hbi Hc) as (m & -> & Hm).
  specialize (IH (<[i := m]> ns)).
  rewrite <- (sum_list_insert ns i m m Hni eq_refl).
  apply le_n_S, IH. by apply Forall2_insert.
Qed.

End PoolTermination.

(** ** The player batch *)

Section PlayerBatch.

Variable web : Driver.

Lemma task_start_shape player_link :
  match task_read web player_link with
  | Ret (page, bio) =>
      scrape_single_player web player_link =
      Acquire (cmd_bind (cmd_bind (cmd_bind (upsert_player_body bio) unlock)
                                  (and_then (stats_phase page)))
                        (handle any_exception (fun _ => mret false)))
  | Raise _ => ∃ r, scrape_single_player web player_link = Done r ∧ r ≠ Ret true
  end.
Proof.
  unfold task_read, scrape_single_player, create_driver, scrape_player_with_driver, driver_get.
  destruct (browser_starts web player_link); cbn; [|by eexists].
  destruct (player_page web player_link) as [page|]; cbn; [|by eexists].
  destruct (extract_bio page player_link) as [bio|e]; cbn; [done|by eexists].
Qed.

Lemma stats_phase_shape page player :
  match collect_stats page with
  | Ret sd =>
      cmd_bind (stats_phase page player) (handle any_exception (fun _ => mret false)) =
      Acquire (cmd_bind (cmd_bind (cmd_bind (cmd_bind (upsert_data_body player sd) unlock)
                                            (and_then (fun _ => mret true)))
                                  (handle any_exception (fun _ => mret true)))
                        (handle any_exception (fun _ => mret false)))
  | Raise _ =>
      cmd_bind (stats_phase page player) (handle any_exception (fun _ => mret false)) =
      Done (Ret true)
  end.
Proof. unfold stats_phase, try_catch, lift. by destruct (collect_stats page). Qed.

Variable s0 : Store.
Variable player_links : list string.

#[local] Abbreviation Inv := (batch_inv s0).
#[local] Abbreviation T := (batch_thread web s0 player_links).

Lemma section_guarantee_batch s s' :
  batch_inv s0 s -> section_guarantee s s' -> batch_inv s0 s' ∧ batch_guarantee s s'.
Proof.
  intros [_ Hc] (Hwf & Hc' & _ & Hmono). split; [|done]. split; [done|congruence].
Qed.

Lemma batch_T_step i c s :
  T i c s ->
  match c with
  | Done _ => True
  | Acquire k => Inv s -> in_section Inv k s (fun k' s' => batch_guarantee s s' ∧ T i k' s')
  | _ => False
  end.
Proof.
  intros (link & Hlink & [->|[(page & fid & player & Hplan & -> & Hpl)|(r & -> & _)]]);
    [| |done].
  - (* not started *)
    pose proof (task_start_shape link) as Hshape.
    destruct (task_read web link) as [[page bio]|e] eqn:Hread.
    2: { by destruct Hshape as (r & -> & _). }
    rewrite Hshape. intros [Hwf Hclubs].
    do 2 apply in_section_cmd_bind. apply in_section_unlock.
    eapply wp_db_weaken; [|eapply wp_db_mono; [|by apply wp_upsert_player_body]].
    { intros s' Hg. by eapply section_guarantee_batch. }
    cbn beta. intros r s' (Hg & _ & Hpost).
    destruct (section_guarantee_batch s s' (conj Hwf Hclubs) Hg) as [_ HG].
    split; [done|]. exists link. split; [done|].
    rewrite Hclubs in Hpost.
    destruct (planned_write bio (clubs s0)) as [[fid' d]|e] eqn:Hpw.
    + destruct Hpost as (player & -> & _ & Hnew & _). right. left.
      exists page, fid', player. split; [|split; [done|by rewrite Hnew]].
      unfold task_plan. by rewrite Hread; cbn; rewrite Hpw.
    + destruct Hpost as ([e' ->] & ->). right. right. exists (Ret false). split; [done|].
      unfold task_plan. by rewrite Hread; cbn; rewrite Hpw.
  - (* between the two sections *)
    pose proof (stats_phase_shape page player) as Hshape.
    destruct (collect_stats page) as [sd|e]; rewrite Hshape; [|done].
    intros [Hwf Hclubs].
    do 3 apply in_section_cmd_bind. apply in_section_unlock.
    eapply wp_db_weaken; [|eapply wp_db_mono; [|by apply wp_upsert_data_body]].
    { intros s' Hg. by eapply section_guarantee_batch. }
    cbn beta. intros r s' (Hg & Hps & _).
    destruct (section_guarantee_batch s s' (conj Hwf Hclubs) Hg) as [_ HG].
    split; [done|]. exists link. split; [done|]. right. right.
    exists (Ret true). split; [by destruct r|].
    rewrite Hplan. split; [done|]. by apply HG.
Qed.

Lemma batch_T_stable i c s s' : T i c s -> batch_guarantee s s' -> T i c s'.
Proof.
  intros (link & Hlink & Hat) HG. exists link. split; [done|].
  destruct Hat as [->|[(page & fid & player & Hplan & -> & Hpl)|(r & -> & Hr)]].
  - by left.
  - right. left. exists page, fid, player. auto.
  - right. right. exists r. split; [done|].
    destruct (task_plan web (clubs s0) link) as [[? fid]|]; [|done].
    destruct Hr. auto.
Qed.

Lemma batch_start_inv :
  wf_store s0 -> pool_inv Inv batch_guarantee T (batch_start web player_links s0).
Proof.
  intros Hwf. split; [done|]. cbn. intros i c Hi.
  rewrite list_lookup_fmap in Hi. destruct (player_links !! i) as [link|] eqn:Hl; [|done].
  injection Hi as <-. exists link. split; [done|by left].
Qed.

(** What [T] says of a finished thread. *)
Lemma task_at_done cs link r s :
  task_at web cs link (Done r) s ->
  match task_plan web cs link with
  | Ret (_, fid) => r = Ret true ∧ players_with fid s ≠ []
  | Raise _ => r ≠ Ret true
  end.
Proof.
  intros [Hstart|[(page & fid & player & Hplan & Hc & Hpl)|(r' & [= <-] & Hr)]]; [| |done].
  - pose proof (task_start_shape link) as Hshape. unfold task_plan.
    destruct (task_read web link) as [[page bio]|e]; [congruence|].
    cbn. destruct Hshape as (r' & Hr' & Hne). congruence.
  - rewrite Hplan. pose proof (stats_phase_shape page player) as Hshape.
    destruct (collect_stats page); [congruence|]. split; [congruence|done].
Qed.

End PlayerBatch.

(** ** Lock discipline and length of the programs *)

Section Discipline.

Lemma lock_disc_cmd_bind {R S} (a b d : bool) (c : Cmd R) (f : R -> Cmd S) :
  lock_disc a b c -> (∀ r, lock_disc b d (f r)) -> lock_disc a d (cmd_bind c f).
Proof.
  intros Hc Hf. revert a Hc. induction c as [r|k IH|k IH|A op k IH]; intros a; cbn.
  - intros ->. apply Hf.
  - intros [-> ?]. auto.
  - intros [-> ?]. auto.
  - intros [-> ?]. auto.
Qed.

Lemma lock_disc_and_then {A B} (h : bool) (f : A -> M B) r :
  (∀ a, lock_disc h h (f a)) -> lock_disc h h (and_then f r).
Proof. intros Hf. destruct r; cbn; [apply Hf|done]. Qed.

Lemma lock_disc_mbind {A B} (h : bool) (m : M A) (f : A -> M B) :
  lock_disc h h m -> (∀ a, lock_disc h h (f a)) -> lock_disc h h (m ≫= f).
Proof.
  intros Hm Hf. eapply lock_disc_cmd_bind; [done|]. intros r. by apply lock_disc_and_then.
Qed.

Lemma lock_disc_try_catch {A} (h : bool) catches (body : M A) (handler : exn -> M A) :
  lock_disc h h body -> (∀ e, lock_disc h h (handler e)) ->
  lock_disc h h (try_catch catches body handler).
Proof.
  intros Hm Hf. eapply lock_disc_cmd_bind; [done|]. intros [a|e]; cbn; [done|].
  destruct (catches e); [apply Hf|done].
Qed.

Lemma lock_disc_with_lock {A} (body : M A) :
  lock_disc true true body -> lock_disc false false (with_lock body).
Proof.
  intros Hb. split; [done|]. eapply lock_disc_cmd_bind; [done|]. by intros r.
Qed.

Lemma lock_disc_update_or_create {Row} (select : DbOp (list Row)) update insert :
  lock_disc true true (update_or_create select update insert).
Proof.
  unfold update_or_create. apply lock_disc_mbind; [by split|].
  intros [|row [|row' rows]]; [| |done].
  - apply lock_disc_mbind; [|done]. split; [done|]. by intros [?|?].
  - apply lock_disc_mbind; [|done]. split; [done|]. by intros [?|?].
Qed.

Lemma lock_disc_upsert_player bio : lock_disc false false (upsert_player bio).
Proof.
  apply lock_disc_with_lock. unfold upsert_player_body.
  apply lock_disc_mbind.
  { apply lock_disc_try_catch; [|done]. apply lock_disc_mbind; [|done].
    unfold objects_get. apply lock_disc_mbind; [by split|]. by intros [|row [|row' rows]]. }
  intros club. apply lock_disc_mbind; [done|]. intros d.
  apply lock_disc_mbind; [done|]. intros fid.
  apply lock_disc_mbind; [apply lock_disc_update_or_create|]. by intros [player created].
Qed.

Lemma lock_disc_upsert_data player sd : lock_disc false false (upsert_data player sd).
Proof.
  apply lock_disc_with_lock. unfold upsert_data_body.
  apply lock_disc_mbind; [apply lock_disc_update_or_create|]. by intros [row created].
Qed.

(** Every statement a player task sends is sent inside [with db_lock]. *)
Lemma lock_disc_player_task web player_link :
  lock_disc false false (scrape_single_player web player_link).
Proof.
  unfold scrape_single_player. apply lock_disc_mbind; [done|]. intros driver.
  unfold scrape_player_with_driver. apply lock_disc_try_catch; [|done].
  apply lock_disc_mbind; [done|]. intros page. apply lock_disc_mbind; [done|]. intros bio.
  apply lock_disc_mbind; [apply lock_disc_upsert_player|]. intros player.
  unfold stats_phase. apply lock_disc_try_catch; [|done].
  apply lock_disc_mbind; [done|]. intros sd.
  apply lock_disc_mbind; [apply lock_disc_upsert_data|done].
Qed.

Lemma lock_disc_no_unlocked_writes {R} (held post : bool) (c : Cmd R) s :
  lock_disc held post c -> unlocked_writes held c s = 0%nat.
Proof.
  revert held s. induction c as [r|k IH|k IH|A op k IH]; intros held s; cbn.
  - done.
  - intros [_ ?]. eauto.
  - intros [_ ?]. eauto.
  - intros [-> Hk]. destruct (db_exec op s) as [s1 a]. rewrite andb_false_r. cbn. eauto.
Qed.

(** The league stage never takes the lock. *)
Lemma lock_free_cmd_bind {R S} (c : Cmd R) (f : R -> Cmd S) :
  lock_free c -> (∀ r, lock_free (f r)) -> lock_free (cmd_bind c f).
Proof. intros Hc Hf. induction c as [r|k IH|k IH|A op k IH]; cbn in *; auto. Qed.

Lemma lock_free_mbind {A B} (m : M A) (f : A -> M B) :
  lock_free m -> (∀ a, lock_free (f a)) -> lock_free (m ≫= f).
Proof. intros Hm Hf. apply lock_free_cmd_bind; [done|]. intros [a|e]; cbn; auto. Qed.

Lemma lock_free_get_or_create {Row} (select : DbOp (list Row)) insert :
  lock_free (get_or_create select insert).
Proof.
  unfold get_or_create. apply lock_free_mbind; [by intros ?|].
  intros [|row [|row' rows]]; [|done|done].
  apply lock_free_mbind; [|done]. by intros [?|?].
Qed.

Lemma lock_free_get_squad_links driver urls : lock_free (get_squad_links driver urls).
Proof.
  unfold get_squad_links. apply lock_free_cmd_bind; [|by intros [?|?]].
  generalize (@nil string). induction urls as [|url rest IH]; intros acc; [done|].
  cbn [squad_urls_loop]. apply lock_free_mbind; [|done].
  unfold squad_url_step. apply lock_free_mbind; [done|]. intros page.
  apply lock_free_mbind; [done|]. intros _. apply lock_free_mbind; [done|]. intros title.
  generalize (get_text_or_none title). intros league_title. revert acc.
  induction (default [] (table_container page)) as [|link links IHl]; intros acc; [done|].
  cbn [squad_links_loop]. apply lock_free_mbind; [|done].
  unfold squad_link_step. destruct (href link) as [h|]; [|done].
  destruct (_ && _); [|done].
  apply lock_free_mbind; [done|]. intros team_name.
  apply lock_free_mbind; [apply lock_free_get_or_create|]. intros [league created].
  apply lock_free_mbind; [apply lock_free_get_or_create|done].
Qed.

(** *** Bounds on the number of actions *)

Lemma bounded_mono {R} (n m : nat) (c : Cmd R) : bounded n c -> (n <= m)%nat -> bounded m c.
Proof.
  revert n m. induction c as [r|k IH|k IH|A op k IH]; intros n m; cbn; [done|..];
    destruct n as [|n], m as [|m]; try done; try lia.
  - intros H Hle. eapply IH; [apply H|lia].
  - intros H Hle. eapply IH; [apply H|lia].
  - intros H Hle a. eapply IH; [apply H|lia].
Qed.

Lemma bounded_cmd_bind {R S} (n m : nat) (c : Cmd R) (f : R -> Cmd S) :
  bounded n c -> (∀ r, bounded m (f r)) -> bounded (n + m) (cmd_bind c f).
Proof.
  intros Hc Hf. revert n Hc. induction c as [r|k IH|k IH|A op k IH]; intros n; cbn.
  - intros _. eapply bounded_mono; [apply Hf|lia].
  - destruct n as [|n]; [done|]. cbn. auto.
  - destruct n as [|n]; [done|]. cbn. auto.
  - destruct n as [|n]; [done|]. cbn. auto.
Qed.

Lemma bounded_mbind {A B} (n m : nat) (c : M A) (f : A -> M B) :
  bounded n c -> (∀ a, bounded m (f a)) -> bounded (n + m) (c ≫= f).
Proof. intros Hc Hf. apply bounded_cmd_bind; [done|]. intros [a|e]; cbn; auto. Qed.

Lemma bounded_try_catch {A} (n : nat) catches (body : M A) (handler : exn -> M A) :
  bounded n body -> (∀ e, bounded 0 (handler e)) ->
  bounded n (try_catch catches body handler).
Proof.
  intros Hb Hh. rewrite <- (Nat.add_0_r n). apply bounded_cmd_bind; [done|].
  intros [a|e]; cbn; [done|]. destruct (catches e); [apply Hh|done].
Qed.

Lemma bounded_with_lock {A} (n : nat) (body : M A) :
  bounded n body -> bounded (S (n + 1)) (with_lock body).
Proof. intros Hb. cbn. apply bounded_cmd_bind; [done|]. by intros r. Qed.

Lemma bounded_update_or_create {Row} (select : DbOp (list Row)) update insert :
  bounded 2 (update_or_create select update insert).
Proof.
  unfold update_or_create. apply (bounded_mbind 1 1); [by intros ?|].
  intros [|row [|row' rows]]; [| |done].
  - apply (bounded_mbind 1 0); [|done]. by intros [?|?].
  - apply (bounded_mbind 1 0); [|done]. by intros [?|?].
Qed.

Lemma bounded_upsert_player bio : bounded 5 (upsert_player bio).
Proof.
  apply (bounded_with_lock 3). unfold upsert_player_body.
  apply (bounded_mbind 1 2).
  { apply bounded_try_catch; [|done]. apply (bounded_mbind 1 0); [|done].
    unfold objects_get. apply (bounded_mbind 1 0); [by intros ?|]. by intros [|row [|row' rows]]. }
  intros club. apply (bounded_mbind 0 2); [done|]. intros d.
  apply (bounded_mbind 0 2); [done|]. intros fid.
  apply (bounded_mbind 2 0); [apply bounded_update_or_create|]. by intros [player created].
Qed.

Lemma bounded_upsert_data player sd : bounded 4 (upsert_data player sd).
Proof.
  apply (bounded_with_lock 2). unfold upsert_data_body.
  apply (bounded_mbind 2 0); [apply bounded_update_or_create|]. by intros [row created].
Qed.

(** A player task performs at most nine actions. *)
Lemma bounded_player_task web player_link :
  bounded 9 (scrape_single_player web player_link).
Proof.
  unfold scrape_single_player. apply (bounded_mbind 0 9); [done|]. intros driver.
  unfold scrape_player_with_driver. apply bounded_try_catch; [|done].
  apply (bounded_mbind 0 9); [done|]. intros page.
  apply (bounded_mbind 0 9); [done|]. intros bio.
  apply (bounded_mbind 5 4); [apply bounded_upsert_player|]. intros player.
  unfold stats_phase. apply bounded_try_catch; [|done].
  apply (bounded_mbind 0 4); [done|]. intros sd.
  apply (bounded_mbind 4 0); [apply bounded_upsert_data|done].
Qed.

End Discipline.

(** ** C6 and C9: the player pool *)

Section BatchOutcome.

Variable web : Driver.

Lemma task_read_inv player_link page bio :
  task_read web player_link = Ret (page, bio) ->
  browser_starts web player_link = true ∧
  player_page web player_link = Some page ∧
  extract_bio page player_link = Ret bio.
Proof.
  unfold task_read, create_driver, driver_get.
  destruct (browser_starts web player_link); [|discriminate]. cbn.
  destruct (player_page web player_link) as [page'|]; [|discriminate]. cbn.
  destruct (extract_bio page' player_link) as [bio'|] eqn:Hbio; [|discriminate]. cbn.
  intros [= <- <-]. by rewrite Hbio.
Qed.

Lemma run_single_player player_link page bio s :
  task_read web player_link = Ret (page, bio) ->
  run (scrape_single_player web player_link) s =
  match run (upsert_player bio) s with
  | (s1, Ret player) => run (stats_phase page player) s1
  | (s1, Raise _) => (s1, Ret false)
  end.
Proof.
  intros (Hstart & Hpage & Hbio)%task_read_inv.
  unfold scrape_single_player, create_driver. rewrite Hstart. run_simpl.
  by apply run_scrape_player.
Qed.

Lemma succeeds_alone_plan s player_link :
  wf_store s ->
  succeeds_alone web s player_link = true ↔
  ∃ x, task_plan web (clubs s) player_link = Ret x.
Proof.
  intros Hwf. unfold succeeds_alone. rewrite bool_decide_eq_true. unfold task_plan.
  pose proof (task_start_shape web player_link) as Hshape.
  destruct (task_read web player_link) as [[page bio]|e] eqn:Hread.
  - rewrite (run_single_player _ _ _ _ Hread).
    destruct (planned_write bio (clubs s)) as [[fid d]|e] eqn:Hplan.
    + destruct (run_upsert_player bio s fid d Hwf Hplan) as (s1 & player & -> & Hg & _).
      destruct Hg as [Hwf1 _]. pose proof (run_stats_phase page player s1 Hwf1) as Hphase.
      destruct (collect_stats page).
      * destruct Hphase as (row & -> & _). cbn. rewrite Hplan. cbn. split; [eauto|done].
      * rewrite Hphase. cbn. rewrite Hplan. cbn. split; [eauto|done].
    + destruct (run_upsert_player_fails bio s e Hwf Hplan) as [e' ->]. cbn.
      rewrite Hplan. cbn. split; [done|]. by intros [? ?].
  - destruct Hshape as (r & -> & Hr). cbn. split; [done|]. by intros [? ?].
Qed.

Lemma extract_bio_fotmob_id page player_link bio :
  extract_bio page player_link = Ret bio ->
  Py.index_from_end (Py.split_on "/" player_link) 2 = Ret (bio_fotmob_id bio).
Proof.
  unfold extract_bio.
  destruct (wait_presence _); [|discriminate]. cbn [mbind result_bind].
  destruct (find_element (player_name_element page)); [|discriminate]. cbn [mbind result_bind].
  destruct (find_element (team_element page)); [|discriminate]. cbn [mbind result_bind].
  destruct (as_str _); [|discriminate]. cbn [mbind result_bind].
  destruct (Py.join _ _); [|discriminate]. cbn [mbind result_bind].
  destruct (Py.index_from_end _ _); [|discriminate]. cbn [mbind result_bind].
  by intros [= <-].
Qed.

Lemma task_plan_fotmob_id cs player_link page fid :
  task_plan web cs player_link = Ret (page, fid) -> link_fotmob_id player_link = Some fid.
Proof.
  unfold task_plan, link_fotmob_id.
  destruct (task_read web player_link) as [[page' bio]|e] eqn:Hread; [|discriminate]. cbn.
  apply task_read_inv in Hread as (_ & _ & Hbio%extract_bio_fotmob_id). rewrite Hbio. cbn.
  unfold planned_write.
  destruct (club_lookup _ _); [|discriminate]. cbn.
  destruct (player_defaults _ _); [|discriminate]. cbn.
  destruct (Py.int _); [|discriminate]. cbn.
  destruct (player_row _ _ _); [|discriminate]. cbn. by intros [= _ <-].
Qed.

(** *** Counting *)

Lemma count_results_spec done a b :
  count_results done a b =
  ((a + length (filter is_success done))%nat,
   (b + length (filter (fun r => negb (is_success r)) done))%nat).
Proof.
  revert a b. induction done as [|r rest IH]; intros a b; cbn [count_results].
  { cbn. by rewrite !Nat.add_0_r. }
  destruct r as [[|]|e]; rewrite IH.
  - rewrite filter_cons_True by done. rewrite filter_cons_False by (by intros []).
    cbn. f_equal; lia.
  - rewrite filter_cons_False by (by intros []). rewrite filter_cons_True by done.
    cbn. f_equal; lia.
  - rewrite filter_cons_False by (by intros []). rewrite filter_cons_True by done.
    cbn. f_equal; lia.
Qed.

Lemma filter_length_Forall2 {A B} (P : A -> bool) (Q : B -> bool) (l : list A) (k : list B) :
  Forall2 (fun x y => P x = Q y) l k -> length (filter P l) = length (filter Q k).
Proof.
  induction 1 as [|x y l k Hxy _ IH]; [done|].
  symmetry in Hxy. destruct (P x) eqn:HP.
  - rewrite (filter_cons_True _ x l) by (by rewrite HP).
    rewrite (filter_cons_True _ y k) by (by rewrite Hxy). cbn. by rewrite IH.
  - rewrite (filter_cons_False _ x l) by (rewrite HP; intros []).
    by rewrite (filter_cons_False _ y k) by (rewrite Hxy; intros []).
Qed.

Lemma filter_length_split {A} (P : A -> bool) (l : list A) :
  (length (filter P l) + length (filter (fun x => negb (P x)) l) = length l)%nat.
Proof.
  induction l as [|x l IH]; [done|]. destruct (P x) eqn:HP.
  - rewrite (filter_cons_True _ x l) by (by rewrite HP).
    rewrite (filter_cons_False _ x l) by (rewrite HP; intros []). cbn. lia.
  - rewrite (filter_cons_False _ x l) by (rewrite HP; intros []).
    rewrite (filter_cons_True _ x l) by (by rewrite HP). cbn. lia.
Qed.

Lemma finished_threads {R} (p : Pool R) :
  finished p -> pool_threads p = Done <$> omap outcome (pool_threads p).
Proof.
  unfold finished. induction 1 as [|c l [r Hr] _ IH]; [done|].
  destruct c; try discriminate. cbn. by rewrite <- IH.
Qed.

(** *** Schedules *)

Lemma pool_exec_rtc {R} (schedule : list nat) (p : Pool R) :
  rtc pool_step p (pool_exec schedule p).
Proof.
  unfold pool_exec. revert p. induction schedule as [|i rest IH]; intros p; [done|].
  cbn [foldl]. etrans; [|apply IH]. unfold pool_exec_step.
  destruct p as [s holder ts]. cbn [pool_threads pool_store pool_lock].
  destruct (ts !! i) as [c|] eqn:Hi; [|done].
  destruct (thread_step i c s holder) as [[[c' s'] holder']|] eqn:Hc; [|done].
  apply rtc_once. by econstructor.
Qed.

Lemma finishedb_true {R} (p : Pool R) : finishedb p = true -> finished p.
Proof.
  unfold finishedb, finished. rewrite forallb_forall, Forall_forall.
  intros H c Hc%list_elem_of_In. specialize (H c Hc). by apply bool_decide_eq_true in H.
Qed.

End BatchOutcome.

Section BatchTheorems.

Variable web : Driver.
Variable player_links : list string.
Variable s0 : Store.
Hypothesis s0_wf : wf_store s0.

Lemma batch_reachable_inv p :
  rtc pool_step (batch_start web player_links s0) p ->
  pool_inv (batch_inv s0) batch_guarantee (batch_thread web s0 player_links) p.
Proof.
  apply pool_inv_rtc.
  - apply batch_T_step.
  - apply batch_T_stable.
  - by apply batch_start_inv.
Qed.

Lemma batch_bounded :
  Forall2 bounded (replicate (length player_links) 9%nat)
          (pool_threads (batch_start web player_links s0)).
Proof.
  cbn. induction player_links as [|link rest IH]; cbn; constructor; [|done].
  apply bounded_player_task.
Qed.

Lemma sum_list_replicate n m : sum_list (replicate n m) = (n * m)%nat.
Proof. induction n as [|n IH]; cbn; [done|]. rewrite IH. lia. Qed.

(** A finished pool holds, for each link, the outcome the task has alone. *)
Lemma batch_finished_outcomes p :
  rtc pool_step (batch_start web player_links s0) p -> finished p ->
  Forall2 (fun link r => succeeds_alone web s0 link = is_success r)
          player_links (omap outcome (pool_threads p)) ∧
  ∀ link, link ∈ player_links -> succeeds_alone web s0 link = true ->
    ∃ fid, link_fotmob_id link = Some fid ∧ players_with fid (pool_store p) ≠ [].
Proof.
  intros Hreach Hfin.
  destruct (pool_inv_finished _ _ _ p (batch_reachable_inv p Hreach) Hfin) as [_ HT].
  pose proof (pool_rtc_length _ _ Hreach) as Hlen. cbn in Hlen. rewrite length_fmap in Hlen.
  pose proof (finished_threads p Hfin) as Hthreads.
  set (results := omap outcome (pool_threads p)) in *.
  assert (length results = length player_links) as Hlen'.
  { rewrite <- Hlen, Hthreads. by rewrite length_fmap. }
  assert (∀ i link r, player_links !! i = Some link -> results !! i = Some r ->
            match task_plan web (clubs s0) link with
            | Ret (_, fid) => r = Ret true ∧ players_with fid (pool_store p) ≠ []
            | Raise _ => r ≠ Ret true
            end) as Hdone.
  { intros i link r Hlink Hr.
    assert (pool_threads p !! i = Some (Done r)) as Hi.
    { rewrite Hthreads, list_lookup_fmap, Hr. done. }
    destruct (HT i _ Hi) as (link' & Hlink' & Hat).
    assert (link' = link) as -> by congruence.
    by apply task_at_done. }
  split.
  - apply Forall2_same_length_lookup_2; [done|]. intros i link r Hlink Hr.
    specialize (Hdone i link r Hlink Hr).
    pose proof (succeeds_alone_plan web s0 link s0_wf) as Hplan.
    destruct (task_plan web (clubs s0) link) as [[page fid]|e].
    + destruct Hdone as [-> _]. apply Hplan. eauto.
    + unfold is_success. rewrite bool_decide_eq_false_2 by done.
      destruct (succeeds_alone web s0 link); [|done].
      by destruct (proj1 Hplan eq_refl).
  - intros link [i Hlink]%list_elem_of_lookup Hok.
    destruct (lookup_lt_is_Some_2 results i) as [r Hr].
    { rewrite Hlen'. by eapply lookup_lt_Some. }
    specialize (Hdone i link r Hlink Hr).
    apply (succeeds_alone_plan web s0 link s0_wf) in Hok as [[page fid] Hplan].
    rewrite Hplan in Hdone. exists fid. split; [|by destruct Hdone].
    by eapply task_plan_fotmob_id.
Qed.

End BatchTheorems.

Lemma filter_length_ext {A} (P Q : A -> bool) (l : list A) :
  (∀ x, P x = Q x) -> length (filter P l) = length (filter Q l).
Proof.
  intros H. apply filter_length_Forall2. induction l; constructor; auto.
Qed.

Lemma task_plan_ok_alone web s player_link :
  wf_store s -> task_plan_ok web (clubs s) player_link = succeeds_alone web s player_link.
Proof.
  intros Hwf. pose proof (succeeds_alone_plan web s player_link Hwf) as H.
  unfold task_plan_ok. destruct (task_plan web (clubs s) player_link) as [x|e].
  - symmetry. apply H. eauto.
  - destruct (succeeds_alone web s player_link); [|done].
    by destruct (proj1 H eq_refl).
Qed.

(** A task in which an exception is raised before the [Player] row is
    written returns something else than [True] and writes nothing. *)
Lemma run_task_raises_early web s player_link e :
  wf_store s -> task_plan web (clubs s) player_link = Raise e ->
  ∃ r, run (scrape_single_player web player_link) s = (s, r) ∧ r ≠ Ret true.
Proof.
  intros Hwf. unfold task_plan.
  pose proof (task_start_shape web player_link) as Hshape.
  destruct (task_read web player_link) as [[page bio]|e'] eqn:Hread.
  - cbn. destruct (planned_write bio (clubs s)) as [[fid d]|e'] eqn:Hplan; [discriminate|].
    intros _. rewrite (run_single_player _ _ _ _ _ Hread).
    destruct (run_upsert_player_fails bio s e' Hwf Hplan) as [e'' ->]. by eexists.
  - intros _. destruct Hshape as (r & -> & Hr). by exists r.
Qed.

(** A task in which an exception is raised in the statistics phase returns
    [True]: its [Player] row is written, the [Data] table is left alone. *)
Lemma run_task_raises_late web s player_link page bio fid defaults e :
  wf_store s -> task_read web player_link = Ret (page, bio) ->
  planned_write bio (clubs s) = Ret (fid, defaults) ->
  collect_stats page = Raise e ->
  ∃ s1 row, run (scrape_single_player web player_link) s = (s1, Ret true) ∧
            players_with fid s1 = [row] ∧ datas s1 = datas s.
Proof.
  intros Hwf Hread Hplan Hstats. rewrite (run_single_player _ _ _ _ _ Hread).
  destruct (run_upsert_player bio s fid defaults Hwf Hplan)
    as (s1 & player & -> & [Hwf1 _] & Hdatas & _ & Hrow & _).
  pose proof (run_stats_phase page player s1 Hwf1) as Hphase. rewrite Hstats in Hphase.
  exists s1, player. by rewrite Hphase.
Qed.

(** C6, as the code has it.  A batch of player tasks always runs to
    completion, under every schedule of the pool and of the lock: from the
    pool in which all tasks have been submitted, a pool that has not finished
    can take a step, and no execution takes more than nine steps per task.
    A task is counted a failure exactly when an exception is raised before
    its [Player] row is written: starting the browser, loading the page,
    reading the profile, looking the club up or writing the row.  Such a
    task writes nothing.  An exception raised afterwards, in the statistics
    phase, is swallowed: the task returns [True], its [Player] row stays
    and no [Data] row is written; a missing statistics block is one such
    exception.  When the batch has finished, the number of successes counted
    is the number of links whose task raises nothing before its [Player]
    row is written, the number of failures counted is the number of the
    other links, and the store is well formed and holds a [Player] row for
    the id of every link counted a success. *)
Theorem player_batch_isolates_failures (web : Driver) (player_links : list string)
    (s0 : Store) :
  wf_store s0 ->
  (∀ p, rtc pool_step (batch_start web player_links s0) p ->
        finished p ∨ ∃ p', pool_step p p') ∧
  (∀ n p, nsteps pool_step n (batch_start web player_links s0) p ->
          (n <= 9 * length player_links)%nat) ∧
  (∀ link e,
     task_plan web (clubs s0) link = Raise e ->
     ∃ r, run (scrape_single_player web link) s0 = (s0, r) ∧ r ≠ Ret true) ∧
  (∀ link page bio fid defaults e,
     task_read web link = Ret (page, bio) ->
     planned_write bio (clubs s0) = Ret (fid, defaults) ->
     collect_stats page = Raise e ->
     ∃ s1 row, run (scrape_single_player web link) s0 = (s1, Ret true) ∧
               players_with fid s1 = [row] ∧ datas s1 = datas s0) ∧
  (∀ page, stat_items page = [] -> collect_stats page = Raise TimeoutException) ∧
  (∀ max_workers s' successful_count failed_count,
     get_player_data_multithreaded web player_links max_workers s0 s'
                                   successful_count failed_count ->
     successful_count = length (filter (task_plan_ok web (clubs s0)) player_links) ∧
     failed_count =
       length (filter (fun link => negb (task_plan_ok web (clubs s0) link)) player_links) ∧
     (successful_count + failed_count = length player_links)%nat ∧
     wf_store s' ∧
     ∀ link, link ∈ player_links -> task_plan_ok web (clubs s0) link = true ->
       ∃ fid row, link_fotmob_id link = Some fid ∧ players_with fid s' = [row]).
Proof.
  intros Hwf. split; [|split; [|split; [|split; [|split]]]].
  - intros p Hreach.
    eapply pool_inv_progress; [apply batch_T_step|by apply batch_reachable_inv].
  - intros n p Hsteps.
    pose proof (pool_steps_bounded n _ _ _ Hsteps (batch_bounded web player_links s0)) as Hle.
    rewrite sum_list_replicate in Hle. lia.
  - intros link e. by apply run_task_raises_early.
  - intros link page bio fid defaults e. by apply run_task_raises_late.
  - intros page Hnone. unfold collect_stats. by rewrite Hnone.
  - intros max_workers s' sc fc (_ & p & done & Hreach & Hfin & <- & Hperm & Hcount).
    destruct (batch_finished_outcomes web player_links s0 Hwf p Hreach Hfin) as [Hout Hrows].
    rewrite count_results_spec in Hcount. cbn in Hcount. injection Hcount as <- <-.
    rewrite Hperm.
    rewrite (filter_length_ext (task_plan_ok web (clubs s0)) (succeeds_alone web s0))
      by (intros link; by apply task_plan_ok_alone).
    rewrite (filter_length_ext (fun link => negb (task_plan_ok web (clubs s0) link))
               (fun link => negb (succeeds_alone web s0 link)))
      by (intros link; by rewrite task_plan_ok_alone).
    rewrite <- (filter_length_Forall2 _ is_success _ _ Hout).
    rewrite <- (filter_length_Forall2 (fun link => negb (succeeds_alone web s0 link))
                  (fun r => negb (is_success r)) player_links (omap outcome (pool_threads p))).
    2: { eapply Forall2_impl; [exact Hout|]. cbn. by intros link r ->. }
    destruct (batch_reachable_inv web player_links s0 Hwf p Hreach) as [[Hwf' _] _].
    split; [done|]. split; [done|]. split; [apply filter_length_split|]. split; [done|].
    intros link Hin Hok. rewrite task_plan_ok_alone in Hok by done.
    destruct (Hrows link Hin Hok) as (fid & Hfid & Hne).
    pose proof (wf_fotmob_unique _ Hwf' fid) as Hplayers. exists fid.
    destruct (players_with fid (pool_store p)) as [|row [|row' rest]] eqn:Hrow;
      [done|eauto|cbn in Hplayers; lia].
Qed.

Lemma player_batch_isolates_failures_witness :
  let p := pool_exec Sample.round_robin
             (batch_start Sample.web Sample.player_urls Sample.after_leagues) in
  let alone := run (scrape_single_player (Sample.site []) (Sample.player_url "101"))
                   Sample.after_leagues in
  wf_store Sample.after_leagues ∧
  task_plan Sample.web (clubs Sample.after_leagues) (Sample.player_url "104")
    = Raise WebDriverException ∧
  get_player_data_multithreaded Sample.web Sample.player_urls 3 Sample.after_leagues
                                (pool_store p) 9 1 ∧
  length (filter (task_plan_ok Sample.web (clubs Sample.after_leagues)) Sample.player_urls)
    = 9%nat ∧
  length (players (pool_store p)) = 9%nat ∧
  wf_store (pool_store p) ∧
  run (scrape_single_player Sample.web (Sample.player_url "104")) Sample.after_leagues
    = (Sample.after_leagues, Ret false) ∧
  snd alone = Ret true ∧ datas (fst alone) = [].
Proof.
  intros p alone.
  assert (wf_store Sample.after_leagues) as Hwf.
  { apply wf_storeb_true. vm_compute. reflexivity. }
  assert (get_player_data_multithreaded Sample.web Sample.player_urls 3 Sample.after_leagues
            (pool_store p) 9 1) as Hrun.
  { split; [lia|]. exists p, (omap outcome (pool_threads p)).
    split; [apply pool_exec_rtc|].
    split; [apply finishedb_true; vm_compute; reflexivity|].
    split; [reflexivity|]. split; [reflexivity|]. vm_compute. reflexivity. }
  destruct (player_batch_isolates_failures Sample.web Sample.player_urls Sample.after_leagues Hwf)
    as (_ & _ & Hearly & _ & _ & Hcount).
  destruct (Hcount 3 (pool_store p) 9%nat 1%nat Hrun) as (Hsc & _ & _ & Hwf' & _).
  destruct (player_batch_isolates_failures (Sample.site []) Sample.player_urls
              Sample.after_leagues Hwf) as (_ & _ & _ & Hlate & Habsent & _).
  edestruct (Hlate (Sample.player_url "101") (Sample.profile []))
    as (s1 & row & Halone & _ & Hdatas);
    [vm_compute; reflexivity|vm_compute; reflexivity|by apply Habsent|].
  assert (task_plan Sample.web (clubs Sample.after_leagues) (Sample.player_url "104")
          = Raise WebDriverException) as Hplan by (vm_compute; reflexivity).
  destruct (Hearly _ _ Hplan) as (r & Hr & _).
  split; [exact Hwf|]. split; [exact Hplan|]. split; [exact Hrun|].
  split; [symmetry; exact Hsc|].
  split; [vm_compute; reflexivity|]. split; [exact Hwf'|].
  split; [vm_compute; reflexivity|].
  subst alone. rewrite Halone. split; [reflexivity|]. cbn [fst]. rewrite Hdatas. reflexivity.
Defined.

(** C6 as stated fails on the sample site.  Every profile loads; the
    statistics block of player 104 holds an item without its value element,
    so that the task of player 104, and no other, raises in the middle of
    its extraction.  The exception is swallowed by the inner handler: the
    batch counts ten successes and no failure, where the claim has nine and
    one. *)
Lemma raise_in_statistics_is_counted_a_success :
  let web := Sample.web_broken_stat in
  let p := pool_exec Sample.round_robin
             (batch_start web Sample.player_urls Sample.after_leagues) in
  (∃ page fid, task_plan web (clubs Sample.after_leagues) (Sample.player_url "104")
                 = Ret (page, fid) ∧
               collect_stats page = Raise NoSuchElementException) ∧
  filter (stats_raise web (clubs Sample.after_leagues)) Sample.player_urls
    = [Sample.player_url "104"] ∧
  filter (fun link => negb (task_plan_ok web (clubs Sample.after_leagues) link))
         Sample.player_urls = [] ∧
  get_player_data_multithreaded web Sample.player_urls 3 Sample.after_leagues
                                (pool_store p) 10 0 ∧
  length (players (pool_store p)) = 10%nat ∧
  length (datas (pool_store p)) = 9%nat.
Proof.
  intros web p.
  split.
  { exists (Sample.profile [ {| stat_title := Sample.element "Goals"; stat_value := None |} ]),
           104.
    split; vm_compute; reflexivity. }
  split; [vm_compute; reflexivity|]. split; [vm_compute; reflexivity|].
  split; [|split; vm_compute; reflexivity].
  split; [lia|]. exists p, (omap outcome (pool_threads p)).
  split; [apply pool_exec_rtc|].
  split; [apply finishedb_true; vm_compute; reflexivity|].
  split; [reflexivity|]. split; [reflexivity|]. vm_compute. reflexivity.
Qed.

(** ** C9: what the lock protects *)

(** A thread that does not hold the lock is outside every read-then-write
    sequence: it has finished or is waiting for the lock. *)
Lemma batch_outside_section web player_links s0 p i c :
  wf_store s0 -> rtc pool_step (batch_start web player_links s0) p ->
  pool_threads p !! i = Some c -> pool_lock p ≠ Some i ->
  match c with
  | Done _ | Acquire _ => True
  | Release _ | Db _ _ => False
  end.
Proof.
  intros Hwf Hreach Hi Hlock.
  destruct (batch_reachable_inv web player_links s0 Hwf p Hreach) as [_ Hth].
  assert (∃ s, batch_thread web s0 player_links i c s) as [s HT].
  { destruct (pool_lock p) as [h|].
    - destruct Hth as (ch & s & _ & _ & Hothers). exists s.
      apply Hothers; [congruence|done].
    - eauto. }
  apply (batch_T_step web s0 player_links) in HT. by destruct c.
Qed.

(** C9, as the code has it.  The two [update_or_create] of a player task
    run under [db_lock]: the task takes the lock before the first statement
    of each read-then-write sequence, sends statements only while it holds
    it, and has released it when it ends.  So, from a well-formed store and
    under every schedule of the pool, a thread that does not hold the lock is
    never in the middle of such a sequence, and the store never holds two
    [Player] rows with one [fotmob_id], two [Data] rows for one player or
    two rows with one primary key.  The [get_or_create] of [League] and
    [Club] are in [get_squad_links], which never takes the lock. *)
Theorem player_upserts_are_serialised (web : Driver) (player_links : list string)
    (s0 : Store) (p : Pool (result bool)) :
  wf_store s0 ->
  rtc pool_step (batch_start web player_links s0) p ->
  (∀ link s, lock_disc false false (scrape_single_player web link) ∧
             unlocked_writes false (scrape_single_player web link) s = 0%nat) ∧
  (∀ i c, pool_threads p !! i = Some c -> pool_lock p ≠ Some i ->
          match c with
          | Done _ | Acquire _ => True
          | Release _ | Db _ _ => False
          end) ∧
  wf_store (pool_store p) ∧
  ∀ urls, lock_free (get_squad_links web urls).
Proof.
  intros Hwf Hreach. split; [|split; [|split]].
  - intros link s. split; [apply lock_disc_player_task|].
    apply lock_disc_no_unlocked_writes with (post := false), lock_disc_player_task.
  - intros i c. by apply (batch_outside_section web player_links s0).
  - by destruct (batch_reachable_inv web player_links s0 Hwf p Hreach) as [[? _] _].
  - intros urls. apply lock_free_get_squad_links.
Qed.

Lemma player_upserts_are_serialised_witness :
  let p := pool_exec (take 57 Sample.round_robin)
             (batch_start Sample.web Sample.player_urls Sample.after_leagues) in
  pool_lock p = Some 1%nat ∧ length (players (pool_store p)) = 1%nat ∧
  wf_store (pool_store p).
Proof.
  intros p.
  assert (wf_store Sample.after_leagues) as Hwf.
  { apply wf_storeb_true. vm_compute. reflexivity. }
  destruct (player_upserts_are_serialised Sample.web Sample.player_urls Sample.after_leagues p
              Hwf (pool_exec_rtc _ _)) as (_ & _ & Hwf' & _).
  split; [vm_compute; reflexivity|]. split; [vm_compute; reflexivity|exact Hwf'].
Defined.

(** C9, counterexample: stage 1 on the LaLiga page inserts one [League] row
    and two [Club] rows, all three without holding the lock. *)
Lemma league_and_club_inserts_take_no_lock :
  unlocked_writes false (get_squad_links Sample.web [Sample.laliga_url]) empty_store = 3%nat ∧
  length (leagues Sample.after_leagues) = 1%nat ∧
  length (clubs Sample.after_leagues) = 2%nat ∧
  ¬ lock_disc false false (get_squad_links Sample.web [Sample.laliga_url]).
Proof.
  split; [vm_compute; reflexivity|]. split; [vm_compute; reflexivity|].
  split; [vm_compute; reflexivity|].
  intros H. apply (lock_disc_no_unlocked_writes _ _ _ empty_store) in H.
  vm_compute in H. discriminate.
Qed.

(** ** Exact binary64 arithmetic on small integers *)

Section Binary64.

Local Open Scope Z_scope.

#[local] Abbreviation D p := (Zpos (digits2_pos p)).

Lemma digits2_pos_bounds p : 2 ^ (D p - 1) <= Zpos p < 2 ^ D p.
Proof.
  induction p as [p IH|p IH|]; cbn [digits2_pos].
  - rewrite Pos2Z.inj_succ, (Pos2Z.inj_xI p).
    replace (Z.succ (D p) - 1) with (Z.succ (D p - 1)) by lia.
    rewrite !Z.pow_succ_r by lia. lia.
  - rewrite Pos2Z.inj_succ, (Pos2Z.inj_xO p).
    replace (Z.succ (D p) - 1) with (Z.succ (D p - 1)) by lia.
    rewrite !Z.pow_succ_r by lia. lia.
  - cbn. lia.
Qed.

Lemma digits2_pos_le p n : 0 <= n -> Zpos p < 2 ^ n -> D p <= n.
Proof.
  intros Hn Hp. destruct (Z.le_gt_cases (D p) n) as [|Hgt]; [done|].
  pose proof (digits2_pos_bounds p) as [Hlo _].
  assert (2 ^ n <= 2 ^ (D p - 1)) by (apply Z.pow_le_mono_r; lia). lia.
Qed.

Lemma digits2_pos_mul p q : D p + D q - 1 <= D (p * q).
Proof.
  pose proof (digits2_pos_bounds p) as [Hp _].
  pose proof (digits2_pos_bounds q) as [Hq _].
  pose proof (digits2_pos_bounds (p * q)) as [_ Hpq].
  destruct (Z.le_gt_cases (D p + D q - 1) (D (p * q))) as [|Hgt]; [done|].
  assert (2 ^ D (p * q) <= 2 ^ (D p + D q - 2)) as Hle by (apply Z.pow_le_mono_r; lia).
  replace (D p + D q - 2) with ((D p - 1) + (D q - 1)) in Hle by lia.
  rewrite Z.pow_add_r in Hle by lia. rewrite Pos2Z.inj_mul in Hpq. nia.
Qed.

Lemma shifted_digits k p : D (Nat.iter k xO p) = D p + Z.of_nat k.
Proof.
  induction k as [|k IH]; [cbn [Nat.iter nat_rect]; lia|].
  change (Nat.iter (S k) xO p) with (xO (Nat.iter k xO p)). cbn [digits2_pos].
  rewrite Pos2Z.inj_succ, IH. lia.
Qed.

Lemma shifted_value k p : Zpos (Nat.iter k xO p) = Zpos p * 2 ^ Z.of_nat k.
Proof.
  induction k as [|k IH]; [cbn [Nat.iter nat_rect]; change (2 ^ Z.of_nat 0) with 1; lia|].
  change (Nat.iter (S k) xO p) with (xO (Nat.iter k xO p)).
  rewrite (Pos2Z.inj_xO (Nat.iter k xO p)), IH, Nat2Z.inj_succ, Z.pow_succ_r by lia. lia.
Qed.

Lemma shifted_mul k j p q :
  (Nat.iter k xO p * Nat.iter j xO q)%positive = Nat.iter (k + j) xO (p * q)%positive.
Proof.
  apply Pos2Z.inj. rewrite Pos2Z.inj_mul, !shifted_value, Pos2Z.inj_mul, Nat2Z.inj_add.
  rewrite Z.pow_add_r by lia. lia.
Qed.

Lemma iter_pos_nat {A} (f : A -> A) n x : SpecFloat.iter_pos f n x = Nat.iter (Pos.to_nat n) f x.
Proof.
  revert x. induction n as [n IH|n IH|]; intros x; cbn [SpecFloat.iter_pos].
  - rewrite !IH, Pos2Nat.inj_xI. rewrite <- Nat.iter_add.
    replace (S (2 * Pos.to_nat n)) with (S (Pos.to_nat n + Pos.to_nat n)) by lia.
    by rewrite Nat.iter_succ_r.
  - rewrite !IH, Pos2Nat.inj_xO. rewrite <- Nat.iter_add. f_equal. lia.
  - reflexivity.
Qed.

Lemma shr_shifted k m :
  Nat.iter k shr_1 {| shr_m := Zpos (Nat.iter k xO m); shr_r := false; shr_s := false |} =
  {| shr_m := Zpos m; shr_r := false; shr_s := false |}.
Proof.
  induction k as [|k IH]; [reflexivity|].
  rewrite Nat.iter_succ_r. exact IH.
Qed.

Lemma fexp_normal e : -1074 <= e - 53 -> fexp 53 1024 e = e - 53.
Proof. unfold fexp, emin. lia. Qed.

(** Rounding a 53-bit mantissa followed by [n] zero bits is exact. *)
Lemma binary_round_aux_shifted s n R e :
  D R = 53 -> -1074 <= e + Z.of_nat n <= 971 ->
  binary_round_aux 53 1024 s (Zpos (Nat.iter n xO R)) e loc_Exact =
  S754_finite s R (e + Z.of_nat n).
Proof.
  intros HR He.
  assert (∀ e', -1074 <= e' ->
            shr_fexp 53 1024 (Zpos R) e' loc_Exact =
            ({| shr_m := Zpos R; shr_r := false; shr_s := false |}, e')) as Hnormal.
  { intros e' He'. unfold shr_fexp, Zdigits2. rewrite HR, fexp_normal by lia.
    replace (53 + e' - 53 - e') with 0 by lia. reflexivity. }
  assert (shr_fexp 53 1024 (Zpos (Nat.iter n xO R)) e loc_Exact =
          ({| shr_m := Zpos R; shr_r := false; shr_s := false |}, e + Z.of_nat n)) as Hshift.
  { destruct n as [|n].
    - cbn [Nat.iter nat_rect]. rewrite Hnormal by lia. f_equal; lia.
    - unfold shr_fexp, Zdigits2. rewrite shifted_digits, HR, fexp_normal by lia.
      replace (53 + Z.of_nat (S n) + e - 53 - e) with (Zpos (Pos.of_succ_nat n)) by lia.
      unfold shr, shr_record_of_loc. rewrite iter_pos_nat, SuccNat2Pos.id_succ, shr_shifted.
      f_equal; lia. }
  unfold binary_round_aux. rewrite Hshift. cbn [shr_m loc_of_shr_record round_nearest_even].
  rewrite Hnormal by lia. cbn [shr_m].
  destruct (Z.leb_spec (e + Z.of_nat n) (1024 - 53)); [reflexivity|lia].
Qed.

Lemma float_of_pos_shape r :
  Zpos r < 2 ^ 53 ->
  ∃ k, float_of_pos r = S754_finite false (Nat.iter k xO r) (- Z.of_nat k) ∧
       Z.of_nat k = 53 - D r.
Proof.
  intros Hr. pose proof (digits2_pos_le r 53 ltac:(lia) Hr).
  eexists. split; [reflexivity|]. unfold Py.prec. lia.
Qed.

Lemma float_of_Z_exact r : Zpos r < 2 ^ 53 -> Py.float_of_Z (Zpos r) = float_of_pos r.
Proof.
  intros Hr. destruct (float_of_pos_shape r Hr) as (k & -> & Hk).
  unfold Py.float_of_Z, Py.prec, Py.emax, binary_normalize, binary_round.
  rewrite fexp_normal by lia. unfold shl_align.
  destruct (D r + 0 - 53 - 0) as [|d|d] eqn:Hd; [|lia|].
  - assert (k = 0%nat) as -> by lia. cbn [Nat.iter nat_rect].
    apply (binary_round_aux_shifted false 0 r 0); lia.
  - rewrite Pos2Nat.inj_iter.
    assert (Pos.to_nat d = k) as -> by lia.
    rewrite (binary_round_aux_shifted false 0 (Nat.iter k xO r)).
    + f_equal. lia.
    + rewrite shifted_digits. lia.
    + lia.
Qed.

Lemma float_mul_exact p q :
  Zpos (p * q) < 2 ^ 53 ->
  SFmul 53 1024 (float_of_pos p) (float_of_pos q) = float_of_pos (p * q).
Proof.
  intros Hpq. rewrite Pos2Z.inj_mul in Hpq.
  assert (Zpos p < 2 ^ 53) as Hp by nia. assert (Zpos q < 2 ^ 53) as Hq by nia.
  rewrite <- Pos2Z.inj_mul in Hpq.
  destruct (float_of_pos_shape p Hp) as (kp & -> & Hkp).
  destruct (float_of_pos_shape q Hq) as (kq & -> & Hkq).
  destruct (float_of_pos_shape (p * q) Hpq) as (kr & -> & Hkr).
  pose proof (digits2_pos_mul p q) as Hd.
  cbn [SFmul xorb]. rewrite shifted_mul.
  replace (kp + kq)%nat with ((kp + kq - kr) + kr)%nat by lia.
  rewrite Nat.iter_add.
  rewrite binary_round_aux_shifted.
  - f_equal. lia.
  - rewrite shifted_digits. lia.
  - lia.
Qed.

Lemma int_of_float_exact k r :
  Py.int_of_float (S754_finite false (Nat.iter k xO r) (- Z.of_nat k)) = Ret (Zpos r).
Proof.
  unfold Py.int_of_float. f_equal.
  destruct (Z.leb_spec 0 (- Z.of_nat k)).
  - assert (k = 0%nat) as -> by lia. reflexivity.
  - rewrite Z.shiftr_div_pow2, shifted_value, Z.opp_involutive by lia.
    apply Z.div_mul. apply Z.pow_nonzero; lia.
Qed.

(** The product of two small integers, computed in binary64 and truncated,
    is their product. *)
Lemma scaled_int_exact n k :
  0 <= n -> 0 < k < 2 ^ 53 -> n * k < 2 ^ 53 ->
  Py.int_of_float (Py.float_mul_int (Py.float_of_decimal false n 0) k) = Ret (n * k).
Proof.
  intros Hn Hk Hnk. destruct k as [|k|k]; try lia.
  unfold Py.float_mul_int. rewrite (float_of_Z_exact k) by lia.
  destruct n as [|n|n]; [| |lia].
  - destruct (float_of_pos_shape k ltac:(lia)) as (j & -> & _). reflexivity.
  - unfold Py.float_of_decimal. cbn [Z.leb Z.compare].
    change (10 ^ 0) with 1. rewrite Z.mul_1_r.
    change (binary_normalize Py.prec Py.emax (Zpos n) 0 false) with (Py.float_of_Z (Zpos n)).
    rewrite (float_of_Z_exact n) by nia.
    change (SFmul Py.prec Py.emax) with (SFmul 53 1024).
    rewrite float_mul_exact by (rewrite Pos2Z.inj_mul; lia).
    destruct (float_of_pos_shape (n * k) ltac:(rewrite Pos2Z.inj_mul; lia)) as (j & -> & _).
    rewrite int_of_float_exact. by rewrite Pos2Z.inj_mul.
Qed.

End Binary64.

(** ** C2: [parse_market_value] *)

Section MarketValue.

Local Open Scope Z_scope.

Ltac by_ascii c := destruct c as [[] [] [] [] [] [] [] []]; try discriminate; try reflexivity.

Lemma append_cons c r t : String c r +:+ t = String c (r +:+ t).
Proof. reflexivity. Qed.

Lemma replace_euro_prefix s : Py.replace ("€" +:+ s) "€" "" = Py.replace_go "€" "" 0 s.
Proof. by destruct s. Qed.

(** A digit string followed by one letter [x], the suffix "M" or "K" in
    either case. *)
Variable x : ascii.
Hypothesis x_suffix : x ∈ ["M"; "m"; "K"; "k"]%char.

#[local] Abbreviation suffixed d := (d +:+ String x EmptyString).

Ltac suffix_cases :=
  repeat (apply elem_of_cons in x_suffix as [->|x_suffix]); [..|by apply elem_of_nil in x_suffix].

Lemma suffix_visible : visible x = true.
Proof using x_suffix. suffix_cases; reflexivity. Qed.

Lemma suffix_not_digit : Py.is_digit (Py.upper_char x) = false.
Proof using x_suffix. suffix_cases; reflexivity. Qed.

Lemma suffixed_no_euro d :
  Py.all_digits d = true -> Py.replace_go "€" "" 0 (suffixed d) = suffixed d.
Proof using x_suffix.
  induction d as [|c r IH].
  - intros _. suffix_cases; reflexivity.
  - cbn [Py.all_digits]. intros [Hc Hr]%andb_true_iff.
    rewrite append_cons. cbn [Py.replace_go]. rewrite (IH Hr).
    assert (String.prefix "€" (String c (suffixed r)) = false) as ->; [|reflexivity].
    revert Hc. clear. by_ascii c.
Qed.

Lemma suffixed_visible d : Py.all_digits d = true -> all_visible (suffixed d) = true.
Proof using x_suffix.
  induction d as [|c r IH].
  - intros _. change (suffixed "") with (String x ""). cbn [all_visible].
    by rewrite suffix_visible.
  - cbn [Py.all_digits]. intros [Hc Hr]%andb_true_iff.
    rewrite append_cons. cbn [all_visible]. by rewrite (digit_visible c Hc), (IH Hr).
Qed.

Lemma suffixed_upper d :
  Py.all_digits d = true ->
  Py.upper (suffixed d) = d +:+ String (Py.upper_char x) EmptyString.
Proof.
  induction d as [|c r IH]; [reflexivity|].
  cbn [Py.all_digits]. intros [Hc Hr]%andb_true_iff.
  rewrite !append_cons. cbn [Py.upper]. by rewrite (IH Hr), (digit_upper c Hc).
Qed.

Lemma suffixed_endswith d (y : ascii) :
  Py.all_digits d = true -> Py.is_digit y = false ->
  Py.endswith (suffixed d) (String y EmptyString) = Ascii.eqb x y.
Proof.
  intros Hd Hy. induction d as [|c r IH].
  - change (suffixed "") with (String x ""). cbn. by destruct (Ascii.eqb x y).
  - cbn [Py.all_digits] in Hd. apply andb_true_iff in Hd as [Hc Hr].
    rewrite append_cons. cbn [Py.endswith String.eqb].
    rewrite (digit_not_in c y Hc Hy), (IH Hr). reflexivity.
Qed.

Lemma suffixed_length d : String.length (suffixed d) = S (String.length d).
Proof.
  induction d as [|c r IH]; [reflexivity|]. rewrite append_cons. cbn [String.length]. by rewrite IH.
Qed.

Lemma suffixed_drop_last d : Py.drop_last 1 (suffixed d) = d.
Proof.
  unfold Py.drop_last. rewrite suffixed_length.
  replace (S (String.length d) - 1)%nat with (String.length d) by lia.
  induction d as [|c r IH]; [reflexivity|].
  rewrite append_cons. cbn [String.length String.substring]. by rewrite IH.
Qed.

(** What [parse_market_value] works on for the text "€", digits, suffix. *)
Lemma suffixed_normal_form d :
  Py.all_digits d = true ->
  Py.upper (Py.strip (Py.replace ("€" +:+ suffixed d) "€" "")) =
  d +:+ String (Py.upper_char x) EmptyString.
Proof using x_suffix.
  intros Hd. rewrite replace_euro_prefix, (suffixed_no_euro d Hd).
  unfold Py.strip. rewrite (all_visible_strip_by false _ (suffixed_visible d Hd)).
  by apply suffixed_upper.
Qed.

End MarketValue.

Section MarketValueNumbers.

Local Open Scope Z_scope.

Ltac by_ascii c := destruct c as [[] [] [] [] [] [] [] []]; try discriminate; try reflexivity.

Lemma digit_val_nonneg c : Py.is_digit c = true -> 0 <= Py.digit_val c.
Proof. by_ascii c. Qed.

Lemma decimal_value_from_nonneg d acc :
  Py.all_digits d = true -> 0 <= acc -> 0 <= Rule.decimal_value_from acc d.
Proof.
  revert acc. induction d as [|c r IH]; intros acc; [done|].
  cbn [Py.all_digits Rule.decimal_value_from]. intros [Hc Hr]%andb_true_iff Hacc.
  apply IH; [done|]. pose proof (digit_val_nonneg c Hc). lia.
Qed.

(** [float] of a digit string is the float nearest to its value. *)
Lemma float_isdigit d :
  Py.isdigit d = true ->
  Py.float d = Ret (Py.float_of_decimal false (Rule.decimal_value d) 0).
Proof.
  destruct d as [|c r]; [discriminate|]. intros Hd. unfold Py.isdigit in Hd.
  unfold Py.float. rewrite (all_digits_strip_by true _ Hd).
  pose proof Hd as [Hc _]%andb_true_iff. rewrite (sign_digit c r Hc).
  assert (∀ name, String.eqb (Py.upper (String c r)) (String "I" name) = false) as Hinf.
  { intros name. cbn [Py.upper String.eqb]. rewrite (digit_upper c Hc).
    by rewrite (digit_not_in c "I" Hc). }
  assert (String.eqb (Py.upper (String c r)) "NAN" = false) as Hnan.
  { cbn [Py.upper String.eqb]. rewrite (digit_upper c Hc).
    by rewrite (digit_not_in c "N" Hc). }
  rewrite !Hinf, Hnan. cbn [orb].
  rewrite (digits_go_all_digits _ 0 0 Hd). cbn [Py.exponent String.length Nat.add].
  reflexivity.
Qed.

(** A text with a comma is not an integer literal. *)
Lemma contains_comma_cons c r :
  Py.contains "," (String c r) = Ascii.eqb c "," || Py.contains "," r.
Proof.
  cbn [Py.contains String.prefix].
  destruct (Ascii.eqb_spec c ",") as [->|Hc].
  - destruct (ascii_dec "," ","); [|congruence]. by destruct r.
  - destruct (ascii_dec "," c); [congruence|]. reflexivity.
Qed.

Lemma contains_comma_app s t :
  Py.contains "," (s +:+ t) = Py.contains "," s || Py.contains "," t.
Proof.
  induction s as [|c r IH].
  - change ("" +:+ t) with t. by destruct t.
  - change (String c r +:+ t) with (String c (r +:+ t)).
    by rewrite !contains_comma_cons, IH, orb_assoc.
Qed.

Lemma no_visible_no_comma s : has_visible s = false -> Py.contains "," s = false.
Proof.
  induction s as [|c r IH]; [done|]. cbn [has_visible]. intros [Hc Hr]%orb_false_iff.
  rewrite contains_comma_cons, (IH Hr), orb_false_r.
  destruct (Ascii.eqb_spec c ",") as [->|]; [discriminate|done].
Qed.

Lemma strip_by_comma numeric s :
  Py.contains "," s = true -> Py.contains "," (Py.strip_by numeric s) = true.
Proof.
  unfold Py.strip_by.
  destruct (lstrip_by_split numeric s) as (pre & Hpre & Hvpre).
  destruct (rstrip_by_split numeric (Py.lstrip_by numeric s)) as (post & Hpost & Hvpost).
  rewrite Hpre at 1. rewrite Hpost at 1.
  rewrite !contains_comma_app, (no_visible_no_comma pre Hvpre), (no_visible_no_comma post Hvpost).
  by rewrite orb_false_r.
Qed.

Lemma digits_go_rest s acc n v k :
  Py.digits_go acc n s = (v, k, EmptyString) -> Py.contains "," s = false.
Proof.
  revert acc n. induction s as [|c r IH]; intros acc n; [done|].
  rewrite contains_comma_cons. cbn [Py.digits_go].
  destruct (Py.is_digit c) eqn:Hc.
  - intros H%IH. rewrite H. by rewrite (digit_not_in c "," Hc).
  - destruct (Ascii.eqb_spec c "_") as [->|Hu]; cbn [andb]; [|discriminate].
    destruct (bool_decide (n ≠ 0%nat)); [|discriminate].
    destruct r as [|d r']; [discriminate|].
    destruct (Py.is_digit d) eqn:Hd; [|discriminate].
    intros H. apply (IH acc n). cbn [Py.digits_go]. by rewrite Hd.
Qed.

Lemma sign_comma s neg body :
  Py.sign s = (neg, body) -> Py.contains "," s = true -> Py.contains "," body = true.
Proof.
  destruct s as [|c r]; [by intros [= <- <-]|].
  rewrite contains_comma_cons. unfold Py.sign.
  destruct (Ascii.eqb_spec c "-") as [->|Hm]; [by intros [= <- <-]|].
  destruct (Ascii.eqb_spec c "+") as [->|Hp]; [by intros [= <- <-]|].
  assert (Py.sign (String c r) = (false, String c r)) as Hs.
  { revert Hm Hp. clear. by_ascii c; congruence. }
  unfold Py.sign in Hs. rewrite Hs. intros [= <- <-]. by rewrite contains_comma_cons.
Qed.

Lemma int_comma s : Py.contains "," s = true -> Py.int s = Raise ValueError.
Proof.
  intros Hs. unfold Py.int.
  destruct (Py.sign (Py.strip_by true s)) as [neg body] eqn:Hsign.
  assert (Py.contains "," body = true) as Hbody.
  { apply (sign_comma _ _ _ Hsign). by apply strip_by_comma. }
  destruct (Py.digits_go 0 0 body) as [[v k] rest] eqn:Hgo.
  destruct k as [|k]; [done|]. destruct rest; [|done].
  apply digits_go_rest in Hgo. congruence.
Qed.

End MarketValueNumbers.

Lemma parse_market_value_unfold value :
  parse_market_value (Some value) =
  let v := Py.upper (Py.strip (Py.replace value "€" "")) in
  if Py.endswith v "M" then
    x ← Py.float (Py.drop_last 1 v); Some <$> Py.int_of_float (Py.float_mul_int x 1000000)
  else if Py.endswith v "K" then
    x ← Py.float (Py.drop_last 1 v); Some <$> Py.int_of_float (Py.float_mul_int x 1000)
  else try_except (Some <$> Py.int v) (fun _ => Ret None).
Proof. reflexivity. Qed.

(** The three shapes of the text once the euro sign is removed, the white
    space stripped and the letters uppercased. *)
Lemma parse_market_value_digits value d :
  Py.upper (Py.strip (Py.replace value "€" "")) = d -> Py.isdigit d = true ->
  parse_market_value (Some value) =
  Ret (if Z.of_nat (String.length d) <=? Py.int_max_str_digits
       then Some (Rule.decimal_value d) else None).
Proof.
  intros Hv Hd. assert (Py.all_digits d = true) as Hall by (by destruct d).
  rewrite parse_market_value_unfold, Hv. cbv zeta.
  rewrite !(all_digits_endswith d) by done.
  destruct (Z.leb_spec (Z.of_nat (String.length d)) Py.int_max_str_digits).
  - by rewrite (int_isdigit d Hd).
  - by rewrite (int_too_long d Hd).
Qed.

Lemma parse_market_value_scaled value d (x : ascii) (k : Z) :
  (x = "M"%char ∧ k = 1000000) ∨ (x = "K"%char ∧ k = 1000) ->
  Py.upper (Py.strip (Py.replace value "€" "")) = d +:+ String x EmptyString ->
  Py.isdigit d = true -> Rule.decimal_value d * k < 2 ^ 53 ->
  parse_market_value (Some value) = Ret (Some (Rule.decimal_value d * k)).
Proof.
  intros Hx Hv Hd Hbound.
  assert (Py.all_digits d = true) as Hall by (by destruct d).
  rewrite parse_market_value_unfold, Hv. cbv zeta.
  rewrite !(suffixed_endswith x d _ Hall) by done.
  rewrite suffixed_drop_last, (float_isdigit d Hd).
  assert (0 <= Rule.decimal_value d) as Hn by (by apply decimal_value_from_nonneg).
  destruct Hx as [[-> ->]|[-> ->]]; cbn [Ascii.eqb Bool.eqb mbind result_bind];
    rewrite scaled_int_exact by lia; reflexivity.
Qed.

(** C2, as the code has it.  [parse_market_value] removes every euro sign,
    strips the white space around what is left and uppercases it; it
    removes no separator.  Call the outcome the normal form.
    - A normal form made of digits gives their value ([None] beyond 4300
      digits).
    - A normal form made of digits and "M" gives the number times
      1,000,000, and one made of digits and "K" the number times 1,000,
      for results below [2 ^ 53]; so "m" and "k" in the text count too.
    - An ASCII normal form that ends with neither "M" nor "K" gives the
      integer it writes, and [None] when it writes none; with a comma,
      ASCII or not, it gives [None].
    So "€" followed by digits and one of "M", "m", "K", "k" is that number
    of millions or thousands.  "€45.5M" gives 45500000, "€750K" gives
    750000, "€10" gives 10, "N/A" gives [None], "€180m" gives 180000000,
    " 10 €" gives 10 and "€1,200" gives [None]. *)
Theorem parse_market_value_rule :
  parse_market_value (Some "€45.5M") = Ret (Some 45500000) ∧
  parse_market_value (Some "€750K") = Ret (Some 750000) ∧
  parse_market_value (Some "€10") = Ret (Some 10) ∧
  parse_market_value (Some "N/A") = Ret None ∧
  parse_market_value (Some "€180m") = Ret (Some 180000000) ∧
  parse_market_value (Some " 10 €") = Ret (Some 10) ∧
  parse_market_value (Some "€1,200") = Ret None ∧
  (∀ value d,
     let v := Py.upper (Py.strip (Py.replace value "€" "")) in
     Py.isdigit d = true ->
     (v = d ->
      parse_market_value (Some value) =
      Ret (if Z.of_nat (String.length d) <=? 4300
           then Some (Rule.decimal_value d) else None)) ∧
     (v = d +:+ "M" -> Rule.decimal_value d * 1000000 < 2 ^ 53 ->
      parse_market_value (Some value) = Ret (Some (Rule.decimal_value d * 1000000))) ∧
     (v = d +:+ "K" -> Rule.decimal_value d * 1000 < 2 ^ 53 ->
      parse_market_value (Some value) = Ret (Some (Rule.decimal_value d * 1000)))) ∧
  (∀ d x k,
     Py.isdigit d = true ->
     (x, k) ∈ [("M"%char, 1000000); ("m"%char, 1000000); ("K"%char, 1000); ("k"%char, 1000)] ->
     Rule.decimal_value d * k < 2 ^ 53 ->
     parse_market_value (Some ("€" +:+ d +:+ String x EmptyString)) =
     Ret (Some (Rule.decimal_value d * k))) ∧
  (∀ value,
     let v := Py.upper (Py.strip (Py.replace value "€" "")) in
     Py.endswith v "M" = false -> Py.endswith v "K" = false ->
     (Py.isascii v = true ->
      parse_market_value (Some value) = Ret (Rule.option_of (Py.int v))) ∧
     (Py.contains "," v = true -> parse_market_value (Some value) = Ret None)).
Proof.
  split; [vm_compute; reflexivity|]. split; [vm_compute; reflexivity|].
  split; [vm_compute; reflexivity|]. split; [vm_compute; reflexivity|].
  split; [vm_compute; reflexivity|]. split; [vm_compute; reflexivity|].
  split; [vm_compute; reflexivity|]. split; [|split].
  - intros value d v Hd. split; [|split].
    + intros Hv. by apply parse_market_value_digits.
    + intros Hv Hbound. apply (parse_market_value_scaled value d "M" 1000000); auto.
    + intros Hv Hbound. apply (parse_market_value_scaled value d "K" 1000); auto.
  - intros d x k Hd Hx Hbound.
    assert (Py.all_digits d = true) as Hall by (by destruct d).
    assert (x ∈ ["M"; "m"; "K"; "k"]%char ∧
            ((Py.upper_char x = "M"%char ∧ k = 1000000) ∨
             (Py.upper_char x = "K"%char ∧ k = 1000))) as [Hx' Hk].
    { repeat (apply elem_of_cons in Hx as [[= -> ->]|Hx]);
        [| | | |by apply elem_of_nil in Hx];
        (split; [repeat constructor|auto]). }
    apply (parse_market_value_scaled _ d (Py.upper_char x) k); [done| |done|done].
    by apply suffixed_normal_form.
  - intros value v HM HK. rewrite parse_market_value_unfold. fold v. cbv zeta.
    rewrite HM, HK. split.
    + intros _. by destruct (Py.int v).
    + intros Hcomma. by rewrite (int_comma v Hcomma).
Qed.

Lemma parse_market_value_rule_witness :
  parse_market_value (Some "  €180 ") = Ret (Some 180) ∧
  parse_market_value (Some "€12.5") = Ret None ∧
  parse_market_value (Some "€ 180m") = Ret (Some 180000000) ∧
  parse_market_value (Some "€ 180k ") = Ret (Some 180000) ∧
  parse_market_value (Some "€180K") = Ret (Some 180000) ∧
  parse_market_value (Some "€ -12") = Ret (Some (-12)) ∧
  parse_market_value (Some " 1,200 ") = Ret None.
Proof.
  destruct parse_market_value_rule
    as (_ & _ & _ & _ & _ & _ & _ & Hnormal & Hshape & Hplain).
  pose proof (Hnormal "  €180 " "180") as Hunit.
  pose proof (Hnormal "€ 180m" "180") as Hmillions.
  pose proof (Hnormal "€ 180k " "180") as Hthousands.
  pose proof (Hplain "€12.5") as Hspaced.
  pose proof (Hplain "€ -12") as Hsigned.
  pose proof (Hplain " 1,200 ") as Hcomma.
  cbv zeta in Hunit, Hmillions, Hthousands, Hspaced, Hsigned, Hcomma.
  destruct (Hunit eq_refl) as (Hunit' & _).
  destruct (Hmillions eq_refl) as (_ & Hmillions' & _).
  destruct (Hthousands eq_refl) as (_ & _ & Hthousands').
  split; [apply Hunit'; reflexivity|].
  split; [apply (proj1 (Hspaced eq_refl eq_refl)); reflexivity|].
  split; [apply Hmillions'; reflexivity|].
  split; [apply Hthousands'; reflexivity|].
  split; [apply (Hshape "180" "K"%char 1000 eq_refl);
          [apply list_elem_of_further, list_elem_of_further, list_elem_of_here|reflexivity]|].
  split; [apply (proj1 (Hsigned eq_refl eq_refl)); reflexivity|].
  apply (proj2 (Hcomma eq_refl eq_refl)); reflexivity.
Defined.

(** C2, counterexample: the thousands separator is kept, so "€1,200" is
    not read as 1200. *)
Lemma parse_market_value_keeps_separators :
  parse_market_value (Some "€1,200") = Ret None ∧
  Rule.market_value "€1,200" = Some 1200 ∧
  parse_market_value (Some "€1,200") ≠ Ret (Rule.market_value "€1,200").
Proof. split; [|split]; [vm_compute; reflexivity..|vm_compute; discriminate]. Qed.

(** Outside the rule above: a suffixed text whose number cannot be read
    raises, and a fractional number of millions can come out one short. *)
Lemma parse_market_value_suffix_slips :
  parse_market_value (Some "€TBCM") = Raise ValueError ∧
  parse_market_value (Some "€4.1M") = Ret (Some 4099999) ∧
  parse_market_value (Some "€32.3K") = Ret (Some 32299).
Proof. repeat split; vm_compute; reflexivity. Qed.
